(** * Verification of the gpt-2 fine-tuning scripts

    Shallow embedding of [src/trainval.py] and [src/trainval_adafactor.py]:
    the chunk sampler with its binary search, the validation-gated training
    loop, and the Adafactor optimizer (slot creation, decay schedules,
    update clipping).  Python integers are [Z]; Python exceptions are an
    explicit error type; TensorFlow float tensors are shaped lists over
    any carrier that provides the float operations the optimizer uses. *)

From Equations Require Import Equations.
From Stdlib Require Import ZArith List Bool Lia Ascii String DecimalString Reals Lra.
From Stdlib Require DecimalZ.
Import ListNotations.

Local Open Scope Z_scope.

(* ===================================================================== *)
(** ** Python runtime: exceptions, indexing, slicing                      *)
(* ===================================================================== *)

Module Py.

(** The exceptions the modelled code can raise. *)
Inductive exn : Type :=
| AssertionError (msg : string)
| ZeroDivisionError
| TypeError
| IndexError
| ValueError.

(** A computation either yields a value or raises. *)
Inductive result (A : Type) : Type :=
| Ok (a : A)
| Raise (e : exn).
Arguments Ok {A} a.
Arguments Raise {A} e.

Definition bind {A B} (m : result A) (k : A -> result B) : result B :=
  match m with
  | Ok a => k a
  | Raise e => Raise e
  end.

Definition len {A} (l : list A) : Z := Z.of_nat (List.length l).

(** [l[j]]: negative indices count from the end, anything outside
    [-len, len) raises IndexError. *)
Definition getitem {A} (l : list A) (j : Z) : result A :=
  let j' := if j <? 0 then j + len l else j in
  if (0 <=? j') && (j' <? len l)
  then match nth_error l (Z.to_nat j') with
       | Some a => Ok a
       | None => Raise IndexError
       end
  else Raise IndexError.

(** Normalisation of one slice bound against a sequence of length [n]. *)
Definition clamp (n x : Z) : Z :=
  if x <? 0 then Z.max (x + n) 0 else Z.min x n.

(** [l[start:stop]] with unit step. *)
Definition slice {A} (l : list A) (start stop : Z) : list A :=
  let s := clamp (len l) start in
  let e := clamp (len l) stop in
  firstn (Z.to_nat (e - s)) (skipn (Z.to_nat s) l).

(** [l[:stop]] and [l[start:]]. *)
Definition slice_to {A} (l : list A) (stop : Z) : list A := slice l 0 stop.
Definition slice_from {A} (l : list A) (start : Z) : list A :=
  slice l start (len l).

(** [a // b] on integers. *)
Definition floordiv (a b : Z) : result Z :=
  if b =? 0 then Raise ZeroDivisionError else Ok (a / b).

(** [a % b] on integers (the sign follows the divisor, as [Z.modulo]). *)
Definition mod_ (a b : Z) : result Z :=
  if b =? 0 then Raise ZeroDivisionError else Ok (a mod b).

End Py.

Import Py.

Declare Scope py_scope.
Delimit Scope py_scope with py.
Notation "x <- m ;; k" := (Py.bind m (fun x => k))
  (at level 61, m at next level, right associativity) : py_scope.
Local Open Scope py_scope.

(* ===================================================================== *)
(** ** binary_search                                                      *)
(* ===================================================================== *)

(** The [while hi > lo + 1] loop of [binary_search].  The predicate is a
    Python callable, so each call may raise. *)
Equations? binary_search_loop (f : Z -> result bool) (lo hi : Z) : result Z
  by wf (Z.to_nat (hi - lo)) lt :=
  binary_search_loop f lo hi with Z_gt_dec hi (lo + 1) => {
    | left _ with f ((lo + hi) / 2) => {
        | Ok true := binary_search_loop f lo ((lo + hi) / 2);
        | Ok false := binary_search_loop f ((lo + hi) / 2) hi;
        | Raise e := Raise e };
    | right _ := Ok hi }.
Proof.
  all: pose proof (Z.div_mod (lo + hi) 2 ltac:(lia));
    pose proof (Z.mod_pos_bound (lo + hi) 2 ltac:(lia)); lia.
Qed.

(** [binary_search(f, lo, hi)]; the Python [None] is [None]. *)
Definition binary_search (f : Z -> result bool) (lo hi : Z)
  : result (option Z) :=
  flo <- f lo ;;
  if flo then Ok None
  else
    fhi <- f hi ;;
    if negb fhi then Ok None
    else (r <- binary_search_loop f lo hi ;; Ok (Some r)).

(** A predicate that never raises. *)
Definition pure_pred (f : Z -> bool) : Z -> result bool := fun j => Ok (f j).

(* ===================================================================== *)
(** ** Sampler                                                            *)
(* ===================================================================== *)

(** Token identifiers are integers; a chunk is one encoded document. *)
Definition chunk : Type := list Z.

Record Sampler : Type := mkSampler {
  chunks : list chunk;
  total_size : Z;
  boundaries : list Z
}.

(** [Sampler.__init__]: [total_size] is the sum of the chunk sizes and
    [boundaries] grows by one running total per chunk, starting from [[0]]. *)
Definition Sampler_init (cs : list chunk) : Sampler :=
  {| chunks := cs;
     total_size := fold_left (fun acc c => acc + len c) cs 0;
     boundaries :=
       fold_left (fun bs c => bs ++ [last bs 0 + len c]) cs [0] |}.

(** Decimal rendering used by [str.format]. *)
Definition str_of_Z (z : Z) : string :=
  DecimalString.NilZero.string_of_int (Z.to_int z).

Definition too_small_msg (length : Z) : string :=
  ("Dataset files are too small to sample " ++ str_of_Z length
   ++ " tokens at a time")%string.

(** How a call that consumes random numbers ends.  The outputs of
    [random.randint] are read from a tape; [Starved] says that the tape
    ran out while the call was still looping. *)
Inductive outcome (A : Type) : Type :=
| Returned (a : A)
| Raised (e : exn)
| Starved.
Arguments Returned {A} a.
Arguments Raised {A} e.
Arguments Starved {A}.

(** One pass through the body of the [while True] loop of [sample] once
    [index] is drawn: [Ok (Some w)] returns [w], [Ok None] loops again. *)
Definition sample_attempt (s : Sampler) (length index : Z)
  : result (option chunk) :=
  j <- binary_search (fun j => b <- getitem (boundaries s) j ;; Ok (b >? index))
                     0 (len (boundaries s) - 1) ;;
  match j with
  | None => Raise TypeError
  | Some j =>
      let i := j - 1 in
      b1 <- getitem (boundaries s) (i + 1) ;;
      if b1 >? index + length then
        b0 <- getitem (boundaries s) i ;;
        let within_chunk := index - b0 in
        c <- getitem (chunks s) i ;;
        Ok (Some (slice c within_chunk (within_chunk + length)))
      else Ok None
  end.

(** The rejection loop.  [random.randint(0, total_size - length - 1)]
    raises ValueError on an empty range and otherwise consumes the next
    output on the tape.  The loop gives its outcome together with the
    outputs not yet consumed. *)
Fixpoint sample_loop (s : Sampler) (length : Z) (tape : list Z)
  : outcome chunk * list Z :=
  if 0 >? total_size s - length - 1 then (Raised ValueError, tape)
  else
    match tape with
    | [] => (Starved, [])
    | index :: tape' =>
        match sample_attempt s length index with
        | Raise e => (Raised e, tape')
        | Ok (Some w) => (Returned w, tape')
        | Ok None => sample_loop s length tape'
        end
    end.

(** [Sampler.sample(length)]. *)
Definition sample (s : Sampler) (length : Z) (tape : list Z)
  : outcome chunk * list Z :=
  match floordiv (total_size s) (len (chunks s)) with
  | Raise e => (Raised e, tape)
  | Ok avg =>
      if length <? avg then sample_loop s length tape
      else (Raised (AssertionError (too_small_msg length)), tape)
  end.

(* ===================================================================== *)
(** ** train_main: the training loop                                      *)
(* ===================================================================== *)

(** The float operations the loop performs on loss values.  The loop is
    modelled over any carrier that provides them, so its control-flow
    properties do not depend on rounding. *)
Class FloatOps (F : Type) : Type := {
  fadd : F -> F -> F;
  fmul : F -> F -> F;
  fdiv : F -> F -> F;
  flt : F -> F -> bool;
  f_0_0 : F;        (* 0.0 *)
  f_1_0 : F;        (* 1.0 *)
  f_0_99 : F;       (* 0.99 *)
  f_99 : F          (* 99, the initial best_val_loss *)
}.

(** One concrete carrier: decimal fixed point with six fractional digits,
    every operation rounding towards minus infinity.  [z] stands for
    [z / 10^6]. *)
Definition fixed_unit : Z := 1000000.

#[export] Instance FloatOps_fixed : FloatOps Z := {|
  fadd := Z.add;
  fmul := fun a b => a * b / fixed_unit;
  fdiv := fun a b => a * fixed_unit / b;
  flt := Z.ltb;
  f_0_0 := 0;
  f_1_0 := fixed_unit;
  f_0_99 := 990000;
  f_99 := 99 * fixed_unit
|}.

(** The loop is modelled with its collaborators abstracted: drawing a
    batch and running the session are one action that yields a loss
    value, and writing samples or a checkpoint is one action.  Console
    output is left out, and so is the [KeyboardInterrupt] handler, which
    only ends the run. *)
Module Train.

(** Externally visible actions of one run, in program order. *)
Inductive event : Type :=
| GenerateSamples (counter : Z)   (* generate_samples() *)
| TrainStep (counter : Z)         (* sess.run((opt, loss)) on a batch *)
| Validate (counter : Z)          (* sess.run(loss) on a validation batch *)
| Save (counter : Z).             (* save(): checkpoint + counter file *)

Section Loop.
Context {F : Type} `{FloatOps F}.

(** Arguments of [train_main] that steer the loop. *)
Record config : Type := mkConfig {
  sample_every : Z;
  stop_after : Z;
  save_every : Z
}.

(** The model collaborator: the loss value [lv] and the validation
    loss [valacc] observed at iteration [counter]. *)
Record model : Type := mkModel {
  run_train : Z -> F;
  run_val : Z -> F
}.

(** The local variables of [train_main] that the loop mutates. *)
Record state : Type := mkState {
  counter : Z;
  avg_loss : F * F;
  val_loss : F * F;
  best_val_loss : F;
  missed_val_checkpoints : Z;
  trace : list event
}.

(** Values on entry to the loop; [counter0] is 1 for a new run and the
    persisted step plus one when resuming. *)
Definition initial (counter0 : Z) : state :=
  {| counter := counter0;
     avg_loss := (f_0_0, f_0_0);
     val_loss := (f_0_0, f_0_0);
     best_val_loss := f_99;
     missed_val_checkpoints := 0;
     trace := [] |}.

Definition emit (e : event) (s : state) : state :=
  {| counter := counter s; avg_loss := avg_loss s; val_loss := val_loss s;
     best_val_loss := best_val_loss s;
     missed_val_checkpoints := missed_val_checkpoints s;
     trace := trace s ++ [e] |}.

(** [(a, w) -> (a * 0.99 + x, w * 0.99 + 1.0)]. *)
Definition ema (acc : F * F) (x : F) : F * F :=
  (fadd (fmul (fst acc) f_0_99) x, fadd (fmul (snd acc) f_0_99) f_1_0).

(** [if counter % sample_every == 0: generate_samples()]. *)
Definition samples_step (cfg : config) (s : state) : result state :=
  r <- mod_ (counter s) (sample_every cfg) ;;
  Ok (if r =? 0 then emit (GenerateSamples (counter s)) s else s).

(** Batch, optimizer step and the training-loss average. *)
Definition train_step (m : model) (s : state) : state :=
  let s := emit (TrainStep (counter s)) s in
  let lv := run_train m (counter s) in
  {| counter := counter s; avg_loss := ema (avg_loss s) lv;
     val_loss := val_loss s; best_val_loss := best_val_loss s;
     missed_val_checkpoints := missed_val_checkpoints s;
     trace := trace s |}.

(** [counter >= every and counter % every == 0], with Python's
    short-circuit [and]. *)
Definition at_cadence (every c : Z) : result bool :=
  if c >=? every then (r <- mod_ c every ;; Ok (r =? 0)) else Ok false.

(** The body of the cadence test: save and reset on an improvement,
    count a miss otherwise. *)
Definition checkpoint_decision (av_val_loss : F) (s : state) : state :=
  if flt av_val_loss (best_val_loss s) then
    let s := emit (Save (counter s)) s in
    {| counter := counter s; avg_loss := avg_loss s;
       val_loss := val_loss s; best_val_loss := av_val_loss;
       missed_val_checkpoints := 0; trace := trace s |}
  else
    {| counter := counter s; avg_loss := avg_loss s;
       val_loss := val_loss s; best_val_loss := best_val_loss s;
       missed_val_checkpoints := missed_val_checkpoints s + 1;
       trace := trace s |}.

(** [if missed_val_checkpoints > 9: counter = stop_after + 1]. *)
Definition early_stop_check (cfg : config) (s : state) : state :=
  if missed_val_checkpoints s >? 9 then
    {| counter := stop_after cfg + 1; avg_loss := avg_loss s;
       val_loss := val_loss s; best_val_loss := best_val_loss s;
       missed_val_checkpoints := missed_val_checkpoints s;
       trace := trace s |}
  else s.

(** The [if counter % 5 == 0:] block.  [every] is the cadence the
    script tests [counter] against. *)
Definition validation_step (cfg : config) (m : model) (every : Z)
           (s : state) : result state :=
  if counter s mod 5 =? 0 then
    let s := emit (Validate (counter s)) s in
    let valacc := run_val m (counter s) in
    let vl := ema (val_loss s) valacc in
    let av_val_loss := fdiv (fst vl) (snd vl) in
    let s := {| counter := counter s; avg_loss := avg_loss s;
                val_loss := vl; best_val_loss := best_val_loss s;
                missed_val_checkpoints := missed_val_checkpoints s;
                trace := trace s |} in
    due <- at_cadence every (counter s) ;;
    let s := if due then checkpoint_decision av_val_loss s else s in
    Ok (early_stop_check cfg s)
  else Ok s.

(** [counter += 1]. *)
Definition advance (s : state) : state :=
  {| counter := counter s + 1; avg_loss := avg_loss s;
     val_loss := val_loss s; best_val_loss := best_val_loss s;
     missed_val_checkpoints := missed_val_checkpoints s;
     trace := trace s |}.

(** One pass through the body of [while counter < stop_after]. *)
Definition iteration (cfg : config) (m : model) (every : Z) (s : state)
  : result state :=
  s <- samples_step cfg s ;;
  s <- validation_step cfg m every (train_step m s) ;;
  Ok (advance s).

(** The [while counter < stop_after] loop.  Every pass moves
    [counter] up, so the loop is a total function of its start state. *)
Equations? train_loop (cfg : config) (m : model) (every : Z) (s : state)
  : result state by wf (Z.to_nat (stop_after cfg - counter s)) lt :=
  train_loop cfg m every s with Z_lt_dec (counter s) (stop_after cfg) => {
    | right _ := Ok s;
    | left _ with Logic.inspect (iteration cfg m every s) => {
        | exist _ (Ok s') Hit := train_loop cfg m every s';
        | exist _ (Raise err) _ := Raise err } }.
Proof.
  clear train_loop.
  unfold iteration, samples_step, validation_step, at_cadence, mod_ in Hit.
  destruct (sample_every cfg =? 0); [discriminate|]. cbn in Hit.
  assert (C : forall b : bool, counter (train_step m
            (if b then emit (GenerateSamples (counter s)) s else s))
            = counter s) by (intros []; reflexivity).
  destruct (counter s mod sample_every cfg =? 0);
    (destruct (_ mod 5 =? 0);
     [ cbn [counter emit] in Hit; rewrite ?C in Hit;
       destruct (_ >=? every);
       [ destruct (every =? 0); [discriminate|]; cbn in Hit;
         destruct (_ mod every =? 0); cbn in Hit |];
       injection Hit as <-;
       unfold early_stop_check, checkpoint_decision;
       repeat match goal with
              | |- context [if ?b then _ else _] => destruct b
              end; cbn; rewrite ?C; lia
     | injection Hit as <-; cbn; rewrite ?C; cbn; lia ]).
Qed.

End Loop.
End Train.

(** [trainval.py] tests the literal 100; [trainval_adafactor.py] tests its
    [save_every] argument. *)
Module Trainval.
Definition train_main {F} `{FloatOps F}
           (cfg : Train.config) (m : Train.model) (counter0 : Z)
  : result Train.state :=
  Train.train_loop cfg m 100 (Train.initial counter0).
End Trainval.

Module TrainvalAdafactor.
Definition train_main {F} `{FloatOps F}
           (cfg : Train.config) (m : Train.model) (counter0 : Z)
  : result Train.state :=
  Train.train_loop cfg m (Train.save_every cfg) (Train.initial counter0).
End TrainvalAdafactor.

(* ===================================================================== *)
(** ** TensorFlow operations used by the optimizer                        *)
(* ===================================================================== *)

(** The scalar float arithmetic under the optimizer: the entries of its
    float32 tensors and its Python float arguments.  The optimizer is
    modelled over any carrier that provides these operations, so what is
    proved of it for every carrier does not depend on rounding, nor on
    the order in which a reduction kernel adds its entries. *)
Class TensorOps (F : Type) : Type := {
  t_add : F -> F -> F;
  t_sub : F -> F -> F;
  t_mul : F -> F -> F;
  t_div : F -> F -> F;
  t_neg : F -> F;
  t_sqrt : F -> F;               (* tf.sqrt *)
  t_rsqrt : F -> F;              (* tf.rsqrt *)
  t_pow : F -> F -> F;           (* tf.pow *)
  t_maximum : F -> F -> F;       (* tf.maximum *)
  t_minimum : F -> F -> F;       (* tf.minimum *)
  t_mean : list F -> F;          (* the mean of the entries of one reduction *)
  t_to_float : nat -> F;         (* tf.to_float of the global step *)
  t_truthy : F -> bool;          (* bool(x) of a Python float *)
  t_lit : Z -> Z -> F            (* the literal [m]e[k], m * 10^k *)
}.

(** Exact real arithmetic, the carrier in which rounding is ignored. *)
Definition lit_R (m k : Z) : R :=
  if k <? 0 then (IZR m / 10 ^ Z.to_nat (- k))%R
  else (IZR m * 10 ^ Z.to_nat k)%R.

#[export] Instance TensorOps_R : TensorOps R := {|
  t_add := Rplus;
  t_sub := Rminus;
  t_mul := Rmult;
  t_div := Rdiv;
  t_neg := Ropp;
  t_sqrt := sqrt;
  t_rsqrt := fun x => (/ sqrt x)%R;
  t_pow := Rpower;
  t_maximum := Rmax;
  t_minimum := Rmin;
  t_mean := fun l => (fold_right Rplus 0 l / INR (List.length l))%R;
  t_to_float := INR;
  t_truthy := fun x => if Req_dec_T x 0 then false else true;
  t_lit := lit_R
|}.

(** A dense float tensor: its static shape and its entries in row-major
    order. *)
Record Tensor (F : Type) : Type := mkTensor {
  shape : list Z;
  data : list F
}.
Arguments mkTensor {F} shape data.
Arguments shape {F} t.
Arguments data {F} t.

Module tf.

Definition num_elements (sh : list Z) : nat :=
  Z.to_nat (fold_right Z.mul 1 sh).

Fixpoint zip_with {A B C} (f : A -> B -> C) (a : list A) (b : list B)
  : list C :=
  match a, b with
  | x :: a', y :: b' => f x y :: zip_with f a' b'
  | _, _ => []
  end.

(** [k] consecutive groups of [n] entries. *)
Fixpoint groups {A} (n k : nat) (l : list A) : list (list A) :=
  match k with
  | O => []
  | S k' => firstn n l :: groups n k' (skipn n l)
  end.

(** Broadcasting of two static shapes, aligned at their last axes: two
    extents agree when they are equal or one of them is 1.  The shapes
    are given last axis first. *)
Fixpoint broadcast_rev (a b : list Z) : option (list Z) :=
  match a, b with
  | [], _ => Some b
  | _, [] => Some a
  | x :: a', y :: b' =>
      match broadcast_rev a' b' with
      | None => None
      | Some r =>
          if x =? y then Some (x :: r)
          else if x =? 1 then Some (y :: r)
          else if y =? 1 then Some (x :: r)
          else None
      end
  end.

Definition broadcast_shape (a b : list Z) : option (list Z) :=
  option_map (@rev Z) (broadcast_rev (rev a) (rev b)).

(** A shape with axes of extent 1 put in front, up to rank [n]. *)
Definition pad_rank (sh : list Z) (n : nat) : list Z :=
  repeat 1 (n - List.length sh) ++ sh.

(** Extents of the last and of the second-to-last axis, and the number
    of rows (groups along the last axis) and of stacked matrices. *)
Definition last_dim (sh : list Z) : nat := Z.to_nat (last sh 1).
Definition penult_dim (sh : list Z) : nat :=
  Z.to_nat (last (slice_to sh (-1)) 1).
Definition rows (sh : list Z) : nat := num_elements (slice_to sh (-1)).
Definition batch (sh : list Z) : nat := num_elements (slice_to sh (-2)).

Definition shape_eqb (a b : list Z) : bool :=
  if list_eq_dec Z.eq_dec a b then true else false.

Section Ops.
Context {F : Type} {ops : TensorOps F}.

Definition zeros (sh : list Z) : Tensor F :=
  {| shape := sh; data := repeat (t_lit 0 0) (num_elements sh) |}.

Definition size (t : Tensor F) : nat := List.length (data t).

(** The entries [d] of a tensor of shape [sh], repeated along every axis
    on which [sh] has extent 1 and the target shape, of the same rank,
    has a larger one. *)
Fixpoint expand (sh target : list Z) (d : list F) : list F :=
  match sh, target with
  | x :: sh', y :: target' =>
      let blocks :=
        List.map (expand sh' target')
          (groups (num_elements sh') (Z.to_nat x) d) in
      if x =? y then List.concat blocks
      else List.concat (repeat (List.concat blocks) (Z.to_nat y))
  | _, _ => d
  end.

Definition broadcast_to (t : Tensor F) (target : list Z) : list F :=
  expand (pad_rank (shape t) (List.length target)) target (data t).

(** An entrywise unary operation, also a tensor combined with a
    scalar. *)
Definition map (f : F -> F) (t : Tensor F) : Tensor F :=
  {| shape := shape t; data := List.map f (data t) |}.

(** An entrywise binary operation of two tensors, with broadcasting;
    shapes that do not broadcast are rejected when the graph is built. *)
Definition map2 (f : F -> F -> F) (a b : Tensor F) : result (Tensor F) :=
  match broadcast_shape (shape a) (shape b) with
  | Some sh =>
      Ok {| shape := sh;
            data := zip_with f (broadcast_to a sh) (broadcast_to b sh) |}
  | None => Raise ValueError
  end.

Definition square (t : Tensor F) : Tensor F := map (fun x => t_mul x x) t.
Definition add_scalar (t : Tensor F) (c : F) : Tensor F :=
  map (fun x => t_add x c) t.
Definition scale (c : F) (t : Tensor F) : Tensor F :=
  map (fun x => t_mul c x) t.
Definition div_scalar (t : Tensor F) (c : F) : Tensor F :=
  map (fun x => t_div x c) t.
Definition add (a b : Tensor F) : result (Tensor F) := map2 t_add a b.
Definition sub (a b : Tensor F) : result (Tensor F) := map2 t_sub a b.
Definition mul (a b : Tensor F) : result (Tensor F) := map2 t_mul a b.
Definition div (a b : Tensor F) : result (Tensor F) := map2 t_div a b.

(** [tf.reduce_mean(t)] over all entries. *)
Definition reduce_mean (t : Tensor F) : F := t_mean (data t).

(** [tf.reduce_mean(t, -1)], with [keepdims] or without; a tensor of
    rank 0 has no such axis. *)
Definition reduce_mean_last (keepdims : bool) (t : Tensor F)
  : result (Tensor F) :=
  if len (shape t) <? 1 then Raise ValueError
  else
    Ok {| shape := slice_to (shape t) (-1) ++ (if keepdims then [1] else []);
          data := List.map t_mean
                    (groups (last_dim (shape t)) (rows (shape t)) (data t)) |}.

(** Column [j] of a matrix given by its rows. *)
Definition column (rows : list (list F)) (j : nat) : list F :=
  List.map (fun row => nth j row (t_lit 0 0)) rows.

(** [tf.reduce_mean(t, -2)]; a tensor of rank below 2 has no such
    axis. *)
Definition reduce_mean_penult (t : Tensor F) : result (Tensor F) :=
  if len (shape t) <? 2 then Raise ValueError
  else
    let a := penult_dim (shape t) in
    let b := last_dim (shape t) in
    Ok {| shape := slice_to (shape t) (-2) ++ slice_from (shape t) (-1);
          data := flat_map
                    (fun block =>
                       List.map (fun j => t_mean (column (groups b a block) j))
                                (seq 0 b))
                    (groups (a * b) (batch (shape t)) (data t)) |}.

(** [tf.expand_dims(t, axis)]. *)
Definition expand_dims (t : Tensor F) (axis : Z) : result (Tensor F) :=
  let rank := len (shape t) in
  if (axis <? - (rank + 1)) || (rank <? axis) then Raise ValueError
  else
    let p := Z.to_nat (if axis <? 0 then axis + rank + 1 else axis) in
    Ok {| shape := firstn p (shape t) ++ [1] ++ skipn p (shape t);
          data := data t |}.

(** A Python value handed to a TensorFlow operation is converted to a
    tensor first; [None] is refused. *)
Definition convert_to_tensor (x : option (Tensor F)) : result (Tensor F) :=
  match x with
  | Some t => Ok t
  | None => Raise ValueError
  end.

(** [tf.assign(ref, value)]: the new value, whose static shape must be
    that of the variable assigned to. *)
Definition assign (ref value : Tensor F) : result (Tensor F) :=
  if shape_eqb (shape ref) (shape value) then Ok value
  else Raise ValueError.

End Ops.

End tf.

(** [reduce_rms]. *)
Definition reduce_rms {F : Type} {ops : TensorOps F} (x : Tensor F) : F :=
  t_sqrt (tf.reduce_mean (tf.square x)).

(* ===================================================================== *)
(** ** AdafactorOptimizer                                                 *)
(* ===================================================================== *)

(** A trainable variable: its graph name and current (float32) value. *)
Record Variable_ (F : Type) : Type := mkVariable {
  var_name : string;
  var_value : Tensor F
}.
Arguments mkVariable {F} var_name var_value.
Arguments var_name {F} v.
Arguments var_value {F} v.

(** The optimizer's slot variables, keyed by slot name and variable name,
    in creation order. *)
Definition slots (F : Type) : Type := list ((string * string) * Tensor F).

Definition slot_key_eqb (k1 k2 : string * string) : bool :=
  String.eqb (fst k1) (fst k2) && String.eqb (snd k1) (snd k2).

Fixpoint lookup_slot {F : Type} (ss : slots F) (k : string * string)
  : option (Tensor F) :=
  match ss with
  | [] => None
  | (k', t) :: ss' => if slot_key_eqb k' k then Some t else lookup_slot ss' k
  end.

Fixpoint assign_slot {F : Type} (ss : slots F) (k : string * string)
         (t : Tensor F) : slots F :=
  match ss with
  | [] => []
  | (k', t') :: ss' =>
      if slot_key_eqb k' k then (k', t) :: ss'
      else (k', t') :: assign_slot ss' k t
  end.

Module AdafactorOptimizer.

(** The attributes set by [__init__].  [_learning_rate] and
    [_decay_rate] are graph expressions over the global step, hence
    functions of it. *)
Record t (F : Type) : Type := mk {
  _multiply_by_parameter_scale : bool;
  _learning_rate : nat -> F;
  _decay_rate : nat -> F;
  _beta1 : F;
  _clipping_threshold : option F;
  _factored : bool;
  _epsilon1 : F;
  _epsilon2 : F
}.
Arguments mk {F}.
Arguments _multiply_by_parameter_scale {F} self : rename.
Arguments _learning_rate {F} self : rename.
Arguments _decay_rate {F} self : rename.
Arguments _beta1 {F} self : rename.
Arguments _clipping_threshold {F} self : rename.
Arguments _factored {F} self : rename.
Arguments _epsilon1 {F} self : rename.
Arguments _epsilon2 {F} self : rename.

Section Optimizer.
Context {F : Type} {ops : TensorOps F}.

(** The global training step, read as a float. *)
Definition step_num (global_step : nat) : F := t_to_float global_step.

Definition adafactor_decay_rate_adam (beta2 : F) (global_step : nat) : F :=
  let t := t_add (t_to_float global_step) (t_lit 1 0) in
  t_div (t_mul beta2 (t_sub (t_lit 1 0) (t_pow beta2 (t_sub t (t_lit 1 0)))))
        (t_sub (t_lit 1 0) (t_pow beta2 t)).

Definition adafactor_decay_rate_pow (exponent : F) (global_step : nat) : F :=
  t_sub (t_lit 1 0)
        (t_pow (t_add (step_num global_step) (t_lit 1 0)) (t_neg exponent)).

Definition _decay_rate_default : nat -> F :=
  adafactor_decay_rate_pow (t_lit 8 (-1)).

Definition _learning_rate_default (multiply_by_parameter_scale : bool)
           (global_step : nat) : F :=
  let learning_rate :=
    t_minimum (t_rsqrt (t_add (step_num global_step) (t_lit 1 0)))
              (t_lit 1 (-2)) in
  if negb multiply_by_parameter_scale then t_mul learning_rate (t_lit 5 (-2))
  else learning_rate.

(** [__init__]; [None] for [learning_rate] or [decay_rate] selects the
    default schedule. *)
Definition init (multiply_by_parameter_scale : bool)
           (learning_rate decay_rate : option (nat -> F))
           (beta1 : F) (clipping_threshold : option F) (factored : bool)
           (epsilon1 epsilon2 : F) : t F :=
  {| _multiply_by_parameter_scale := multiply_by_parameter_scale;
     _learning_rate :=
       match learning_rate with
       | Some lr => lr
       | None => _learning_rate_default multiply_by_parameter_scale
       end;
     _decay_rate :=
       match decay_rate with
       | Some d => d
       | None => _decay_rate_default
       end;
     _beta1 := beta1;
     _clipping_threshold := clipping_threshold;
     _factored := factored;
     _epsilon1 := epsilon1;
     _epsilon2 := epsilon2 |}.

(** Python truthiness of a float: anything but zero. *)
Definition truthy (x : F) : bool := t_truthy x.

Definition _should_use_factored_second_moment_estimate
           (self : t F) (shape : list Z) : bool :=
  _factored self && (len shape >=? 2).

(** [_get_or_make_slot]: an existing slot is kept, a missing one is
    created with the given initial value. *)
Definition _get_or_make_slot (ss : slots F) (var : Variable_ F)
           (val : Tensor F) (slot_name : string) : slots F :=
  match lookup_slot ss (slot_name, var_name var) with
  | Some _ => ss
  | None => ss ++ [((slot_name, var_name var), val)]
  end.

Definition _zeros_slot (ss : slots F) (var : Variable_ F)
           (slot_name : string) : slots F :=
  _get_or_make_slot ss var (tf.zeros (shape (var_value var))) slot_name.

(** The body of the [for var in var_list] loop of [_create_slots]. *)
Definition create_slots_for (self : t F) (ss : slots F) (var : Variable_ F)
  : slots F :=
  let shape := shape (var_value var) in
  let ss := if truthy (_beta1 self) then _zeros_slot ss var "m" else ss in
  if _should_use_factored_second_moment_estimate self shape then
    let r_val := tf.zeros (slice_to shape (-1)) in
    let c_val := tf.zeros (slice_to shape (-2) ++ slice_from shape (-1)) in
    let ss := _get_or_make_slot ss var r_val "vr" in
    _get_or_make_slot ss var c_val "vc"
  else
    let v_val := tf.zeros shape in
    _get_or_make_slot ss var v_val "v".

Definition _create_slots (self : t F) (var_list : list (Variable_ F))
           (ss : slots F) : slots F :=
  fold_left (create_slots_for self) var_list ss.

(** [get_slot]: the slot, or [None] when it was never created. *)
Definition get_slot (ss : slots F) (var : Variable_ F) (name : string)
  : option (Tensor F) :=
  lookup_slot ss (name, var_name var).

Definition _parameter_scale (self : t F) (var : Tensor F) : F :=
  t_maximum (reduce_rms var) (_epsilon2 self).

(** Lines of [_resource_apply_dense] up to [mixing_rate]: the squared
    gradient, the scheduled decay rate, and the decay rate after the
    grad-dependent term is added to it. *)
Definition grad_squared (self : t F) (grad : Tensor F) : Tensor F :=
  tf.add_scalar (tf.square grad) (_epsilon1 self).

Definition decay_rate_used (self : t F) (global_step : nat)
           (grad : Tensor F) : F :=
  let grad_squared_mean := tf.reduce_mean (grad_squared self grad) in
  let decay_rate := _decay_rate self global_step in
  t_add decay_rate (t_mul grad_squared_mean (t_lit 1 (-30))).

Definition mixing_rate (self : t F) (global_step : nat) (grad : Tensor F)
  : F :=
  t_sub (t_lit 1 0) (decay_rate_used self global_step grad).

Definition update_scale (self : t F) (global_step : nat) (grad : Tensor F)
           (old_val : Tensor F) : F :=
  let grad_squared_mean := tf.reduce_mean (grad_squared self grad) in
  let update_scale := _learning_rate self global_step in
  let update_scale :=
    if _multiply_by_parameter_scale self
    then t_mul update_scale (_parameter_scale self old_val)
    else update_scale in
  t_add update_scale (t_mul grad_squared_mean (t_lit 1 (-30))).

(** [if self._clipping_threshold is not None: ...]. *)
Definition clip (self : t F) (x : Tensor F) : Tensor F :=
  match _clipping_threshold self with
  | Some threshold =>
      let clipping_denom :=
        t_maximum (t_lit 1 0) (t_div (reduce_rms x) threshold) in
      tf.div_scalar x clipping_denom
  | None => x
  end.

(** [_resource_apply_dense] at a given global step: the new value of the
    variable and the slots after all grouped assignments.  Variables are
    float32, so the bfloat16 decoding and [cast_like] change nothing.
    The operations are built in program order; the first one that is
    refused ends the call. *)
Definition _resource_apply_dense (self : t F) (global_step : nat)
           (grad : Tensor F) (var : Variable_ F) (ss : slots F)
  : result (Variable_ F * slots F) :=
  let grad_squared := grad_squared self grad in
  let decay_rate := decay_rate_used self global_step grad in
  let update_scale := update_scale self global_step grad (var_value var) in
  let old_val := var_value var in
  let mixing_rate := mixing_rate self global_step grad in
  let shape := shape (var_value var) in
  xu <- (if _should_use_factored_second_moment_estimate self shape then
           grad_squared_row_mean <- tf.reduce_mean_last false grad_squared ;;
           grad_squared_col_mean <- tf.reduce_mean_penult grad_squared ;;
           vr <- tf.convert_to_tensor (get_slot ss var "vr") ;;
           new_vr <- tf.add (tf.scale decay_rate vr)
                       (tf.scale mixing_rate grad_squared_row_mean) ;;
           vc <- tf.convert_to_tensor (get_slot ss var "vc") ;;
           new_vc <- tf.add (tf.scale decay_rate vc)
                       (tf.scale mixing_rate grad_squared_col_mean) ;;
           vr_update <- tf.assign vr new_vr ;;
           vc_update <- tf.assign vc new_vc ;;
           let ss := assign_slot ss ("vr"%string, var_name var) vr_update in
           let ss := assign_slot ss ("vc"%string, var_name var) vc_update in
           long_term_mean <- tf.reduce_mean_last true new_vr ;;
           ratio <- tf.div new_vr long_term_mean ;;
           let r_factor := tf.map t_rsqrt ratio in
           let c_factor := tf.map t_rsqrt new_vc in
           r_column <- tf.expand_dims r_factor (-1) ;;
           x_rows <- tf.mul grad r_column ;;
           c_row <- tf.expand_dims c_factor (-2) ;;
           x <- tf.mul x_rows c_row ;;
           Ok (x, ss)
         else
           v <- tf.convert_to_tensor (get_slot ss var "v") ;;
           new_v <- tf.add (tf.scale decay_rate v)
                      (tf.scale mixing_rate grad_squared) ;;
           v_update <- tf.assign v new_v ;;
           let ss := assign_slot ss ("v"%string, var_name var) v_update in
           x <- tf.mul grad (tf.map t_rsqrt new_v) ;;
           Ok (x, ss)) ;;
  let x := clip self (fst xu) in
  let ss := snd xu in
  let subtrahend := tf.scale update_scale x in
  su <- (if truthy (_beta1 self) then
           m <- tf.convert_to_tensor (get_slot ss var "m") ;;
           new_m <- tf.add (tf.scale (_beta1 self) m)
                      (tf.scale (t_sub (t_lit 1 0) (_beta1 self)) subtrahend) ;;
           m_update <- tf.assign m new_m ;;
           Ok (new_m, assign_slot ss ("m"%string, var_name var) m_update)
         else Ok (subtrahend, ss)) ;;
  new_val <- tf.sub old_val (fst su) ;;
  var_update <- tf.assign old_val new_val ;;
  Ok ({| var_name := var_name var; var_value := var_update |}, snd su).

End Optimizer.

End AdafactorOptimizer.

(** The optimizer [train_main] of [trainval_adafactor.py] builds. *)
Definition train_main_optimizer {F : Type} {ops : TensorOps F}
           (learning_rate beta1 beta2 : F) : AdafactorOptimizer.t F :=
  AdafactorOptimizer.init true (Some (fun _ => learning_rate))
    (Some (AdafactorOptimizer.adafactor_decay_rate_adam beta2))
    beta1 (Some (t_lit 1 0)) true (t_lit 1 (-30)) (t_lit 1 (-3)).

(* ===================================================================== *)
(** ** train_main: what surrounds the loop                                *)
(* ===================================================================== *)

(** [train_vars = all_vars[-layers_to_train:]] in [trainval_adafactor.py]. *)
Definition select_train_vars {A : Type} (all_vars : list A)
           (layers_to_train : Z) : list A :=
  slice_from all_vars (- layers_to_train).

(** *** The counter file *)

(** Whitespace as [int()] skips it at both ends of an ASCII string: tab,
    line feed, vertical tab, form feed, carriage return and space. *)
Definition is_space (a : Ascii.ascii) : bool :=
  let n := Ascii.N_of_ascii a in
  ((9 <=? n) && (n <=? 13) || (n =? 32))%N.

Definition is_digit (a : Ascii.ascii) : bool :=
  let n := Ascii.N_of_ascii a in ((48 <=? n) && (n <=? 57))%N.

Fixpoint lstrip (s : string) : string :=
  match s with
  | EmptyString => EmptyString
  | String a r => if is_space a then lstrip r else s
  end.

Fixpoint rstrip (s : string) : string :=
  match s with
  | EmptyString => EmptyString
  | String a r =>
      match rstrip r with
      | EmptyString => if is_space a then EmptyString else String a EmptyString
      | r' => String a r'
      end
  end.

Definition strip (s : string) : string := rstrip (lstrip s).

(** The digits of a decimal literal as [int()] accepts it: at least one
    digit, and single underscores only between two digits.
    [prev_digit] says that the character before was a digit. *)
Fixpoint literal_digits (prev_digit : bool) (s : string) : option string :=
  match s with
  | EmptyString => if prev_digit then Some EmptyString else None
  | String a r =>
      if is_digit a then option_map (String a) (literal_digits true r)
      else if Ascii.eqb a "_"%char && prev_digit then literal_digits false r
      else None
  end.

(** [int(s)] on an ASCII string: surrounding whitespace, an optional
    sign, decimal digits; anything else is a ValueError. *)
Definition py_int (s : string) : result Z :=
  let body := strip s in
  let signed :=
    match body with
    | String a r =>
        if Ascii.eqb a "-"%char then (true, r)
        else if Ascii.eqb a "+"%char then (false, r)
        else (false, body)
    | EmptyString => (false, body)
    end in
  match literal_digits false (snd signed) with
  | Some ds =>
      match NilEmpty.uint_of_string ds with
      | Some d => Ok (if fst signed then - Z.of_uint d else Z.of_uint d)
      | None => Raise ValueError
      end
  | None => Raise ValueError
  end.

(** What [save()] writes to the counter file:
    [fp.write(str(counter) + '\n')]. *)
Definition counter_file_text (counter : Z) : string :=
  (str_of_Z counter ++ String (Ascii.ascii_of_nat 10) EmptyString)%string.

(** The start value of [counter]: 1, or the content of the counter file
    plus one when the file exists. *)
Definition initial_counter (counter_file : option string) : result Z :=
  match counter_file with
  | None => Ok 1
  | Some text => c <- py_int text ;; Ok (c + 1)
  end.

(** *** generate_samples *)

Definition newline : string := String (Ascii.ascii_of_nat 10) EmptyString.

(** [range(n)]. *)
Definition py_range (n : Z) : list Z :=
  List.map Z.of_nat (seq 0 (Z.to_nat n)).

Module GenerateSamples.

(** ['======== SAMPLE {} ========\n{}\n'.format(n, text)]. *)
Definition sample_block (n : Z) (text : string) : string :=
  ("======== SAMPLE " ++ str_of_Z n ++ " ========" ++ newline
     ++ text ++ newline)%string.

(** How a call of [generate_samples()] ends.  [file_name] is the last
    component of the path of the file under the run's sample directory
    (for a run name without format fields), [file_text] what is written
    to it,
    [printed] what [print(text)] shows.  [UnboundLocalError] is the
    error of reading the local [text] before any assignment to it;
    [NoProgress] is a [while] loop whose body leaves [index] as it
    was. *)
Inductive generated : Type :=
| Generated (printed file_name file_text : string)
| GenRaised (e : exn)
| UnboundLocalError
| GenStarved
| NoProgress.

(** The locals that the two loops update. *)
Record locals : Type := {
  index : Z;
  all_text : list string;
  text : option string
}.

Section Body.

Variables sample_num batch_size : Z.

(** [decoded ctx run i] is [enc.decode(out[i])] for the [out] returned by
    the call number [run] (from 0) of [sess.run(tf_sample, ...)] on
    [batch_size] copies of the context tokens [ctx]. *)
Variable decoded : chunk -> Z -> Z -> string.

(** The body of [for i in range(...)]. *)
Definition for_body (ctx : chunk) (run : Z) (l : locals) (i : Z) : locals :=
  let t := sample_block (index l + 1) (decoded ctx run i) in
  {| index := index l + 1; all_text := all_text l ++ [t]; text := Some t |}.

(** [while index < sample_num: out = sess.run(...); for i in
    range(min(sample_num - index, batch_size)): ...].  [None] when the
    fuel runs out. *)
Fixpoint while_loop (fuel : nat) (ctx : chunk) (run : Z) (l : locals)
  : option locals :=
  if index l <? sample_num then
    match fuel with
    | O => None
    | S fuel' =>
        while_loop fuel' ctx (run + 1)
          (fold_left (for_body ctx run)
             (py_range (Z.min (sample_num - index l) batch_size)) l)
    end
  else Some l.

(** [generate_samples()] at step [counter].  Every pass of the [while]
    loop that adds a sample moves [index] up, so [sample_num] passes are
    enough for the loop to end unless a pass adds nothing. *)
Definition generate_samples (data_sampler : Sampler) (counter : Z)
           (tape : list Z) : generated * list Z :=
  match sample data_sampler 1 tape with
  | (Returned context_tokens, tape') =>
      match while_loop (Z.to_nat sample_num) context_tokens 0
              {| index := 0; all_text := []; text := None |} with
      | None => (NoProgress, tape')
      | Some l =>
          match text l with
          | None => (UnboundLocalError, tape')
          | Some t =>
              (Generated t ("samples-" ++ str_of_Z counter)%string
                 (String.concat newline (all_text l)), tape')
          end
      end
  | (Raised e, tape') => (GenRaised e, tape')
  | (Starved, tape') => (GenStarved, tape')
  end.

End Body.

End GenerateSamples.

(* ===================================================================== *)
(** ** Vocabulary of the statements                                       *)
(* ===================================================================== *)

(** Running totals of the chunk sizes, starting from [start]. *)
Fixpoint offsets_from (start : Z) (cs : list chunk) : list Z :=
  match cs with
  | [] => [start]
  | c :: cs' => start :: offsets_from (start + len c) cs'
  end.

(** A corpus of three chunks of ten tokens each. *)
Definition three_chunks : list chunk :=
  [ [1; 2; 3; 4; 5; 6; 7; 8; 9; 10];
    [11; 12; 13; 14; 15; 16; 17; 18; 19; 20];
    [21; 22; 23; 24; 25; 26; 27; 28; 29; 30] ].

(** [w] is [n] consecutive tokens of one chunk of [cs]. *)
Definition window_of (cs : list chunk) (n : Z) (w : chunk) : Prop :=
  exists (i : nat) (c : chunk) (off : Z),
    nth_error cs i = Some c /\
    0 <= off /\ off + n <= len c /\
    w = firstn (Z.to_nat n) (skipn (Z.to_nat off) c) /\
    len w = n.

(** The acceptance rule with a non-strict comparison: [j] is the smallest
    boundary index with [boundaries[j] > index]; an index with
    [boundaries[j] >= index + length] is accepted and one with
    [boundaries[j] < index + length] is rejected. *)
Definition accepts_when_window_fits : Prop :=
  forall (cs : list chunk) (length index : Z) (j : nat),
    let s := Sampler_init cs in
    let bs := boundaries s in
    0 <= length ->
    0 <= index <= total_size s - length - 1 ->
    (j < List.length bs)%nat ->
    nth j bs 0 > index ->
    (forall k, (k < j)%nat -> nth k bs 0 <= index) ->
    (nth j bs 0 >= index + length ->
     exists w, sample_attempt s length index = Ok (Some w)) /\
    (nth j bs 0 < index + length ->
     sample_attempt s length index = Ok None).

Section LoopVocabulary.
Import Train.
Context {F : Type} `{FloatOps F}.

(** Recognisers of checkpoint and training-step events. *)
Definition is_save (e : event) : bool :=
  match e with Save _ => true | _ => false end.
Definition is_train_step (e : event) : bool :=
  match e with TrainStep _ => true | _ => false end.

(** The checkpoints written, and the training steps taken, in a trace. *)
Definition saves (tr : list event) : list event := filter is_save tr.
Definition train_steps (tr : list event) : list event :=
  filter is_train_step tr.

(** The averaged validation loss the iteration starting in [s] compares
    with [best_val_loss]. *)
Definition av_val_loss_of (m : model) (s : state) : F :=
  let vl := ema (val_loss s) (run_val m (counter s)) in
  fdiv (fst vl) (snd vl).

(** The iteration is a validation iteration on which the cadence test
    against [every] succeeds. *)
Definition decision_due (every c : Z) : bool :=
  (c mod 5 =? 0) && (c >=? every) && (c mod every =? 0).

End LoopVocabulary.

(** A model whose training and validation losses are always 3.0. *)
Definition steady_model : Train.model (F := Z) :=
  Train.mkModel (fun _ => 3 * fixed_unit) (fun _ => 3 * fixed_unit).

(** A model whose validation loss falls until iteration 300 and is 50.0
    from then on. *)
Definition stalling_model : Train.model (F := Z) :=
  Train.mkModel
    (fun _ => 3 * fixed_unit)
    (fun c => if c <=? 300 then (50 - c / 10) * fixed_unit
              else 50 * fixed_unit).

(** The state of a run that has missed nine checkpoints in a row and
    enters iteration 1300. *)
Definition nine_misses : Train.state (F := Z) :=
  Train.mkState 1300 (0, 0) (0, 0) fixed_unit 9 [].

(** The slots of one variable: slot name and value, in creation order. *)
Definition slots_of {F : Type} (ss : slots F) (var : Variable_ F)
  : list (string * Tensor F) :=
  List.map (fun kv => (fst (fst kv), snd kv))
    (filter (fun kv => String.eqb (snd (fst kv)) (var_name var)) ss).

(** The slots [_create_slots] is to give a variable of shape [sh]. *)
Definition expected_slots {F : Type} {ops : TensorOps F}
           (self : AdafactorOptimizer.t F) (sh : list Z)
  : list (string * Tensor F) :=
  (if AdafactorOptimizer.truthy (AdafactorOptimizer._beta1 self) then [("m"%string, tf.zeros sh)] else [])
  ++ (if AdafactorOptimizer._factored self && (2 <=? List.length sh)%nat
      then [("vr"%string, tf.zeros (removelast sh));
            ("vc"%string, tf.zeros (firstn (List.length sh - 2) sh
                             ++ skipn (List.length sh - 1) sh))]
      else [("v"%string, tf.zeros sh)]).

(** The second-moment accumulators among the slots of a variable: all
    its slots but the momentum slot ["m"]. *)
Definition second_moment_slots {F : Type} (ss : slots F) (var : Variable_ F)
  : list (string * Tensor F) :=
  filter (fun nt => negb (String.eqb (fst nt) "m")) (slots_of ss var).

(** The number of scalars a list of slots holds. *)
Definition scalars {F : Type} (l : list (string * Tensor F)) : nat :=
  list_sum (List.map (fun nt => tf.size (snd nt)) l).

(** The optimizer built with every argument left at its default. *)
Definition default_optimizer {F : Type} {ops : TensorOps F}
  : AdafactorOptimizer.t F :=
  AdafactorOptimizer.init true None None (t_lit 0 0) (Some (t_lit 1 0)) true
    (t_lit 1 (-30)) (t_lit 1 (-3)).

(** An update of [var] has averaged the second-moment accumulators with
    decay rate [d]: every accumulator of the variable found in the store
    [ss'] left by the update is [d * old + (1 - d) * statistics], where
    [old] is the accumulator found in the store [ss] before the update
    and [statistics] the squared gradient, for a full accumulator, or
    its mean over the last or the second-to-last axis, for the factored
    ones. *)
Definition second_moment_averaged {F : Type} {ops : TensorOps F}
           (self : AdafactorOptimizer.t F) (d : F) (grad : Tensor F)
           (var : Variable_ F) (ss ss' : slots F) : Prop :=
  let g2 := AdafactorOptimizer.grad_squared self grad in
  let averaged (old statistics new : Tensor F) :=
    tf.add (tf.scale d old) (tf.scale (t_sub (t_lit 1 0) d) statistics)
    = Ok new in
  if AdafactorOptimizer._should_use_factored_second_moment_estimate
       self (shape (var_value var))
  then
    exists vr vc row_mean col_mean new_vr new_vc,
      lookup_slot ss ("vr"%string, var_name var) = Some vr /\
      lookup_slot ss ("vc"%string, var_name var) = Some vc /\
      tf.reduce_mean_last false g2 = Ok row_mean /\
      tf.reduce_mean_penult g2 = Ok col_mean /\
      averaged vr row_mean new_vr /\
      averaged vc col_mean new_vc /\
      lookup_slot ss' ("vr"%string, var_name var) = Some new_vr /\
      lookup_slot ss' ("vc"%string, var_name var) = Some new_vc
  else
    exists v new_v,
      lookup_slot ss ("v"%string, var_name var) = Some v /\
      averaged v g2 new_v /\
      lookup_slot ss' ("v"%string, var_name var) = Some new_v.

(** In every update the mixing rate of the second-moment average is one
    minus the scheduled decay rate of the step. *)
Definition mixing_rate_follows_schedule {F : Type} {ops : TensorOps F}
  : Prop :=
  forall (self : AdafactorOptimizer.t F) (global_step : nat)
         (grad : Tensor F) (var var' : Variable_ F) (ss ss' : slots F),
    AdafactorOptimizer._resource_apply_dense self global_step grad var ss
    = Ok (var', ss') ->
    second_moment_averaged self
      (AdafactorOptimizer._decay_rate self global_step) grad var ss ss'.

(** The integers [start, start + 1, ..., start + n - 1]. *)
Definition Zseq (start : Z) (n : nat) : list Z :=
  List.map (fun i => start + Z.of_nat i) (seq 0 n).

(** The actions other than a checkpoint that the loop takes at iteration
    [c]: samples on the sample cadence, one training step, a validation
    pass on every fifth iteration. *)
Definition scheduled_actions (sample_every c : Z) : list Train.event :=
  (if c mod sample_every =? 0 then [Train.GenerateSamples c] else [])
  ++ [Train.TrainStep c]
  ++ (if c mod 5 =? 0 then [Train.Validate c] else []).

(** A trace without its checkpoint events. *)
Definition without_saves (tr : list Train.event) : list Train.event :=
  filter (fun e => negb (is_save e)) tr.

(** The slots [_resource_apply_dense] reads for a variable are all
    present in the store. *)
Definition has_slots {F : Type} {ops : TensorOps F}
           (self : AdafactorOptimizer.t F) (ss : slots F)
           (var : Variable_ F) : Prop :=
  (AdafactorOptimizer.truthy (AdafactorOptimizer._beta1 self) = true ->
   lookup_slot ss ("m"%string, var_name var) <> None) /\
  (if AdafactorOptimizer._should_use_factored_second_moment_estimate
        self (shape (var_value var))
   then lookup_slot ss ("vr"%string, var_name var) <> None /\
        lookup_slot ss ("vc"%string, var_name var) <> None
   else lookup_slot ss ("v"%string, var_name var) <> None).

(** The store holds the slot [name] of [var], with static shape [sh]. *)
Definition slot_shaped {F : Type} (ss : slots F) (name : string)
           (var : Variable_ F) (sh : list Z) : Prop :=
  exists t, lookup_slot ss (name, var_name var) = Some t /\ shape t = sh.

(** The slots [_resource_apply_dense] reads for a variable are all
    present in the store, each with the shape [_create_slots] gives
    it. *)
Definition slots_ready {F : Type} {ops : TensorOps F}
           (self : AdafactorOptimizer.t F) (ss : slots F)
           (var : Variable_ F) : Prop :=
  let sh := shape (var_value var) in
  (AdafactorOptimizer.truthy (AdafactorOptimizer._beta1 self) = true ->
   slot_shaped ss "m" var sh) /\
  (if AdafactorOptimizer._should_use_factored_second_moment_estimate self sh
   then slot_shaped ss "vr" var (slice_to sh (-1)) /\
        slot_shaped ss "vc" var (slice_to sh (-2) ++ slice_from sh (-1))
   else slot_shaped ss "v" var sh).

(** The keys of a slot store with the static shape of each slot. *)
Definition slot_shapes {F : Type} (ss : slots F)
  : list ((string * string) * list Z) :=
  List.map (fun kv => (fst kv, shape (snd kv))) ss.

(** A string of decimal digits only. *)
Fixpoint all_digits (s : string) : bool :=
  match s with
  | EmptyString => true
  | String a r => is_digit a && all_digits r
  end.

(** The block that [generate_samples] is expected to produce for the
    sample at position [k] (from 0): numbered [k + 1], decoded from row
    [k mod batch_size] of call [k / batch_size] of the sampling graph. *)
Definition expected_block (batch_size : Z)
           (decoded : chunk -> Z -> Z -> string) (ctx : chunk) (k : Z)
  : string :=
  GenerateSamples.sample_block (k + 1)
    (decoded ctx (k / batch_size) (k mod batch_size)).

(* ===================================================================== *)
(** * Properties                                                          *)
(* ===================================================================== *)

(** ** binary_search *)

Section BinarySearch.
Variable f : Z -> result bool.
Variable p : Z -> bool.

(** The midpoint of a gap wider than one lies strictly inside it. *)
Lemma mid_between (lo hi : Z) :
  hi > lo + 1 -> lo < (lo + hi) / 2 < hi.
Proof.
  intros Hgap. pose proof (Z.div_mod (lo + hi) 2 ltac:(lia)).
  pose proof (Z.mod_pos_bound (lo + hi) 2 ltac:(lia)). lia.
Qed.

(** The loop keeps [p lo = false] and [p hi = true] and stops on a
    gap of one, so it ends on a point where [p] flips. *)
Lemma binary_search_loop_flip (lo hi : Z) :
  (forall j, lo <= j <= hi -> f j = Ok (p j)) ->
  lo < hi -> p lo = false -> p hi = true ->
  exists r, binary_search_loop f lo hi = Ok r /\
            lo < r <= hi /\ p (r - 1) = false /\ p r = true.
Proof.
  remember (Z.to_nat (hi - lo)) as n eqn:Hn.
  revert lo hi Hn. induction n as [n IH] using lt_wf_ind.
  intros lo hi Hn Hf Hlt Hlo Hhi.
  rewrite binary_search_loop_equation_1. cbn.
  destruct (Z_gt_dec hi (lo + 1)) as [Hgap | Hgap]; cbn.
  - pose proof (mid_between lo hi Hgap) as Hmid.
    rewrite (Hf ((lo + hi) / 2)) by lia. cbn.
    destruct (p ((lo + hi) / 2)) eqn:Hp; cbn.
    + destruct (IH (Z.to_nat ((lo + hi) / 2 - lo)) ltac:(lia)
                  lo ((lo + hi) / 2) eq_refl) as (r & Hr & Hb & Hpr);
        try assumption; try lia.
      { intros j Hj. apply Hf. lia. }
      exists r. repeat split; try tauto; lia.
    + destruct (IH (Z.to_nat (hi - (lo + hi) / 2)) ltac:(lia)
                  ((lo + hi) / 2) hi eq_refl) as (r & Hr & Hb & Hpr);
        try assumption; try lia.
      { intros j Hj. apply Hf. lia. }
      exists r. repeat split; try tauto; lia.
  - exists hi. assert (hi = lo + 1) as -> by lia.
    replace (lo + 1 - 1) with lo by lia. repeat split; auto; lia.
Qed.

(** On a monotone predicate there is only one flip point. *)
Lemma flip_unique (lo hi j k : Z) :
  (forall x y, lo <= x -> x <= y -> y <= hi -> p x = true -> p y = true) ->
  lo < j <= hi -> lo < k <= hi ->
  p (j - 1) = false -> p j = true ->
  p (k - 1) = false -> p k = true -> j = k.
Proof.
  intros Hmono Hj Hk Hj0 Hj1 Hk0 Hk1.
  destruct (Z.lt_trichotomy j k) as [Hlt | [Heq | Hgt]]; [| assumption |].
  - rewrite (Hmono j (k - 1) ltac:(lia) ltac:(lia) ltac:(lia) Hj1) in Hk0. discriminate.
  - rewrite (Hmono k (j - 1) ltac:(lia) ltac:(lia) ltac:(lia) Hk1) in Hj0. discriminate.
Qed.

(** What [binary_search] gives on a predicate that does not raise
    between the two ends. *)
Lemma binary_search_spec (lo hi : Z) :
  (forall j, lo <= j <= hi -> f j = Ok (p j)) ->
  lo <= hi ->
  (p lo = true \/ p hi = false -> binary_search f lo hi = Ok None) /\
  (p lo = false -> p hi = true ->
   exists r, binary_search f lo hi = Ok (Some r) /\
             lo < r <= hi /\ p (r - 1) = false /\ p r = true).
Proof.
  intros Hf Hle. unfold binary_search.
  rewrite (Hf lo) by lia. rewrite (Hf hi) by lia. cbn. split.
  - intros [Hlo | Hhi].
    + rewrite Hlo. reflexivity.
    + destruct (p lo); [reflexivity |]. rewrite Hhi. reflexivity.
  - intros Hlo Hhi. rewrite Hlo, Hhi. cbn.
    assert (lo < hi) as Hlt.
    { destruct (Z.eq_dec lo hi) as [-> |]; [congruence | lia]. }
    destruct (binary_search_loop_flip lo hi Hf Hlt Hlo Hhi)
      as (r & Hr & Hb & Hpr).
    exists r. rewrite Hr. cbn. auto.
Qed.

End BinarySearch.

(** C4.  For a predicate that is monotonic non-decreasing on the integer
    interval [lo, hi], [binary_search] returns [None] when the predicate
    holds at [lo] or fails at [hi], and otherwise returns the one index
    [j] in (lo, hi] with the predicate false at [j - 1] and true at [j]. *)
Theorem binary_search_monotone (p : Z -> bool) (lo hi : Z) :
  lo <= hi ->
  (forall x y, lo <= x -> x <= y -> y <= hi -> p x = true -> p y = true) ->
  (p lo = true \/ p hi = false ->
   binary_search (pure_pred p) lo hi = Ok None) /\
  (p lo = false -> p hi = true ->
   exists j, binary_search (pure_pred p) lo hi = Ok (Some j) /\
             lo < j <= hi /\ p (j - 1) = false /\ p j = true /\
             forall k, lo < k <= hi -> p (k - 1) = false -> p k = true ->
                       k = j).
Proof.
  intros Hle Hmono.
  destruct (binary_search_spec (pure_pred p) p lo hi
              (fun j _ => eq_refl) Hle) as [Hnone Hsome].
  split; [exact Hnone |].
  intros Hlo Hhi. destruct (Hsome Hlo Hhi) as (j & Hj & Hb & Hj0 & Hj1).
  exists j. repeat split; try assumption; try lia.
  intros k Hk Hk0 Hk1.
  exact (flip_unique p lo hi k j Hmono Hk ltac:(lia) Hk0 Hk1 Hj0 Hj1).
Qed.

Lemma binary_search_monotone_witness :
  binary_search (pure_pred (fun j => 7 <? j)) 0 100 = Ok (Some 8) /\
  exists j, binary_search (pure_pred (fun j => 7 <? j)) 0 100 = Ok (Some j) /\
            0 < j <= 100 /\ (7 <? j - 1) = false /\ (7 <? j) = true /\
            forall k, 0 < k <= 100 -> (7 <? k - 1) = false ->
                      (7 <? k) = true -> k = j.
Proof.
  split; [reflexivity |].
  apply (binary_search_monotone (fun j => 7 <? j) 0 100).
  - lia.
  - intros x y _ Hxy _ Hx. apply Z.ltb_lt in Hx. apply Z.ltb_lt. lia.
  - reflexivity.
  - reflexivity.
Defined.

(** ** Sampler: the boundary array *)

Lemma len_nonneg {A} (l : list A) : 0 <= len l.
Proof. unfold len. lia. Qed.

Lemma boundaries_fold (cs : list chunk) (bs : list Z) (b : Z) :
  fold_left (fun bs c => bs ++ [last bs 0 + len c]) cs (bs ++ [b])
  = bs ++ offsets_from b cs.
Proof.
  revert bs b. induction cs as [| c cs IH]; intros bs b; cbn.
  - reflexivity.
  - rewrite last_last, IH, <- app_assoc. reflexivity.
Qed.

Lemma boundaries_init (cs : list chunk) :
  boundaries (Sampler_init cs) = offsets_from 0 cs.
Proof. exact (boundaries_fold cs [] 0). Qed.

Lemma offsets_length (cs : list chunk) (b : Z) :
  List.length (offsets_from b cs) = S (List.length cs).
Proof. revert b. induction cs; intros b; cbn; [| rewrite IHcs]; reflexivity. Qed.

Lemma offsets_head (cs : list chunk) (b : Z) :
  nth 0 (offsets_from b cs) 0 = b.
Proof. destruct cs; reflexivity. Qed.

Lemma offsets_step (cs : list chunk) (b : Z) (i : nat) :
  (i < List.length cs)%nat ->
  nth (S i) (offsets_from b cs) 0
  = nth i (offsets_from b cs) 0 + len (nth i cs []).
Proof.
  revert b i. induction cs as [| c cs IH]; intros b i Hi; cbn in Hi.
  - lia.
  - destruct i as [| i].
    + cbn. destruct cs; reflexivity.
    + change (nth (S i) (offsets_from (b + len c) cs) 0
              = nth i (offsets_from (b + len c) cs) 0 + len (nth i cs [])).
      apply IH. lia.
Qed.

Lemma offsets_mono (cs : list chunk) (b : Z) (i k : nat) :
  (i <= k <= List.length cs)%nat ->
  nth i (offsets_from b cs) 0 <= nth k (offsets_from b cs) 0.
Proof.
  intros [Hik Hk]. induction k as [| k IH].
  - assert (i = 0)%nat as -> by lia. lia.
  - destruct (Nat.eq_dec i (S k)) as [-> | Hne]; [lia |].
    rewrite offsets_step by lia.
    pose proof (len_nonneg (nth k cs [])).
    specialize (IH ltac:(lia) ltac:(lia)). lia.
Qed.

Lemma total_fold (cs : list chunk) (b : Z) :
  nth (List.length cs) (offsets_from b cs) 0
  = fold_left (fun acc c => acc + len c) cs b.
Proof.
  revert b. induction cs as [| c cs IH]; intros b; cbn; [reflexivity |].
  apply IH.
Qed.

Lemma total_size_init (cs : list chunk) :
  total_size (Sampler_init cs)
  = nth (List.length cs) (boundaries (Sampler_init cs)) 0.
Proof. rewrite boundaries_init, total_fold. reflexivity. Qed.

(** ** Python indexing and slicing inside the bounds *)

Lemma getitem_inside {A} (l : list A) (j : Z) (d : A) :
  0 <= j < len l -> getitem l j = Ok (nth (Z.to_nat j) l d).
Proof.
  intros Hj. unfold getitem.
  destruct (j <? 0) eqn:Hneg; [apply Z.ltb_lt in Hneg; lia |].
  replace ((0 <=? j) && (j <? len l)) with true
    by (symmetry; apply andb_true_iff; split;
        [apply Z.leb_le | apply Z.ltb_lt]; lia).
  unfold len in Hj.
  destruct (nth_error l (Z.to_nat j)) as [a |] eqn:Hnth.
  - rewrite (nth_error_nth l _ d Hnth). reflexivity.
  - apply nth_error_None in Hnth. lia.
Qed.

Lemma slice_inside {A} (l : list A) (off n : Z) :
  0 <= off -> 0 <= n -> off + n <= len l ->
  slice l off (off + n) = firstn (Z.to_nat n) (skipn (Z.to_nat off) l) /\
  len (slice l off (off + n)) = n.
Proof.
  intros Hoff Hn Hfit. unfold slice, clamp.
  destruct (off <? 0) eqn:H1; [apply Z.ltb_lt in H1; lia |].
  destruct (off + n <? 0) eqn:H2; [apply Z.ltb_lt in H2; lia |].
  rewrite !Z.min_l by lia.
  replace (off + n - off) with n by lia. split; [reflexivity |].
  unfold len in *. rewrite length_firstn, length_skipn. lia.
Qed.

(** ** Sampler.sample: one drawn index *)

Section Attempt.
Variable cs : list chunk.
Let s := Sampler_init cs.
Let bs := boundaries s.

Lemma boundaries_len : len bs = Z.of_nat (List.length cs) + 1.
Proof.
  unfold bs, s, len. rewrite boundaries_init, offsets_length. lia.
Qed.

(** The chunk that holds position [index] of the concatenated corpus,
    as the search over the boundaries finds it. *)
Lemma locate_inside (index : Z) :
  0 <= index < total_size s ->
  exists (i : nat) (c : chunk) (o : Z),
    nth_error cs i = Some c /\
    nth i bs 0 = o /\ nth (S i) bs 0 = o + len c /\
    o <= index < o + len c /\
    (forall k, (k <= i)%nat -> nth k bs 0 <= index) /\
    binary_search
      (fun j => b <- getitem bs j ;; Ok (b >? index)) 0 (len bs - 1)
    = Ok (Some (Z.of_nat (S i))).
Proof.
  intros Hidx.
  pose (p := fun j : Z => nth (Z.to_nat j) bs 0 >? index).
  pose proof boundaries_len as Hlen.
  destruct (binary_search_spec
              (fun j => b <- getitem bs j ;; Ok (b >? index)) p
              0 (len bs - 1)) as [_ Hsome].
  { intros j Hj. rewrite (getitem_inside bs j 0) by lia. reflexivity. }
  { lia. }
  destruct Hsome as (r & Hr & Hb & Hp0 & Hp1).
  { unfold p. change (Z.to_nat 0) with 0%nat.
    unfold bs, s. rewrite boundaries_init, offsets_head.
    rewrite Z.gtb_ltb. apply Z.ltb_ge. lia. }
  { unfold p. rewrite Hlen.
    replace (Z.to_nat (Z.of_nat (List.length cs) + 1 - 1))
      with (List.length cs) by lia.
    unfold bs. rewrite <- total_size_init. fold s.
    rewrite Z.gtb_ltb. apply Z.ltb_lt. lia. }
  unfold p in Hp0, Hp1.
  rewrite Z.gtb_ltb in Hp0, Hp1.
  apply Z.ltb_ge in Hp0. apply Z.ltb_lt in Hp1.
  set (i := Z.to_nat (r - 1)) in *.
  assert (Hi : (i < List.length cs)%nat) by lia.
  assert (Hri : r = Z.of_nat (S i)) by lia.
  replace (Z.to_nat r) with (S i) in Hp1 by lia.
  destruct (nth_error cs i) as [c |] eqn:Hc;
    [| apply nth_error_None in Hc; lia].
  assert (Hstep : nth (S i) bs 0 = nth i bs 0 + len c).
  { unfold bs, s. rewrite boundaries_init, offsets_step by exact Hi.
    rewrite (nth_error_nth cs i [] Hc). reflexivity. }
  exists i, c, (nth i bs 0). repeat split; try assumption; try lia.
  - intros k Hk. unfold bs, s in *. rewrite boundaries_init in *.
    pose proof (offsets_mono cs 0 k i ltac:(lia)). lia.
  - rewrite Hr, Hri. reflexivity.
Qed.

(** What one pass of the rejection loop does with an index inside the
    corpus: it accepts exactly when the next boundary lies strictly
    beyond the window, and then returns the window cut from the chunk
    that holds [index]. *)
Lemma sample_attempt_inside (length index : Z) :
  0 <= index < total_size s ->
  exists (i : nat) (c : chunk) (o : Z),
    nth_error cs i = Some c /\
    nth i bs 0 = o /\ nth (S i) bs 0 = o + len c /\
    o <= index < o + len c /\
    (forall k, (k <= i)%nat -> nth k bs 0 <= index) /\
    sample_attempt s length index
    = Ok (if o + len c >? index + length
          then Some (slice c (index - o) (index - o + length))
          else None).
Proof.
  intros Hidx.
  destruct (locate_inside index Hidx)
    as (i & c & o & Hc & Ho & Hnext & Hin & Hmin & Hbs).
  exists i, c, o. repeat split; try assumption; try lia.
  pose proof boundaries_len as Hlen.
  assert (Hi : (i < List.length cs)%nat)
    by (apply nth_error_Some; congruence).
  unfold sample_attempt. fold bs. rewrite Hbs. cbn [bind].
  replace (Z.of_nat (S i) - 1 + 1) with (Z.of_nat (S i)) by lia.
  rewrite (getitem_inside bs (Z.of_nat (S i)) 0) by lia.
  rewrite Nat2Z.id, Hnext. cbn [bind].
  destruct (o + len c >? index + length); [| reflexivity].
  replace (Z.of_nat (S i) - 1) with (Z.of_nat i) by lia.
  rewrite (getitem_inside bs (Z.of_nat i) 0) by lia.
  rewrite Nat2Z.id, Ho. cbn [bind].
  rewrite (getitem_inside (chunks s) (Z.of_nat i) []) by (unfold len; cbn; lia).
  rewrite Nat2Z.id. cbn [bind chunks s Sampler_init].
  rewrite (nth_error_nth cs i [] Hc). reflexivity.
Qed.

(** An index outside the corpus makes the search give [None], and the
    subtraction that follows raises TypeError. *)
Lemma sample_attempt_outside (length index : Z) :
  index < 0 \/ total_size s <= index ->
  sample_attempt s length index = Raise TypeError.
Proof.
  intros Hout.
  pose (p := fun j : Z => nth (Z.to_nat j) bs 0 >? index).
  pose proof boundaries_len as Hlen.
  destruct (binary_search_spec
              (fun j => b <- getitem bs j ;; Ok (b >? index)) p
              0 (len bs - 1)) as [Hnone _].
  { intros j Hj. rewrite (getitem_inside bs j 0) by lia. reflexivity. }
  { lia. }
  unfold sample_attempt. fold bs. rewrite Hnone; [reflexivity |].
  unfold p. destruct Hout as [Hneg | Hbig].
  - left. change (Z.to_nat 0) with 0%nat.
    unfold bs, s. rewrite boundaries_init, offsets_head.
    rewrite Z.gtb_ltb. apply Z.ltb_lt. lia.
  - right. rewrite Hlen.
    replace (Z.to_nat (Z.of_nat (List.length cs) + 1 - 1))
      with (List.length cs) by lia.
    unfold bs. rewrite <- total_size_init. fold s.
    rewrite Z.gtb_ltb. apply Z.ltb_ge. lia.
Qed.

End Attempt.

(** C10.  For a sampler built by the constructor and a drawn index in
    [0, total_size - length - 1] with [length >= 0], the boundary
    predicate is false at index 0 and true at the last boundary, the
    binary search returns an index [j] and never [None], and with
    [i = j - 1] the accesses [boundaries[i]], [boundaries[i + 1]] and
    [chunks[i]] are in range. *)
Theorem sample_search_in_range (cs : list chunk) (length index : Z) :
  let s := Sampler_init cs in
  let bs := boundaries s in
  let pred := fun j => b <- getitem bs j ;; Ok (b >? index) in
  0 <= length ->
  0 <= index <= total_size s - length - 1 ->
  pred 0 = Ok false /\
  pred (len bs - 1) = Ok true /\
  exists j, binary_search pred 0 (len bs - 1) = Ok (Some j) /\
            0 <= j - 1 /\ j - 1 + 1 < len bs /\ j - 1 < len (chunks s) /\
            (exists b0, getitem bs (j - 1) = Ok b0) /\
            (exists b1, getitem bs (j - 1 + 1) = Ok b1) /\
            (exists c, getitem (chunks s) (j - 1) = Ok c).
Proof.
  intros s bs pred Hlen Hidx.
  pose proof (boundaries_len cs) as Hbl. fold s bs in Hbl.
  destruct (locate_inside cs index ltac:(fold s; lia))
    as (i & c & o & Hc & Ho & Hnext & Hin & Hmin & Hbs).
  assert (Hi : (i < List.length cs)%nat)
    by (apply nth_error_Some; congruence).
  split; [| split].
  - unfold pred. rewrite (getitem_inside bs 0 0) by lia.
    change (Z.to_nat 0) with 0%nat. unfold bs, s.
    rewrite boundaries_init, offsets_head. cbn [bind]. f_equal.
    rewrite Z.gtb_ltb. apply Z.ltb_ge. lia.
  - unfold pred. rewrite (getitem_inside bs (len bs - 1) 0) by lia.
    rewrite Hbl.
    replace (Z.to_nat (Z.of_nat (List.length cs) + 1 - 1))
      with (List.length cs) by lia.
    unfold bs. rewrite <- total_size_init. fold s. cbn [bind]. f_equal.
    rewrite Z.gtb_ltb. apply Z.ltb_lt. lia.
  - exists (Z.of_nat (S i)). split; [exact Hbs |].
    assert (Hcl : len (chunks s) = Z.of_nat (List.length cs)) by reflexivity.
    repeat split; try lia.
    + exists (nth (Z.to_nat (Z.of_nat (S i) - 1)) bs 0).
      apply getitem_inside. lia.
    + exists (nth (Z.to_nat (Z.of_nat (S i) - 1 + 1)) bs 0).
      apply getitem_inside. lia.
    + exists (nth (Z.to_nat (Z.of_nat (S i) - 1)) (chunks s) []).
      apply getitem_inside. lia.
Qed.

Lemma sample_search_in_range_witness :
  exists j,
    binary_search
      (fun j => b <- getitem (boundaries (Sampler_init three_chunks)) j ;;
                Ok (b >? 12))
      0 (len (boundaries (Sampler_init three_chunks)) - 1) = Ok (Some j) /\
    0 <= j - 1 /\ j - 1 + 1 < len (boundaries (Sampler_init three_chunks)).
Proof.
  destruct (sample_search_in_range three_chunks 3 12)
    as (_ & _ & j & Hj & Hlo & Hhi & _).
  - lia.
  - vm_compute. split; discriminate.
  - exists j. auto.
Defined.

(** ** Sampler.sample: acceptance rule *)

(** The fate of a drawn index, read off the smallest boundary [j]
    beyond it. *)
Lemma sample_attempt_by_boundary
        (cs : list chunk) (length index : Z) (j : nat) (tape : list Z) :
  let s := Sampler_init cs in
  let bs := boundaries s in
  0 <= length ->
  0 <= index <= total_size s - length - 1 ->
  (j < List.length bs)%nat ->
  nth j bs 0 > index ->
  (forall k, (k < j)%nat -> nth k bs 0 <= index) ->
  (nth j bs 0 > index + length ->
   exists c, nth_error cs (j - 1) = Some c /\
     let within_chunk := index - nth (j - 1) bs 0 in
     sample_attempt s length index
       = Ok (Some (slice c within_chunk (within_chunk + length))) /\
     sample_loop s length (index :: tape)
       = (Returned (slice c within_chunk (within_chunk + length)), tape)) /\
  (nth j bs 0 <= index + length ->
   sample_attempt s length index = Ok None /\
   sample_loop s length (index :: tape) = sample_loop s length tape).
Proof.
  intros s bs Hlen Hidx Hj Hgt Hmin.
  destruct (sample_attempt_inside cs length index ltac:(fold s; lia))
    as (i & c & o & Hc & Ho & Hnext & Hin & Hle & Hatt).
  fold s bs in Ho, Hnext, Hle, Hatt.
  assert (Hji : j = S i).
  { destruct (Nat.lt_trichotomy j (S i)) as [Hlt | [Heq | Hgt']].
    - specialize (Hle j ltac:(lia)). lia.
    - exact Heq.
    - specialize (Hmin (S i) Hgt'). lia. }
  subst j. replace (S i - 1)%nat with i by lia.
  rewrite Hnext in *. rewrite Ho.
  assert (Hrange : (0 >? total_size s - length - 1) = false)
    by (rewrite Z.gtb_ltb; apply Z.ltb_ge; lia).
  split; intros Hcmp.
  - exists c. split; [exact Hc |].
    assert (Hb : (o + len c >? index + length) = true)
      by (rewrite Z.gtb_ltb; apply Z.ltb_lt; lia).
    rewrite Hb in Hatt. cbn zeta. split; [exact Hatt |].
    cbn [sample_loop]. rewrite Hrange, Hatt. reflexivity.
  - assert (Hb : (o + len c >? index + length) = false)
      by (rewrite Z.gtb_ltb; apply Z.ltb_ge; lia).
    rewrite Hb in Hatt. split; [exact Hatt |].
    cbn [sample_loop]. rewrite Hrange, Hatt. reflexivity.
Qed.

(** C2, as stated, fails: with chunks of sizes 10, 10, 10, [length = 3]
    and drawn index 7 the smallest boundary beyond the index is
    [boundaries[1] = 10 >= 7 + 3], yet the index is rejected. *)
Lemma accepts_when_window_fits_counterexample : ~ accepts_when_window_fits.
Proof.
  intros Hclaim.
  destruct (Hclaim three_chunks 3 7 1%nat) as [Hacc _].
  - lia.
  - vm_compute. split; discriminate.
  - vm_compute. lia.
  - vm_compute. reflexivity.
  - intros k Hk. assert (k = 0)%nat as -> by lia. vm_compute. discriminate.
  - destruct Hacc as [w Hw].
    + vm_compute. discriminate.
    + vm_compute in Hw. discriminate.
Qed.

(** C2, amended.  A drawn index is accepted exactly when
    [boundaries[j] > index + length], strictly, where [j] is the smallest
    boundary index with [boundaries[j] > index]: such an index ends the
    rejection loop, which returns its slice; an index with
    [boundaries[j] <= index + length] is rejected and the next one is
    drawn. *)
Theorem sample_accepts_iff_strict
        (cs : list chunk) (length index : Z) (j : nat) (tape : list Z) :
  let s := Sampler_init cs in
  let bs := boundaries s in
  0 <= length ->
  0 <= index <= total_size s - length - 1 ->
  (j < List.length bs)%nat ->
  nth j bs 0 > index ->
  (forall k, (k < j)%nat -> nth k bs 0 <= index) ->
  (nth j bs 0 > index + length ->
   exists c, nth_error cs (j - 1) = Some c /\
     let within_chunk := index - nth (j - 1) bs 0 in
     sample_attempt s length index
       = Ok (Some (slice c within_chunk (within_chunk + length))) /\
     sample_loop s length (index :: tape)
       = (Returned (slice c within_chunk (within_chunk + length)), tape)) /\
  (nth j bs 0 <= index + length ->
   sample_attempt s length index = Ok None /\
   sample_loop s length (index :: tape) = sample_loop s length tape).
Proof.
  intros s bs Hlen Hidx Hj Hgt Hmin.
  exact (sample_attempt_by_boundary cs length index j tape
           Hlen Hidx Hj Hgt Hmin).
Qed.

Lemma sample_accepts_iff_strict_witness :
  sample_attempt (Sampler_init three_chunks) 3 7 = Ok None /\
  sample_loop (Sampler_init three_chunks) 3 [7; 12]
  = sample_loop (Sampler_init three_chunks) 3 [12].
Proof.
  destruct (sample_accepts_iff_strict three_chunks 3 7 1%nat [12])
    as [_ Hrej].
  - lia.
  - vm_compute. split; discriminate.
  - vm_compute. lia.
  - vm_compute. reflexivity.
  - intros k Hk. assert (k = 0)%nat as -> by lia. vm_compute. discriminate.
  - apply Hrej. vm_compute. discriminate.
Defined.

(** ** Sampler.sample: what is returned, and when it refuses *)

(** Every pass of the loop either rejects, returns a window of one chunk,
    or raises TypeError. *)
Lemma sample_attempt_cases (cs : list chunk) (length index : Z) :
  0 <= length ->
  sample_attempt (Sampler_init cs) length index = Ok None \/
  sample_attempt (Sampler_init cs) length index = Raise TypeError \/
  exists w, sample_attempt (Sampler_init cs) length index = Ok (Some w) /\
            window_of cs length w.
Proof.
  intros Hlen.
  destruct (Z_lt_dec index 0) as [Hneg | Hnn].
  { right; left. apply sample_attempt_outside. lia. }
  destruct (Z_le_dec (total_size (Sampler_init cs)) index) as [Hbig | Hin].
  { right; left. apply sample_attempt_outside. lia. }
  destruct (sample_attempt_inside cs length index ltac:(lia))
    as (i & c & o & Hc & Ho & Hnext & Hio & _ & Hatt).
  rewrite Hatt.
  destruct (o + len c >? index + length) eqn:Hcmp; [| left; reflexivity].
  right; right. rewrite Z.gtb_ltb in Hcmp. apply Z.ltb_lt in Hcmp.
  destruct (slice_inside c (index - o) length) as [Hs Hl]; try lia.
  eexists. split; [reflexivity |].
  exists i, c, (index - o). repeat split; try assumption; lia.
Qed.

Lemma sample_loop_returns (cs : list chunk) (length : Z) (tape : list Z)
      (w : chunk) (rest : list Z) :
  0 <= length ->
  sample_loop (Sampler_init cs) length tape = (Returned w, rest) ->
  window_of cs length w.
Proof.
  intros Hlen. induction tape as [| index tape IH]; cbn [sample_loop].
  - destruct (0 >? _); discriminate.
  - destruct (0 >? _); [discriminate |].
    destruct (sample_attempt_cases cs length index Hlen)
      as [-> | [-> | (w' & -> & Hw)]].
    + exact IH.
    + discriminate.
    + intros [= <- _]. exact Hw.
Qed.

(** No pass of the loop raises AssertionError, whatever the length. *)
Lemma sample_attempt_no_assertion (cs : list chunk) (length index : Z)
      (msg : string) :
  sample_attempt (Sampler_init cs) length index
  <> Raise (AssertionError msg).
Proof.
  destruct (Z_lt_dec index 0) as [Hneg | Hnn].
  { rewrite sample_attempt_outside by lia. discriminate. }
  destruct (Z_le_dec (total_size (Sampler_init cs)) index) as [Hbig | Hin].
  { rewrite sample_attempt_outside by lia. discriminate. }
  destruct (sample_attempt_inside cs length index ltac:(lia))
    as (i & c & o & _ & _ & _ & _ & _ & ->).
  discriminate.
Qed.

Lemma sample_loop_no_assertion (cs : list chunk) (length : Z)
      (tape : list Z) (msg : string) (rest : list Z) :
  sample_loop (Sampler_init cs) length tape
  <> (Raised (AssertionError msg), rest).
Proof.
  induction tape as [| index tape IH]; cbn [sample_loop].
  - destruct (0 >? _); discriminate.
  - destruct (0 >? _); [discriminate |].
    pose proof (sample_attempt_no_assertion cs length index) as Hna.
    destruct (sample_attempt _ _ _) as [[w |] | e].
    + discriminate.
    + exact IH.
    + intros [= -> _]. exact (Hna msg eq_refl).
Qed.

(** C6.  For a sampler over any corpus and any [length >= 0], a value
    returned by [sample(length)] is a contiguous run of exactly [length]
    tokens of a single chunk. *)
Theorem sample_within_one_chunk
        (cs : list chunk) (length : Z) (tape : list Z)
        (w : chunk) (rest : list Z) :
  0 <= length ->
  sample (Sampler_init cs) length tape = (Returned w, rest) ->
  exists (i : nat) (c : chunk) (off : Z),
    nth_error cs i = Some c /\
    0 <= off /\ off + length <= len c /\
    w = firstn (Z.to_nat length) (skipn (Z.to_nat off) c) /\
    len w = length.
Proof.
  intros Hlen. unfold sample.
  destruct (floordiv _ _) as [avg | e]; [| discriminate].
  destruct (length <? avg); [| discriminate].
  intros Hret. exact (sample_loop_returns cs length tape w rest Hlen Hret).
Qed.

Lemma sample_within_one_chunk_witness :
  sample (Sampler_init three_chunks) 3 [7; 8; 12; 0]
  = (Returned [13; 14; 15], [0]) /\
  exists (i : nat) (c : chunk) (off : Z),
    nth_error three_chunks i = Some c /\
    0 <= off /\ off + 3 <= len c /\
    [13; 14; 15] = firstn (Z.to_nat 3) (skipn (Z.to_nat off) c) /\
    len [13; 14; 15] = 3.
Proof.
  split; [reflexivity |].
  apply (sample_within_one_chunk three_chunks 3 [7; 8; 12; 0]
           [13; 14; 15] [0]).
  - lia.
  - reflexivity.
Defined.

(** C9.  For a sampler over a nonempty chunk list, [sample(length)] fails
    with the AssertionError that names [length], leaving the random tape
    untouched, when [length] is not strictly below
    [total_size // len(chunks)]; when it is strictly below, that error is
    not raised. *)
Theorem sample_precondition (cs : list chunk) (length : Z) (tape : list Z) :
  cs <> [] ->
  let s := Sampler_init cs in
  (~ length < total_size s / len (chunks s) ->
   sample s length tape
   = (Raised (AssertionError (too_small_msg length)), tape)) /\
  (length < total_size s / len (chunks s) ->
   forall msg rest,
     sample s length tape <> (Raised (AssertionError msg), rest)).
Proof.
  intros Hne s. unfold sample, floordiv.
  assert (Hn : (len (chunks s) =? 0) = false).
  { apply Z.eqb_neq. unfold len, s. cbn. destruct cs; [congruence | cbn; lia]. }
  rewrite Hn. split; intros Hcmp.
  - replace (length <? total_size s / len (chunks s)) with false
      by (symmetry; apply Z.ltb_ge; lia).
    reflexivity.
  - replace (length <? total_size s / len (chunks s)) with true
      by (symmetry; apply Z.ltb_lt; lia).
    intros msg rest. apply sample_loop_no_assertion.
Qed.

Lemma sample_precondition_witness :
  sample (Sampler_init three_chunks) 10 [7; 8; 12; 0]
  = (Raised (AssertionError
               "Dataset files are too small to sample 10 tokens at a time"),
     [7; 8; 12; 0]) /\
  forall msg rest,
    sample (Sampler_init three_chunks) 9 [7; 8; 12; 0]
    <> (Raised (AssertionError msg), rest).
Proof.
  split.
  - apply (sample_precondition three_chunks 10 [7; 8; 12; 0]).
    + discriminate.
    + vm_compute. discriminate.
  - apply (sample_precondition three_chunks 9 [7; 8; 12; 0]).
    + discriminate.
    + vm_compute. reflexivity.
Defined.

(** ** Sampler.sample: the rejection loop can end *)

Lemma total_bound (cs : list chunk) (L b : Z) :
  Forall (fun c => len c <= L) cs ->
  fold_left (fun acc c => acc + len c) cs b
  <= b + Z.of_nat (List.length cs) * L.
Proof.
  intros Hall. revert b. induction Hall as [| c cs Hc Hall IH]; intros b.
  - cbn. lia.
  - cbn [fold_left List.length]. specialize (IH (b + len c)). lia.
Qed.

(** Under the precondition of [sample] some chunk is longer than
    [length]. *)
Lemma long_chunk_exists (cs : list chunk) (length : Z) :
  cs <> [] ->
  length < total_size (Sampler_init cs) / len cs ->
  exists (i : nat) (c : chunk), nth_error cs i = Some c /\ length < len c.
Proof.
  intros Hne Hpre.
  destruct (Forall_Exists_dec (fun c : chunk => len c <= length)
              (fun c => Z_le_dec (len c) length) cs) as [Hall | Hex].
  - exfalso. pose proof (total_bound cs length 0 Hall) as Hb.
    assert (Hn : 0 < len cs) by (unfold len; destruct cs; [congruence | cbn; lia]).
    assert (total_size (Sampler_init cs) / len cs <= length).
    { apply Z.div_le_upper_bound; [exact Hn |].
      cbn [total_size Sampler_init]. unfold len in *. lia. }
    lia.
  - apply Exists_exists in Hex as (c & Hin & Hlong).
    apply In_nth_error in Hin as [i Hi]. exists i, c. split; [exact Hi | lia].
Qed.

(** X8.  Whenever the precondition holds there is a draw inside the range
    of [random.randint] on which [sample] returns at once: the rejection
    loop is never stuck rejecting every possible draw. *)
Lemma sample_can_return (cs : list chunk) (length : Z) :
  let s := Sampler_init cs in
  cs <> [] -> 0 <= length ->
  length < total_size s / len (chunks s) ->
  exists (index : Z) (w : chunk),
    0 <= index <= total_size s - length - 1 /\
    window_of cs length w /\
    forall tape, sample s length (index :: tape) = (Returned w, tape).
Proof.
  intros s Hne Hlen Hpre.
  destruct (long_chunk_exists cs length Hne Hpre) as (i & c & Hc & Hlong).
  assert (Hi : (i < List.length cs)%nat)
    by (apply nth_error_Some; congruence).
  set (bs := boundaries s).
  assert (Hbs : bs = offsets_from 0 cs) by apply boundaries_init.
  assert (Hnext : nth (S i) bs 0 = nth i bs 0 + len c).
  { rewrite Hbs, offsets_step by exact Hi.
    rewrite (nth_error_nth cs i [] Hc). reflexivity. }
  assert (Hlo : 0 <= nth i bs 0).
  { pose proof (offsets_mono cs 0 0 i ltac:(lia)) as Hm.
    rewrite offsets_head in Hm. rewrite Hbs. exact Hm. }
  assert (Hhi : nth (S i) bs 0 <= total_size s).
  { unfold s. rewrite total_size_init, boundaries_init. fold s.
    rewrite Hbs. apply offsets_mono. lia. }
  assert (Hrange : 0 <= nth i bs 0 <= total_size s - length - 1) by lia.
  destruct (sample_attempt_by_boundary cs length (nth i bs 0) (S i) []
              Hlen Hrange) as [Hacc _].
  { rewrite boundaries_init, offsets_length. lia. }
  { fold s bs. lia. }
  { intros k Hk. fold s bs. rewrite Hbs. apply offsets_mono. lia. }
  fold s bs in Hacc. destruct (Hacc ltac:(lia)) as (c' & _ & Hatt & _).
  cbn zeta in Hatt.
  match type of Hatt with _ = Ok (Some ?x) => set (w := x) in * end.
  exists (nth i bs 0), w. split; [exact Hrange |].
  assert (Hloop : forall tape,
             sample_loop s length (nth i bs 0 :: tape) = (Returned w, tape)).
  { intros tape. cbn [sample_loop].
    replace (0 >? total_size s - length - 1) with false
      by (symmetry; rewrite Z.gtb_ltb; apply Z.ltb_ge; lia).
    rewrite Hatt. reflexivity. }
  split.
  - exact (sample_loop_returns cs length _ _ _ Hlen (Hloop [])).
  - intros tape. unfold sample, floordiv.
    replace (len (chunks s) =? 0) with false
      by (symmetry; apply Z.eqb_neq; unfold len, s; cbn;
          destruct cs; [congruence | cbn; lia]).
    replace (length <? total_size s / len (chunks s)) with true
      by (symmetry; apply Z.ltb_lt; lia).
    apply Hloop.
Qed.

(** ** The training loop *)

Section TrainingLoop.
Import Train.
Context {F : Type} `{FloatOps F}.

Lemma train_loop_unfold (cfg : config) (m : model) (every : Z) (s : state) :
  train_loop cfg m every s =
  if counter s <? stop_after cfg then
    match iteration cfg m every s with
    | Ok s' => train_loop cfg m every s'
    | Raise e => Raise e
    end
  else Ok s.
Proof.
  rewrite train_loop_equation_1.
  destruct (Z_lt_dec (counter s) (stop_after cfg)) as [Hlt | Hge]; cbn.
  - replace (counter s <? stop_after cfg) with true
      by (symmetry; apply Z.ltb_lt; lia).
    destruct (iteration cfg m every s); reflexivity.
  - replace (counter s <? stop_after cfg) with false
      by (symmetry; apply Z.ltb_ge; lia).
    reflexivity.
Qed.

(** What one completed iteration does to the loop variables and to the
    trace. *)
Lemma iteration_inv (cfg : config) (m : model) (every : Z) (s s' : state) :
  iteration cfg m every s = Ok s' ->
  let c := counter s in
  let av := av_val_loss_of m s in
  let due := decision_due every c in
  let improved := flt av (best_val_loss s) in
  missed_val_checkpoints s'
  = (if due then if improved then 0 else missed_val_checkpoints s + 1
     else missed_val_checkpoints s) /\
  best_val_loss s' = (if due && improved then av else best_val_loss s) /\
  saves (trace s')
  = saves (trace s) ++ (if due && improved then [Save c] else []) /\
  train_steps (trace s') = train_steps (trace s) ++ [TrainStep c] /\
  counter s'
  = (if (c mod 5 =? 0) && (missed_val_checkpoints s' >? 9)
     then stop_after cfg + 1 else c) + 1.
Proof.
  intros Hit c av due improved.
  unfold iteration, samples_step, mod_ in Hit.
  destruct (sample_every cfg =? 0); [discriminate |].
  cbn [bind] in Hit.
  subst c av due improved. unfold decision_due, av_val_loss_of.
  unfold validation_step, at_cadence, mod_ in Hit.
  destruct (counter s mod sample_every cfg =? 0);
    cbn [counter emit train_step val_loss best_val_loss
         missed_val_checkpoints trace] in Hit;
    (destruct (counter s mod 5 =? 0);
     [ destruct (counter s >=? every);
       [ destruct (every =? 0); [discriminate |];
         cbn [bind] in Hit;
         destruct (counter s mod every =? 0) |];
       cbn [bind] in Hit;
       unfold checkpoint_decision, early_stop_check in Hit;
       cbn [counter emit train_step val_loss best_val_loss
            missed_val_checkpoints trace] in Hit;
       try destruct (flt _ (best_val_loss s));
       cbn [counter emit train_step val_loss best_val_loss
            missed_val_checkpoints trace] in Hit;
       match type of Hit with
       | context [if ?b then _ else _] => destruct b eqn:Hstop
       end
     | cbn [bind] in Hit ];
     injection Hit as <-;
     cbn [counter emit advance train_step val_loss best_val_loss
          missed_val_checkpoints trace andb];
     rewrite ?Hstop; unfold saves, train_steps;
     rewrite ?filter_app; cbn [filter is_save is_train_step];
     rewrite ?app_nil_r; repeat split; reflexivity).
Qed.

Lemma decision_due_iff (every c : Z) :
  0 < every ->
  decision_due every c = true <->
  c mod 5 = 0 /\ exists k, 0 < k /\ c = k * every.
Proof.
  intros Hpos. unfold decision_due.
  rewrite !andb_true_iff, !Z.eqb_eq, Z.geb_le. split.
  - intros [[H5 Hge] Hmod]. split; [exact H5 |].
    exists (c / every). pose proof (Z.div_mod c every ltac:(lia)) as Hdm.
    rewrite Hmod in Hdm. split; [| lia].
    apply Z.div_str_pos. lia.
  - intros [H5 (k & Hk & ->)]. repeat split; [exact H5 | nia |].
    apply Z.mod_mul. lia.
Qed.

(** The checkpoint decision of a loop that tests [counter] against
    [every]: it is taken exactly on the validation iterations whose
    counter is a positive multiple of [every]. *)
Lemma checkpoint_cadence (cfg : config) (m : model) (every : Z)
      (s s' : state) :
  0 < every ->
  iteration cfg m every s = Ok s' ->
  let c := counter s in
  let av := av_val_loss_of m s in
  let on_cadence := c mod 5 = 0 /\ exists k, 0 < k /\ c = k * every in
  (on_cadence -> flt av (best_val_loss s) = true ->
   saves (trace s') = saves (trace s) ++ [Save c] /\
   missed_val_checkpoints s' = 0 /\ best_val_loss s' = av) /\
  (on_cadence -> flt av (best_val_loss s) = false ->
   saves (trace s') = saves (trace s) /\
   missed_val_checkpoints s' = missed_val_checkpoints s + 1 /\
   best_val_loss s' = best_val_loss s) /\
  (~ on_cadence ->
   saves (trace s') = saves (trace s) /\
   missed_val_checkpoints s' = missed_val_checkpoints s /\
   best_val_loss s' = best_val_loss s).
Proof.
  intros Hpos Hit c av on_cadence.
  destruct (iteration_inv cfg m every s s' Hit)
    as (Hmissed & Hbest & Hsaves & _ & _).
  fold c av in Hmissed, Hbest, Hsaves.
  pose proof (decision_due_iff every c Hpos) as Hdue.
  fold on_cadence in Hdue.
  destruct (decision_due every c).
  - repeat split; intros; try tauto;
      match goal with
      | Hf : flt _ _ = _ |- _ =>
          rewrite Hf in Hmissed, Hbest, Hsaves; cbn [andb] in *
      | Hn : ~ on_cadence |- _ => exfalso; apply Hn, Hdue; reflexivity
      end; rewrite ?app_nil_r in Hsaves; assumption.
  - assert (~ on_cadence) by (intros Hc; apply Hdue in Hc; discriminate).
    cbn [andb] in *. rewrite app_nil_r in Hsaves.
    repeat split; intros; try tauto.
Qed.

(** In [trainval_adafactor.py] the cadence is the [save_every]
    argument. *)
Lemma adafactor_checkpoint_cadence (cfg : config) (m : model)
      (s s' : state) :
  0 < save_every cfg ->
  iteration cfg m (save_every cfg) s = Ok s' ->
  let c := counter s in
  let av := av_val_loss_of m s in
  let on_cadence :=
    c mod 5 = 0 /\ exists k, 0 < k /\ c = k * save_every cfg in
  (on_cadence -> flt av (best_val_loss s) = true ->
   saves (trace s') = saves (trace s) ++ [Save c] /\
   missed_val_checkpoints s' = 0 /\ best_val_loss s' = av) /\
  (on_cadence -> flt av (best_val_loss s) = false ->
   saves (trace s') = saves (trace s) /\
   missed_val_checkpoints s' = missed_val_checkpoints s + 1 /\
   best_val_loss s' = best_val_loss s) /\
  (~ on_cadence ->
   saves (trace s') = saves (trace s) /\
   missed_val_checkpoints s' = missed_val_checkpoints s /\
   best_val_loss s' = best_val_loss s).
Proof. intros Hpos Hit. exact (checkpoint_cadence cfg m _ s s' Hpos Hit). Qed.

(** In [trainval.py] the cadence is 100 whatever [save_every] is. *)
Lemma trainval_checkpoint_cadence (cfg : config) (m : model)
      (s s' : state) :
  iteration cfg m 100 s = Ok s' ->
  let c := counter s in
  let av := av_val_loss_of m s in
  let on_cadence := c mod 5 = 0 /\ exists k, 0 < k /\ c = k * 100 in
  (on_cadence -> flt av (best_val_loss s) = true ->
   saves (trace s') = saves (trace s) ++ [Save c] /\
   missed_val_checkpoints s' = 0 /\ best_val_loss s' = av) /\
  (on_cadence -> flt av (best_val_loss s) = false ->
   saves (trace s') = saves (trace s) /\
   missed_val_checkpoints s' = missed_val_checkpoints s + 1 /\
   best_val_loss s' = best_val_loss s) /\
  (~ on_cadence ->
   saves (trace s') = saves (trace s) /\
   missed_val_checkpoints s' = missed_val_checkpoints s /\
   best_val_loss s' = best_val_loss s).
Proof. intros Hit. exact (checkpoint_cadence cfg m 100 s s' ltac:(lia) Hit). Qed.

(** C8.  On a validation iteration that leaves [missed_val_checkpoints]
    above 9 the counter is moved past [stop_after] and the loop ends
    with the state of that very iteration, so no later training step
    runs.  In particular the iteration that records the tenth miss in a
    row ends the loop, and an iteration that leaves the count at 9 or
    below does not. *)
Theorem early_stop_immediate (cfg : config) (m : model) (every : Z)
        (s s' : state) :
  counter s < stop_after cfg ->
  counter s mod 5 = 0 ->
  iteration cfg m every s = Ok s' ->
  (9 < missed_val_checkpoints s' ->
   counter s' = stop_after cfg + 2 /\
   train_loop cfg m every s = Ok s' /\
   train_steps (trace s') = train_steps (trace s) ++ [TrainStep (counter s)]) /\
  (missed_val_checkpoints s = 9 ->
   at_cadence every (counter s) = Ok true ->
   flt (av_val_loss_of m s) (best_val_loss s) = false ->
   missed_val_checkpoints s' = 10 /\ train_loop cfg m every s = Ok s') /\
  (missed_val_checkpoints s' <= 9 -> counter s' = counter s + 1).
Proof.
  intros Hrun H5 Hit.
  destruct (iteration_inv cfg m every s s' Hit)
    as (Hmissed & _ & _ & Htrain & Hcounter).
  cbn zeta in *. rewrite H5 in Hcounter. cbn [Z.eqb andb] in Hcounter.
  assert (Hstop : 9 < missed_val_checkpoints s' ->
                  counter s' = stop_after cfg + 2 /\
                  train_loop cfg m every s = Ok s').
  { intros Hgt.
    replace (missed_val_checkpoints s' >? 9) with true in Hcounter
      by (symmetry; rewrite Z.gtb_ltb; apply Z.ltb_lt; lia).
    split; [lia |].
    rewrite train_loop_unfold.
    replace (counter s <? stop_after cfg) with true
      by (symmetry; apply Z.ltb_lt; lia).
    rewrite Hit, train_loop_unfold.
    replace (counter s' <? stop_after cfg) with false
      by (symmetry; apply Z.ltb_ge; lia).
    reflexivity. }
  split; [| split].
  - intros Hgt. destruct (Hstop Hgt). auto.
  - intros H9 Hdue Himp.
    assert (Hd : decision_due every (counter s) = true).
    { unfold decision_due. unfold at_cadence, mod_ in Hdue.
      rewrite H5. cbn [Z.eqb andb].
      destruct (counter s >=? every); [| discriminate].
      destruct (every =? 0); [discriminate |].
      cbn [bind] in Hdue. injection Hdue as ->. reflexivity. }
    rewrite Hd, Himp, H9 in Hmissed. cbn in Hmissed.
    split; [exact Hmissed |]. apply Hstop. lia.
  - intros Hle.
    replace (missed_val_checkpoints s' >? 9) with false in Hcounter
      by (symmetry; rewrite Z.gtb_ltb; apply Z.ltb_ge; lia).
    exact Hcounter.
Qed.

End TrainingLoop.

(** *** Concrete runs, in fixed-point arithmetic *)

(** C1.  [train_main] of [trainval.py], called with [save_every = 1000]
    and [stop_after = 200] on a fresh run, takes the checkpoint decision
    and saves at iteration 100, which is not a multiple of [save_every];
    [train_main] of [trainval_adafactor.py] on the same input saves
    nothing.  The claim holds for the latter script
    ([adafactor_checkpoint_cadence]) and fails for the former, whose
    cadence is the literal 100 ([trainval_checkpoint_cadence]). *)
Theorem trainval_saves_off_cadence :
  let cfg := Train.mkConfig 100 200 1000 in
  (forall k, 100 <> k * Train.save_every cfg) /\
  (exists s, Trainval.train_main cfg steady_model 1 = Ok s /\
             saves (Train.trace s) = [Train.Save 100]) /\
  (exists s, TrainvalAdafactor.train_main cfg steady_model 1 = Ok s /\
             saves (Train.trace s) = []).
Proof.
  cbn zeta. split; [| split].
  - cbn. lia.
  - destruct (Trainval.train_main (Train.mkConfig 100 200 1000)
                steady_model 1) as [s |] eqn:Hrun.
    + exists s. split; [reflexivity |].
      apply (f_equal (fun r => match r with
                               | Ok s => saves (Train.trace s)
                               | Raise _ => []
                               end)) in Hrun.
      rewrite <- Hrun. vm_compute. reflexivity.
    + exfalso. vm_compute in Hrun. discriminate.
  - destruct (TrainvalAdafactor.train_main (Train.mkConfig 100 200 1000)
                steady_model 1) as [s |] eqn:Hrun.
    + exists s. split; [reflexivity |].
      apply (f_equal (fun r => match r with
                               | Ok s => saves (Train.trace s)
                               | Raise _ => []
                               end)) in Hrun.
      rewrite <- Hrun. vm_compute. reflexivity.
    + exfalso. vm_compute in Hrun. discriminate.
Qed.

Lemma early_stop_immediate_witness :
  exists s',
    Train.iteration (Train.mkConfig 100 5000 100) stalling_model 100
                    nine_misses = Ok s' /\
    Train.missed_val_checkpoints s' = 10 /\
    Train.train_loop (Train.mkConfig 100 5000 100) stalling_model 100
                     nine_misses = Ok s'.
Proof.
  eexists. split; [vm_compute; reflexivity |].
  eapply (early_stop_immediate (Train.mkConfig 100 5000 100)
            stalling_model 100 nine_misses).
  - vm_compute. reflexivity.
  - vm_compute. reflexivity.
  - vm_compute. reflexivity.
  - vm_compute. reflexivity.
  - vm_compute. reflexivity.
  - vm_compute. reflexivity.
Defined.

(** A whole run: the validation average improves at iterations 100, 200
    and 300 and then stalls; checkpoints are written at exactly those
    three iterations, the tenth miss falls on iteration 1300, and that is
    the last training step although the budget is 5000. *)
Example early_stop_scenario :
  match TrainvalAdafactor.train_main (Train.mkConfig 100 5000 100)
                                     stalling_model 1 with
  | Ok s =>
      saves (Train.trace s)
      = [Train.Save 100; Train.Save 200; Train.Save 300] /\
      last (train_steps (Train.trace s)) (Train.TrainStep 0)
      = Train.TrainStep 1300 /\
      Train.missed_val_checkpoints s = 10 /\
      Train.counter s = 5002
  | Raise _ => False
  end.
Proof. vm_compute. repeat split. Qed.

(** ** TensorFlow operations on small tensors *)

Ltac tensor_eq :=
  vm_compute; repeat (f_equal; try lra).

Example reduce_mean_last_2x3 :
  tf.reduce_mean_last false (mkTensor [2; 3] [1; 2; 3; 4; 5; 6]%R)
  = Ok (mkTensor [2] [2; 5]%R).
Proof. tensor_eq. Qed.

Example reduce_mean_last_keepdims_2x3 :
  tf.reduce_mean_last true (mkTensor [2; 3] [1; 2; 3; 4; 5; 6]%R)
  = Ok (mkTensor [2; 1] [2; 5]%R).
Proof. tensor_eq. Qed.

Example reduce_mean_penult_2x3 :
  tf.reduce_mean_penult (mkTensor [2; 3] [1; 2; 3; 4; 5; 6]%R)
  = Ok (mkTensor [3] [5 / 2; 7 / 2; 9 / 2]%R).
Proof. tensor_eq. Qed.

Example reduce_mean_penult_2x2x2 :
  tf.reduce_mean_penult (mkTensor [2; 2; 2] [1; 2; 3; 4; 5; 6; 7; 8]%R)
  = Ok (mkTensor [2; 2] [2; 3; 6; 7]%R).
Proof. tensor_eq. Qed.

Example reduce_mean_axis_missing :
  tf.reduce_mean_last false (mkTensor [] [1%R]) = Raise ValueError /\
  tf.reduce_mean_penult (mkTensor [3] [1; 2; 3]%R) = Raise ValueError.
Proof. split; reflexivity. Qed.

Example broadcast_shapes :
  tf.broadcast_shape [2; 3] [2; 1] = Some [2; 3] /\
  tf.broadcast_shape [2; 3] [3] = Some [2; 3] /\
  tf.broadcast_shape [4; 1; 3] [5; 1] = Some [4; 5; 3] /\
  tf.broadcast_shape [2; 3] [] = Some [2; 3] /\
  tf.broadcast_shape [2; 3] [2] = None /\
  tf.broadcast_shape [0; 3] [1; 3] = Some [0; 3].
Proof. repeat split. Qed.

Example div_keepdims_2x3 :
  tf.div (mkTensor [2; 3] [2; 4; 6; 10; 20; 30]%R)
         (mkTensor [2; 1] [2; 10]%R)
  = Ok (mkTensor [2; 3] [1; 2; 3; 1; 2; 3]%R).
Proof. tensor_eq. Qed.

Example add_row_to_matrix :
  tf.add (mkTensor [2; 3] [1; 2; 3; 4; 5; 6]%R) (mkTensor [3] [10; 20; 30]%R)
  = Ok (mkTensor [2; 3] [11; 22; 33; 14; 25; 36]%R).
Proof. tensor_eq. Qed.

Example add_column_to_row :
  tf.add (mkTensor [2; 1] [1; 2]%R) (mkTensor [1; 3] [10; 20; 30]%R)
  = Ok (mkTensor [2; 3] [11; 21; 31; 12; 22; 32]%R).
Proof. tensor_eq. Qed.

Example add_mismatched :
  tf.add (mkTensor [2] [1; 2]%R) (mkTensor [3] [1; 2; 3]%R)
  = Raise ValueError.
Proof. reflexivity. Qed.

(** [g * tf.expand_dims(r, -1) * tf.expand_dims(c, -2)] on a matrix:
    entry (i, j) of [g] is multiplied by entry i of [r] and entry j of
    [c]. *)
Example mul_outer_2x3 :
  (r_column <- tf.expand_dims (mkTensor [2] [10; 100]%R) (-1) ;;
   x_rows <- tf.mul (mkTensor [2; 3] [1; 2; 3; 4; 5; 6]%R) r_column ;;
   c_row <- tf.expand_dims (mkTensor [3] [1; 2; 3]%R) (-2) ;;
   tf.mul x_rows c_row)
  = Ok (mkTensor [2; 3] [10; 40; 90; 400; 1000; 1800]%R).
Proof. tensor_eq. Qed.

Example expand_dims_cases :
  tf.expand_dims (mkTensor [2; 3] [1; 2; 3; 4; 5; 6]%R) (-2)
  = Ok (mkTensor [2; 1; 3] [1; 2; 3; 4; 5; 6]%R) /\
  tf.expand_dims (mkTensor [2] [1; 2]%R) 0 = Ok (mkTensor [1; 2] [1; 2]%R) /\
  tf.expand_dims (mkTensor [] [1%R]) (-2) = Raise ValueError.
Proof. repeat split. Qed.

Example assign_checks_shape :
  tf.assign (mkTensor [2] [0; 0]%R) (mkTensor [2] [1; 2]%R)
  = Ok (mkTensor [2] [1; 2]%R) /\
  tf.assign (mkTensor [2] [0; 0]%R) (mkTensor [2; 1] [1; 2]%R)
  = Raise ValueError.
Proof. split; reflexivity. Qed.

(** ** AdafactorOptimizer: slot creation *)

Section Slots.
Import AdafactorOptimizer.
Context {F : Type} {ops : TensorOps F}.

Lemma slice_to_minus_1 {A} (l : list A) : slice_to l (-1) = removelast l.
Proof.
  unfold slice_to, slice, clamp, len. cbn [Z.ltb Z.compare skipn Z.to_nat].
  rewrite Z.min_l by lia. rewrite Z.sub_0_r.
  destruct l as [| a l]; [reflexivity |].
  rewrite removelast_firstn_len. f_equal. cbn [List.length]. lia.
Qed.

Lemma slice_to_minus_2 {A} (l : list A) :
  (2 <= List.length l)%nat ->
  slice_to l (-2) = firstn (List.length l - 2) l.
Proof.
  intros Hl. unfold slice_to, slice, clamp, len.
  cbn [Z.ltb Z.compare skipn Z.to_nat].
  rewrite Z.min_l by lia. rewrite Z.sub_0_r. f_equal. lia.
Qed.

Lemma slice_from_minus_1 {A} (l : list A) :
  (1 <= List.length l)%nat ->
  slice_from l (-1) = skipn (List.length l - 1) l.
Proof.
  intros Hl. unfold slice_from, slice, clamp, len.
  cbn [Z.ltb Z.compare].
  destruct (Z.of_nat (List.length l) <? 0) eqn:Hneg;
    [apply Z.ltb_lt in Hneg; lia |].
  rewrite Z.min_l, Z.max_l by lia.
  replace (Z.to_nat (-1 + Z.of_nat (List.length l)))
    with (List.length l - 1)%nat by lia.
  apply firstn_all2. rewrite length_skipn. lia.
Qed.

Lemma len_ge_2 {A} (l : list A) :
  (len l >=? 2)%Z = (2 <=? List.length l)%nat.
Proof.
  unfold len. destruct (2 <=? List.length l)%nat eqn:Hl.
  - apply Nat.leb_le in Hl. rewrite Z.geb_leb. apply Z.leb_le. lia.
  - apply Nat.leb_gt in Hl. rewrite Z.geb_leb. apply Z.leb_gt. lia.
Qed.

Lemma slots_of_app (ss ss' : slots F) (var : Variable_ F) :
  slots_of (ss ++ ss') var = slots_of ss var ++ slots_of ss' var.
Proof. unfold slots_of. rewrite filter_app, map_app. reflexivity. Qed.

Lemma lookup_slot_none (ss : slots F) (var : Variable_ F) (name : string) :
  slots_of ss var = [] -> lookup_slot ss (name, var_name var) = None.
Proof.
  induction ss as [| [[n v] tn] ss IH]; [reflexivity |].
  unfold slots_of. cbn [filter fst snd lookup_slot slot_key_eqb].
  destruct (String.eqb v (var_name var)) eqn:Hv.
  - discriminate.
  - unfold slot_key_eqb. cbn [fst snd]. rewrite Hv, andb_false_r. exact IH.
Qed.

Lemma lookup_slot_app (ss ss' : slots F) (k : string * string) :
  lookup_slot (ss ++ ss') k
  = match lookup_slot ss k with
    | Some tn => Some tn
    | None => lookup_slot ss' k
    end.
Proof.
  induction ss as [| [k' tn] ss IH]; [reflexivity |].
  cbn [app lookup_slot]. destruct (slot_key_eqb k' k); auto.
Qed.

(** Creating slots for a variable that has none yet. *)
Lemma create_slots_for_fresh (self : t F) (ss : slots F) (var : Variable_ F) :
  slots_of ss var = [] ->
  slots_of (create_slots_for self ss var) var
  = expected_slots self (shape (var_value var)).
Proof.
  intros Hfresh.
  pose proof (fun n => lookup_slot_none ss var n Hfresh) as Hnone.
  unfold create_slots_for, expected_slots,
    _should_use_factored_second_moment_estimate, _zeros_slot,
    _get_or_make_slot.
  rewrite len_ge_2.
  destruct (truthy (_beta1 self));
    destruct (_factored self && (2 <=? _)%nat) eqn:Hfac;
    repeat (rewrite ?lookup_slot_app, ?Hnone;
            cbn [lookup_slot slot_key_eqb fst snd String.eqb Ascii.eqb
                 Bool.eqb andb]);
    rewrite ?slots_of_app, Hfresh; unfold slots_of;
    cbn [filter List.map fst snd app]; rewrite ?String.eqb_refl;
    cbn [filter List.map fst snd app]; try reflexivity.
  all: apply andb_true_iff in Hfac as [_ Hrank];
    apply Nat.leb_le in Hrank;
    rewrite slice_to_minus_1, slice_to_minus_2, slice_from_minus_1 by lia;
    reflexivity.
Qed.

(** Creating slots for another variable leaves this one's alone. *)
Lemma create_slots_for_other (self : t F) (ss : slots F) (v var : Variable_ F) :
  var_name v <> var_name var ->
  slots_of (create_slots_for self ss v) var = slots_of ss var.
Proof.
  intros Hne. apply String.eqb_neq in Hne.
  assert (Hmake : forall ss0 val name,
             slots_of (_get_or_make_slot ss0 v val name) var
             = slots_of ss0 var).
  { intros ss0 val name. unfold _get_or_make_slot.
    destruct (lookup_slot ss0 _); [reflexivity |].
    rewrite slots_of_app. unfold slots_of at 2.
    cbn [filter fst snd]. rewrite Hne. cbn. apply app_nil_r. }
  unfold create_slots_for, _zeros_slot.
  destruct (truthy _); destruct (_should_use_factored_second_moment_estimate _ _);
    rewrite ?Hmake; reflexivity.
Qed.

Lemma create_slots_others (self : t F) (var_list : list (Variable_ F))
      (ss : slots F) (var : Variable_ F) :
  ~ In (var_name var) (List.map var_name var_list) ->
  slots_of (_create_slots self var_list ss) var = slots_of ss var.
Proof.
  revert ss. induction var_list as [| v vs IH]; intros ss Hnin.
  - reflexivity.
  - cbn [_create_slots fold_left]. cbn [List.map In] in Hnin.
    change (slots_of (_create_slots self vs (create_slots_for self ss v)) var
            = slots_of ss var).
    rewrite IH by tauto. apply create_slots_for_other. tauto.
Qed.

Lemma create_slots_each (self : t F) (var_list : list (Variable_ F))
      (ss : slots F) (var : Variable_ F) :
  NoDup (List.map var_name var_list) ->
  (forall v, In v var_list -> slots_of ss v = []) ->
  In var var_list ->
  slots_of (_create_slots self var_list ss) var
  = expected_slots self (shape (var_value var)).
Proof.
  revert ss. induction var_list as [| v vs IH]; intros ss Hnodup Hfresh Hin.
  - destruct Hin.
  - cbn [List.map] in Hnodup. apply NoDup_cons_iff in Hnodup as [Hnin Hnd].
    change (slots_of (_create_slots self vs (create_slots_for self ss v)) var
            = expected_slots self (shape (var_value var))).
    destruct Hin as [-> | Hin].
    + rewrite create_slots_others by exact Hnin.
      apply create_slots_for_fresh, Hfresh. left; reflexivity.
    + apply IH; [exact Hnd | | exact Hin].
      intros v' Hv'. rewrite create_slots_for_other.
      * apply Hfresh. right; exact Hv'.
      * intros Heq. apply Hnin. rewrite Heq. apply in_map. exact Hv'.
Qed.

End Slots.

Section SecondMoment.
Context {F : Type} {ops : TensorOps F}.

(** C7.  After [_create_slots] on a fresh optimizer, a variable of rank
    at least 2 has, with factoring enabled, exactly the two second-moment
    accumulators ["vr"], shaped as the variable without its last axis, and
    ["vc"], shaped as the variable without its second-to-last axis; a
    variable of shape (4, 3) then carries 4 + 3 = 7 second-moment scalars.
    A variable of rank below 2, or any variable when factoring is
    disabled, has the single accumulator ["v"] of the variable's shape. *)
Theorem create_slots_second_moment
        (self : AdafactorOptimizer.t F) (var_list : list (Variable_ F))
        (var : Variable_ F) :
  NoDup (List.map var_name var_list) ->
  In var var_list ->
  let ss := AdafactorOptimizer._create_slots self var_list [] in
  let sh := shape (var_value var) in
  let rank := List.length sh in
  (AdafactorOptimizer._factored self = true -> (2 <= rank)%nat ->
   second_moment_slots ss var
   = [("vr"%string, tf.zeros (removelast sh));
      ("vc"%string, tf.zeros (firstn (rank - 2) sh ++ skipn (rank - 1) sh))]) /\
  (AdafactorOptimizer._factored self = true -> sh = [4; 3] ->
   scalars (second_moment_slots ss var) = 7%nat) /\
  (AdafactorOptimizer._factored self = false \/ (rank < 2)%nat ->
   second_moment_slots ss var = [("v"%string, tf.zeros sh)]).
Proof.
  intros Hnodup Hin ss sh rank.
  assert (Hss : slots_of ss var = expected_slots self sh).
  { apply create_slots_each; [exact Hnodup | reflexivity | exact Hin]. }
  assert (Hfact : AdafactorOptimizer._factored self = true ->
                  (2 <= rank)%nat ->
                  second_moment_slots ss var
                  = [("vr"%string, tf.zeros (removelast sh));
                     ("vc"%string,
                      tf.zeros (firstn (rank - 2) sh ++ skipn (rank - 1) sh))]).
  { intros Hf Hrank. unfold second_moment_slots, expected_slots in *.
    rewrite Hss, Hf. fold rank.
    replace (2 <=? rank)%nat with true by (symmetry; apply Nat.leb_le; lia).
    destruct (AdafactorOptimizer.truthy _); reflexivity. }
  split; [exact Hfact | split].
  - intros Hf Hsh. rewrite Hfact; [| exact Hf | unfold rank; rewrite Hsh; cbn; lia].
    unfold rank. rewrite Hsh. reflexivity.
  - intros Hfull. unfold second_moment_slots, expected_slots in *.
    rewrite Hss. fold rank.
    assert (Hb : AdafactorOptimizer._factored self && (2 <=? rank)%nat = false).
    { destruct Hfull as [-> | Hlt]; [reflexivity |].
      apply andb_false_iff. right. apply Nat.leb_gt. lia. }
    rewrite Hb. destruct (AdafactorOptimizer.truthy _); reflexivity.
Qed.

End SecondMoment.

Lemma create_slots_second_moment_witness :
  let self := train_main_optimizer (1 / 1000)%R (9 / 10)%R (999 / 1000)%R in
  let var := mkVariable "model/h0/attn/w" (tf.zeros [4; 3]) in
  scalars (second_moment_slots
             (AdafactorOptimizer._create_slots self [var] []) var) = 7%nat.
Proof.
  cbn zeta.
  apply (create_slots_second_moment
           (train_main_optimizer (1 / 1000)%R (9 / 10)%R (999 / 1000)%R)
           [mkVariable "model/h0/attn/w" (tf.zeros [4; 3])]).
  - repeat constructor. simpl. tauto.
  - left. reflexivity.
  - reflexivity.
  - reflexivity.
Defined.

(** ** AdafactorOptimizer: the update, step by step *)

Lemma bind_ok {A B : Type} (m : result A) (k : A -> result B) (b : B) :
  bind m k = Ok b -> exists a, m = Ok a /\ k a = Ok b.
Proof. destruct m; cbn; [eauto | discriminate]. Qed.

Lemma slot_key_eqb_eq (k1 k2 : string * string) :
  slot_key_eqb k1 k2 = true <-> k1 = k2.
Proof.
  destruct k1 as [a1 b1], k2 as [a2 b2]. unfold slot_key_eqb. cbn [fst snd].
  rewrite andb_true_iff, !String.eqb_eq. split.
  - intros [-> ->]. reflexivity.
  - intros Heq. injection Heq as -> ->. auto.
Qed.

Lemma slot_key_eqb_refl (k : string * string) : slot_key_eqb k k = true.
Proof. apply slot_key_eqb_eq. reflexivity. Qed.

Section SlotStore.
Context {F : Type}.

Lemma lookup_assign_same (ss : slots F) (k : string * string)
      (old new : Tensor F) :
  lookup_slot ss k = Some old -> lookup_slot (assign_slot ss k new) k = Some new.
Proof.
  induction ss as [| [k0 t0] ss IH]; [discriminate |].
  cbn [lookup_slot assign_slot]. destruct (slot_key_eqb k0 k) eqn:Hk.
  - intros _. cbn [lookup_slot]. rewrite Hk. reflexivity.
  - intros Hl. cbn [lookup_slot]. rewrite Hk. apply IH, Hl.
Qed.

Lemma lookup_assign_other (ss : slots F) (k k' : string * string)
      (new : Tensor F) :
  k <> k' -> lookup_slot (assign_slot ss k new) k' = lookup_slot ss k'.
Proof.
  intros Hne. induction ss as [| [k0 t0] ss IH]; [reflexivity |].
  cbn [lookup_slot assign_slot]. destruct (slot_key_eqb k0 k) eqn:Hk.
  - cbn [lookup_slot]. destruct (slot_key_eqb k0 k') eqn:Hk'; [| reflexivity].
    apply slot_key_eqb_eq in Hk, Hk'. congruence.
  - cbn [lookup_slot]. rewrite IH. reflexivity.
Qed.

Lemma assign_slot_shapes (ss : slots F) (k : string * string)
      (old new : Tensor F) :
  lookup_slot ss k = Some old -> shape new = shape old ->
  slot_shapes (assign_slot ss k new) = slot_shapes ss.
Proof.
  intros Hl Hsh. induction ss as [| [k0 t0] ss IH]; [reflexivity |].
  cbn [lookup_slot assign_slot] in *. destruct (slot_key_eqb k0 k) eqn:Hk.
  - injection Hl as ->. unfold slot_shapes. cbn [List.map fst snd].
    rewrite Hsh. reflexivity.
  - unfold slot_shapes in *. cbn [List.map fst snd]. rewrite IH by exact Hl.
    reflexivity.
Qed.

Lemma slot_shapes_lookup (ss ss' : slots F) (k : string * string)
      (t : Tensor F) :
  slot_shapes ss' = slot_shapes ss -> lookup_slot ss k = Some t ->
  exists t', lookup_slot ss' k = Some t' /\ shape t' = shape t.
Proof.
  revert ss'. induction ss as [| [k0 t0] ss IH]; intros ss' Heq Hl;
    [discriminate |].
  destruct ss' as [| [k1 t1] ss']; [discriminate |].
  unfold slot_shapes in Heq. cbn [List.map fst snd] in Heq.
  injection Heq as Hk Hsh Hrest. subst k1.
  cbn [lookup_slot] in *. destruct (slot_key_eqb k0 k).
  - injection Hl as <-. eauto.
  - apply IH; assumption.
Qed.

End SlotStore.

Section TensorShapes.
Context {F : Type} {ops : TensorOps F}.

Lemma broadcast_rev_refl (l : list Z) : tf.broadcast_rev l l = Some l.
Proof.
  induction l as [| x l IH]; [reflexivity |].
  cbn [tf.broadcast_rev]. rewrite IH, Z.eqb_refl. reflexivity.
Qed.

Lemma broadcast_rev_head (x y : Z) (l l' r : list Z) :
  tf.broadcast_rev l l' = Some r -> x = y \/ y = 1 ->
  tf.broadcast_rev (x :: l) (y :: l') = Some (x :: r).
Proof.
  intros Hr Hxy. cbn [tf.broadcast_rev]. rewrite Hr.
  destruct (x =? y) eqn:Hx; [reflexivity |].
  destruct Hxy as [-> | ->]; [rewrite Z.eqb_refl in Hx; discriminate |].
  rewrite Hx. reflexivity.
Qed.

Lemma broadcast_shape_refl (sh : list Z) : tf.broadcast_shape sh sh = Some sh.
Proof.
  unfold tf.broadcast_shape. rewrite broadcast_rev_refl. cbn.
  rewrite rev_involutive. reflexivity.
Qed.

(** Broadcasting against a shape that differs in having extent 1 on the
    last axis, or on the second-to-last. *)
Lemma broadcast_shape_last (q : list Z) (a : Z) :
  tf.broadcast_shape (q ++ [a]) (q ++ [1]) = Some (q ++ [a]).
Proof.
  unfold tf.broadcast_shape. rewrite !rev_app_distr. cbn [rev app].
  rewrite (broadcast_rev_head a 1 _ _ _ (broadcast_rev_refl (rev q)))
    by (right; reflexivity).
  cbn [option_map rev]. rewrite rev_involutive. reflexivity.
Qed.

Lemma broadcast_shape_column (q : list Z) (a b : Z) :
  tf.broadcast_shape (q ++ [a; b]) ((q ++ [a]) ++ [1]) = Some (q ++ [a; b]).
Proof.
  rewrite <- app_assoc. cbn [app].
  unfold tf.broadcast_shape. rewrite !rev_app_distr. cbn [rev app].
  rewrite (broadcast_rev_head b 1 (a :: rev q) (a :: rev q) (a :: rev q))
    by (try apply broadcast_rev_refl; right; reflexivity).
  cbn [option_map rev]. rewrite rev_involutive, <- app_assoc. reflexivity.
Qed.

Lemma broadcast_shape_row (q : list Z) (a b : Z) :
  tf.broadcast_shape (q ++ [a; b]) (q ++ [1; b]) = Some (q ++ [a; b]).
Proof.
  unfold tf.broadcast_shape. rewrite !rev_app_distr. cbn [rev app].
  rewrite (broadcast_rev_head b b (a :: rev q) (1 :: rev q) (a :: rev q));
    [| | left; reflexivity].
  - cbn [option_map rev]. rewrite rev_involutive, <- app_assoc. reflexivity.
  - apply broadcast_rev_head; [apply broadcast_rev_refl | right; reflexivity].
Qed.

Lemma map2_shape (f : F -> F -> F) (a b : Tensor F) (sh : list Z) :
  tf.broadcast_shape (shape a) (shape b) = Some sh ->
  exists c, tf.map2 f a b = Ok c /\ shape c = sh.
Proof.
  intros Hb. unfold tf.map2. rewrite Hb. eexists. split; reflexivity.
Qed.

Lemma map2_same_shape (f : F -> F -> F) (a b : Tensor F) :
  shape a = shape b ->
  exists c, tf.map2 f a b = Ok c /\ shape c = shape a.
Proof.
  intros Hs. apply map2_shape. rewrite <- Hs. apply broadcast_shape_refl.
Qed.

Lemma shape_eqb_refl (sh : list Z) : tf.shape_eqb sh sh = true.
Proof.
  unfold tf.shape_eqb. destruct (list_eq_dec Z.eq_dec sh sh); congruence.
Qed.

Lemma assign_same_shape (ref value : Tensor F) :
  shape ref = shape value -> tf.assign ref value = Ok value.
Proof.
  intros Hs. unfold tf.assign. rewrite Hs, shape_eqb_refl. reflexivity.
Qed.

(** An assignment that is accepted stores the value it was given, which
    has the shape of the variable. *)
Lemma assign_ok (ref value stored : Tensor F) :
  tf.assign ref value = Ok stored ->
  stored = value /\ shape value = shape ref.
Proof.
  unfold tf.assign, tf.shape_eqb.
  destruct (list_eq_dec Z.eq_dec (shape ref) (shape value)) as [Heq | Hne];
    [| discriminate].
  intros Hok. injection Hok as <-. auto.
Qed.

Lemma convert_ok (x : option (Tensor F)) (t : Tensor F) :
  tf.convert_to_tensor x = Ok t -> x = Some t.
Proof. destruct x; cbn; congruence. Qed.

Lemma reduce_mean_last_shape (keepdims : bool) (t : Tensor F) :
  (1 <= List.length (shape t))%nat ->
  exists m, tf.reduce_mean_last keepdims t = Ok m /\
            shape m = removelast (shape t) ++ (if keepdims then [1] else []).
Proof.
  intros Hr. unfold tf.reduce_mean_last.
  destruct (len (shape t) <? 1) eqn:Hlt;
    [apply Z.ltb_lt in Hlt; unfold len in Hlt; lia |].
  eexists. split; [reflexivity |]. cbn [shape].
  rewrite slice_to_minus_1. reflexivity.
Qed.

Lemma reduce_mean_penult_shape (t : Tensor F) :
  (2 <= List.length (shape t))%nat ->
  exists m, tf.reduce_mean_penult t = Ok m /\
            shape m = firstn (List.length (shape t) - 2) (shape t)
                      ++ skipn (List.length (shape t) - 1) (shape t).
Proof.
  intros Hr. unfold tf.reduce_mean_penult.
  destruct (len (shape t) <? 2) eqn:Hlt;
    [apply Z.ltb_lt in Hlt; unfold len in Hlt; lia |].
  eexists. split; [reflexivity |]. cbn [shape].
  rewrite slice_to_minus_2, slice_from_minus_1 by lia. reflexivity.
Qed.

Lemma expand_dims_last (t : Tensor F) :
  exists e, tf.expand_dims t (-1) = Ok e /\ shape e = shape t ++ [1].
Proof.
  unfold tf.expand_dims.
  destruct ((-1 <? - (len (shape t) + 1)) || (len (shape t) <? -1)) eqn:Hbad.
  - apply orb_true_iff in Hbad as [Hb | Hb]; apply Z.ltb_lt in Hb;
      unfold len in Hb; lia.
  - eexists. split; [reflexivity |]. cbn [shape Z.ltb Z.compare].
    replace (Z.to_nat (-1 + len (shape t) + 1)) with (List.length (shape t))
      by (unfold len; lia).
    rewrite firstn_all, skipn_all. rewrite app_nil_r. reflexivity.
Qed.

Lemma expand_dims_penult (t : Tensor F) (q : list Z) (b : Z) :
  shape t = q ++ [b] ->
  exists e, tf.expand_dims t (-2) = Ok e /\ shape e = q ++ [1; b].
Proof.
  intros Hs. unfold tf.expand_dims.
  assert (Hlen : len (shape t) = Z.of_nat (List.length q) + 1).
  { unfold len. rewrite Hs, length_app. cbn [List.length]. lia. }
  destruct ((-2 <? - (len (shape t) + 1)) || (len (shape t) <? -2)) eqn:Hbad.
  - apply orb_true_iff in Hbad as [Hb | Hb]; apply Z.ltb_lt in Hb; lia.
  - eexists. split; [reflexivity |]. cbn [shape Z.ltb Z.compare].
    replace (Z.to_nat (-2 + len (shape t) + 1)) with (List.length q) by lia.
    rewrite Hs. rewrite firstn_app, firstn_all, Nat.sub_diag. cbn [firstn].
    rewrite skipn_app, skipn_all, Nat.sub_diag. cbn [skipn app].
    rewrite app_nil_r. reflexivity.
Qed.

(** A shape of rank at least 2, split before its last two axes. *)
Lemma shape_split_2 (sh : list Z) :
  (2 <= List.length sh)%nat ->
  exists q a b,
    sh = q ++ [a; b] /\
    removelast sh = q ++ [a] /\
    firstn (List.length sh - 2) sh ++ skipn (List.length sh - 1) sh = q ++ [b].
Proof.
  intros Hr.
  destruct (exists_last (l := sh)) as (l1 & b & ->);
    [destruct sh; [cbn in Hr; lia | discriminate] |].
  rewrite length_app in Hr. cbn [List.length] in Hr.
  destruct (exists_last (l := l1)) as (q & a & ->);
    [destruct l1; [cbn in Hr; lia | discriminate] |].
  exists q, a, b. rewrite <- app_assoc. cbn [app]. split; [reflexivity |].
  split.
  - replace (q ++ [a; b]) with ((q ++ [a]) ++ [b])
      by (rewrite <- app_assoc; reflexivity).
    apply removelast_last.
  - rewrite !length_app. cbn [List.length].
    replace (List.length q + 2 - 2)%nat with (List.length q) by lia.
    replace (List.length q + 2 - 1)%nat with (List.length q + 1)%nat by lia.
    rewrite firstn_app, firstn_all, Nat.sub_diag. cbn [firstn].
    rewrite app_nil_r.
    rewrite skipn_app, skipn_all2 by lia.
    replace (List.length q + 1 - List.length q)%nat with 1%nat by lia.
    reflexivity.
Qed.

End TensorShapes.

Section UpdateSteps.
Import AdafactorOptimizer.
Context {F : Type} {ops : TensorOps F}.

Lemma shape_scale (c : F) (t : Tensor F) : shape (tf.scale c t) = shape t.
Proof. reflexivity. Qed.

Lemma shape_clip (self : t F) (x : Tensor F) : shape (clip self x) = shape x.
Proof. unfold clip. destruct (_clipping_threshold self); reflexivity. Qed.

Lemma shape_grad_squared (self : t F) (grad : Tensor F) :
  shape (grad_squared self grad) = shape grad.
Proof. reflexivity. Qed.

Ltac bind_step H x Hx :=
  apply bind_ok in H as (x & Hx & H).

(** What a successful update has done to the second-moment accumulators:
    it has averaged them with the decay rate [decay_rate_used]. *)
Lemma update_second_moment (self : t F) (global_step : nat) (grad : Tensor F)
      (var var' : Variable_ F) (ss ss' : slots F) :
  _resource_apply_dense self global_step grad var ss = Ok (var', ss') ->
  second_moment_averaged self (decay_rate_used self global_step grad)
    grad var ss ss'.
Proof.
  intros H. unfold _resource_apply_dense in H. cbv zeta in H.
  unfold mixing_rate in H.
  bind_step H xu Hxu. bind_step H su Hsu.
  bind_step H new_val Hval. bind_step H var_update Hvar.
  injection H as _ Hss'.
  unfold second_moment_averaged. cbv zeta.
  assert (Hm : forall k : string * string,
             k <> ("m"%string, var_name var) ->
             lookup_slot ss' k = lookup_slot (snd xu) k).
  { intros k Hk. rewrite <- Hss'.
    destruct (truthy (_beta1 self)).
    - bind_step Hsu m Hm. bind_step Hsu new_m Hnew. bind_step Hsu mu Hmu.
      injection Hsu as <-. cbn [snd].
      apply lookup_assign_other. congruence.
    - injection Hsu as <-. reflexivity. }
  destruct (_should_use_factored_second_moment_estimate self
              (shape (var_value var))).
  - bind_step Hxu row_mean Hrow. bind_step Hxu col_mean Hcol.
    bind_step Hxu vr Hvr. bind_step Hxu new_vr Hnvr.
    bind_step Hxu vc Hvc. bind_step Hxu new_vc Hnvc.
    bind_step Hxu vr_update Hvru. bind_step Hxu vc_update Hvcu.
    bind_step Hxu ltm Hltm. bind_step Hxu ratio Hratio.
    bind_step Hxu r_column Hrc. bind_step Hxu x_rows Hxr.
    bind_step Hxu c_row Hcr. bind_step Hxu x Hx.
    injection Hxu as <-. cbn [snd] in Hm.
    apply convert_ok in Hvr, Hvc. unfold get_slot in Hvr, Hvc.
    apply assign_ok in Hvru as [-> _]. apply assign_ok in Hvcu as [-> _].
    exists vr, vc, row_mean, col_mean, new_vr, new_vc.
    repeat split; try assumption.
    + rewrite Hm by congruence.
      rewrite lookup_assign_other by congruence.
      apply (lookup_assign_same _ _ vr). exact Hvr.
    + rewrite Hm by congruence.
      apply (lookup_assign_same _ _ vc).
      rewrite lookup_assign_other by congruence. exact Hvc.
  - bind_step Hxu v Hv. bind_step Hxu new_v Hnv.
    bind_step Hxu v_update Hvu. bind_step Hxu x Hx.
    injection Hxu as <-. cbn [snd] in Hm.
    apply convert_ok in Hv. unfold get_slot in Hv.
    apply assign_ok in Hvu as [-> _].
    exists v, new_v. repeat split; try assumption.
    rewrite Hm by congruence.
    apply (lookup_assign_same _ _ v). exact Hv.
Qed.

End UpdateSteps.

Section UpdateSucceeds.
Import AdafactorOptimizer.
Context {F : Type} {ops : TensorOps F}.

(** The momentum step and the final assignment, once the clipped update
    [x] of the variable's shape is there. *)
Lemma momentum_and_assign (self : t F) (update_scale : F) (x : Tensor F)
      (var : Variable_ F) (ss0 ss : slots F) :
  shape x = shape (var_value var) ->
  slot_shapes ss = slot_shapes ss0 ->
  (truthy (_beta1 self) = true -> slot_shaped ss0 "m" var (shape (var_value var))) ->
  exists var' ss',
    (su <- (if truthy (_beta1 self) then
              m <- tf.convert_to_tensor (get_slot ss var "m") ;;
              new_m <- tf.add (tf.scale (_beta1 self) m)
                         (tf.scale (t_sub (t_lit 1 0) (_beta1 self))
                            (tf.scale update_scale x)) ;;
              m_update <- tf.assign m new_m ;;
              Ok (new_m, assign_slot ss ("m"%string, var_name var) m_update)
            else Ok (tf.scale update_scale x, ss)) ;;
     new_val <- tf.sub (var_value var) (fst su) ;;
     var_update <- tf.assign (var_value var) new_val ;;
     Ok ({| var_name := var_name var; var_value := var_update |}, snd su))
    = Ok (var', ss') /\
    var_name var' = var_name var /\
    shape (var_value var') = shape (var_value var) /\
    slot_shapes ss' = slot_shapes ss0.
Proof.
  intros Hx Hss Hm.
  assert (Hfin : forall (s : Tensor F) (ss1 : slots F),
             shape s = shape (var_value var) ->
             slot_shapes ss1 = slot_shapes ss0 ->
             exists var' ss',
               (new_val <- tf.sub (var_value var) s ;;
                var_update <- tf.assign (var_value var) new_val ;;
                Ok ({| var_name := var_name var; var_value := var_update |},
                    ss1))
               = Ok (var', ss') /\
               var_name var' = var_name var /\
               shape (var_value var') = shape (var_value var) /\
               slot_shapes ss' = slot_shapes ss0).
  { intros s ss1 Hs Hs1.
    destruct (map2_same_shape t_sub (var_value var) s) as (nv & Hnv & Hsnv);
      [congruence |].
    unfold tf.sub. rewrite Hnv. cbn [bind].
    rewrite assign_same_shape by congruence. cbn [bind].
    do 2 eexists. split; [reflexivity |]. cbn [var_name var_value]. auto. }
  destruct (truthy (_beta1 self)) eqn:Ht.
  - destruct (Hm eq_refl) as (m0 & Hm0 & Hsm0).
    destruct (slot_shapes_lookup ss0 ss _ m0 Hss Hm0) as (m & Hlm & Hsm).
    unfold get_slot. rewrite Hlm. cbn [tf.convert_to_tensor bind].
    destruct (map2_same_shape t_add (tf.scale (_beta1 self) m)
                (tf.scale (t_sub (t_lit 1 0) (_beta1 self))
                   (tf.scale update_scale x)))
      as (new_m & Hnm & Hsnm).
    { rewrite !shape_scale. congruence. }
    unfold tf.add. rewrite Hnm. cbn [bind].
    rewrite shape_scale in Hsnm.
    rewrite assign_same_shape by congruence. cbn [bind fst snd].
    apply Hfin; [congruence |].
    rewrite (assign_slot_shapes ss _ m new_m Hlm) by congruence. exact Hss.
  - cbn [bind fst snd]. apply Hfin; [rewrite shape_scale; exact Hx | exact Hss].
Qed.

(** With its slots ready, the update of a variable by a gradient of its
    own shape succeeds; it keeps the variable's name and shape, and the
    keys of the store with the shape of every slot. *)
Lemma apply_with_slots (self : t F) (global_step : nat) (grad : Tensor F)
      (var : Variable_ F) (ss : slots F) :
  slots_ready self ss var ->
  shape grad = shape (var_value var) ->
  exists var' ss',
    _resource_apply_dense self global_step grad var ss = Ok (var', ss') /\
    var_name var' = var_name var /\
    shape (var_value var') = shape (var_value var) /\
    slot_shapes ss' = slot_shapes ss.
Proof.
  intros [Hm Hv] Hg. cbv zeta in Hm, Hv.
  unfold _resource_apply_dense. cbv zeta.
  set (d := decay_rate_used self global_step grad).
  set (mix := mixing_rate self global_step grad).
  set (us := update_scale self global_step grad (var_value var)).
  set (g2 := grad_squared self grad).
  assert (Hg2 : shape g2 = shape (var_value var)) by exact Hg.
  unfold _should_use_factored_second_moment_estimate in *.
  destruct (_factored self && (len (shape (var_value var)) >=? 2)) eqn:Hfact.
  - apply andb_true_iff in Hfact as [_ Hrank].
    rewrite len_ge_2 in Hrank. apply Nat.leb_le in Hrank.
    destruct (shape_split_2 _ Hrank) as (q & a & b & Hsh & Hrl & Hcl).
    destruct Hv as [(vr & Hvr & Hsvr) (vc & Hvc & Hsvc)].
    rewrite slice_to_minus_1 in Hsvr.
    rewrite slice_to_minus_2, slice_from_minus_1 in Hsvc by lia.
    rewrite Hrl in Hsvr. rewrite Hcl in Hsvc.
    destruct (reduce_mean_last_shape false g2) as (rm & Hrm & Hsrm);
      [rewrite Hg2; lia |].
    rewrite Hg2, Hrl, app_nil_r in Hsrm.
    destruct (reduce_mean_penult_shape g2) as (cm & Hcm & Hscm);
      [rewrite Hg2; lia |].
    rewrite Hg2, Hcl in Hscm.
    rewrite Hrm. cbn [bind]. rewrite Hcm. cbn [bind].
    unfold get_slot. rewrite Hvr. cbn [tf.convert_to_tensor bind].
    destruct (map2_same_shape t_add (tf.scale d vr) (tf.scale mix rm))
      as (new_vr & Hnvr & Hsnvr); [rewrite !shape_scale; congruence |].
    rewrite shape_scale in Hsnvr.
    unfold tf.add at 1. rewrite Hnvr. cbn [bind].
    rewrite Hvc. cbn [tf.convert_to_tensor bind].
    destruct (map2_same_shape t_add (tf.scale d vc) (tf.scale mix cm))
      as (new_vc & Hnvc & Hsnvc); [rewrite !shape_scale; congruence |].
    rewrite shape_scale in Hsnvc.
    unfold tf.add at 1. rewrite Hnvc. cbn [bind].
    rewrite (assign_same_shape vr new_vr) by congruence. cbn [bind].
    rewrite (assign_same_shape vc new_vc) by congruence. cbn [bind].
    destruct (reduce_mean_last_shape true new_vr) as (ltm & Hltm & Hsltm).
    { rewrite Hsnvr, Hsvr, length_app. cbn. lia. }
    rewrite Hsnvr, Hsvr, removelast_last in Hsltm.
    rewrite Hltm. cbn [bind].
    destruct (map2_shape t_div new_vr ltm (q ++ [a])) as (ratio & Hr & Hsr).
    { rewrite Hsnvr, Hsvr, Hsltm. apply broadcast_shape_last. }
    unfold tf.div. rewrite Hr. cbn [bind].
    destruct (expand_dims_last (tf.map t_rsqrt ratio)) as (rc & Hrc & Hsrc).
    cbn [tf.map shape] in Hsrc. rewrite Hsr in Hsrc.
    rewrite Hrc. cbn [bind].
    destruct (map2_shape t_mul grad rc (q ++ [a; b])) as (xr & Hxr & Hsxr).
    { rewrite Hg, Hsh, Hsrc. apply broadcast_shape_column. }
    unfold tf.mul at 1. rewrite Hxr. cbn [bind].
    destruct (expand_dims_penult (tf.map t_rsqrt new_vc) q b)
      as (cr & Hcr & Hscr).
    { cbn [tf.map shape]. congruence. }
    rewrite Hcr. cbn [bind].
    destruct (map2_shape t_mul xr cr (q ++ [a; b])) as (x & Hx & Hsx).
    { rewrite Hsxr, Hscr. apply broadcast_shape_row. }
    unfold tf.mul. rewrite Hx. cbn [bind fst snd].
    apply momentum_and_assign.
    + rewrite shape_clip. congruence.
    + rewrite (assign_slot_shapes _ _ vc new_vc).
      * apply (assign_slot_shapes _ _ vr new_vr); congruence.
      * rewrite lookup_assign_other by congruence. exact Hvc.
      * congruence.
    + exact Hm.
  - destruct Hv as (v & Hv & Hsv).
    unfold get_slot. rewrite Hv. cbn [tf.convert_to_tensor bind].
    destruct (map2_same_shape t_add (tf.scale d v) (tf.scale mix g2))
      as (new_v & Hnv & Hsnv); [rewrite !shape_scale; congruence |].
    rewrite shape_scale in Hsnv.
    unfold tf.add at 1. rewrite Hnv. cbn [bind].
    rewrite (assign_same_shape v new_v) by congruence. cbn [bind].
    destruct (map2_same_shape t_mul grad (tf.map t_rsqrt new_v))
      as (x & Hx & Hsx); [cbn [tf.map shape]; congruence |].
    unfold tf.mul. rewrite Hx. cbn [bind fst snd].
    apply momentum_and_assign.
    + rewrite shape_clip. congruence.
    + apply (assign_slot_shapes _ _ v new_v); congruence.
    + exact Hm.
Qed.

(** Without the slots there is no update: on an empty store the call is
    refused. *)
Lemma apply_without_slots (self : t F) (global_step : nat) (grad : Tensor F)
      (var : Variable_ F) :
  _resource_apply_dense self global_step grad var [] = Raise ValueError.
Proof.
  unfold _resource_apply_dense. cbv zeta.
  destruct (_should_use_factored_second_moment_estimate _ _).
  - unfold tf.reduce_mean_last.
    destruct (len _ <? 1); [reflexivity |]. cbn [bind].
    unfold tf.reduce_mean_penult.
    destruct (len _ <? 2); reflexivity.
  - reflexivity.
Qed.

End UpdateSucceeds.

(** ** AdafactorOptimizer: decay schedules and the mixing rate *)

Lemma truthy_R (x : R) :
  AdafactorOptimizer.truthy x = if Req_dec_T x 0 then false else true.
Proof. reflexivity. Qed.

Lemma truthy_zero_R : AdafactorOptimizer.truthy (t_lit 0 0 : R) = false.
Proof.
  rewrite truthy_R. destruct (Req_dec_T _ 0) as [_ | Hne]; [reflexivity |].
  exfalso. apply Hne. cbn. unfold lit_R. cbn. lra.
Qed.

(** A one-entry variable with its zero accumulator, and the default
    optimizer's update of it at step 0 by the gradient [10^15]. *)
Lemma default_update_runs :
  exists var' ss',
    AdafactorOptimizer._resource_apply_dense (default_optimizer (F := R)) 0
      (mkTensor [1] [(10 ^ 15)%R]) (mkVariable "w" (mkTensor [1] [0%R]))
      [(("v"%string, "w"%string), mkTensor [1] [0%R])]
    = Ok (var', ss').
Proof.
  destruct (apply_with_slots (default_optimizer (F := R)) 0
              (mkTensor [1] [(10 ^ 15)%R])
              (mkVariable "w" (mkTensor [1] [0%R]))
              [(("v"%string, "w"%string), mkTensor [1] [0%R])])
    as (var' & ss' & Hrun & _).
  - split.
    + intros Ht. cbn [default_optimizer AdafactorOptimizer.init
                        AdafactorOptimizer._beta1] in Ht.
      rewrite truthy_zero_R in Ht. discriminate.
    + cbn. eexists. split; reflexivity.
  - reflexivity.
  - eauto.
Qed.

(** C3, as stated, fails in its last part: in the default optimizer's
    update at step 0 of a one-entry variable by the gradient [10^15],
    the decay rate has [mean(grad^2 + epsilon1) * 1e-30], about 1, added
    to it before the mixing rate is taken, so the accumulator that is
    stored is not the average with mixing rate one minus the scheduled
    decay rate. *)
Lemma mixing_rate_follows_schedule_counterexample :
  ~ mixing_rate_follows_schedule (F := R).
Proof.
  intros Hclaim.
  destruct default_update_runs as (var' & ss' & Hrun).
  pose proof (Hclaim _ _ _ _ _ _ _ Hrun) as Hc.
  pose proof (update_second_moment _ _ _ _ _ _ _ Hrun) as Ha.
  unfold second_moment_averaged in Hc, Ha.
  cbn [AdafactorOptimizer._should_use_factored_second_moment_estimate
         default_optimizer AdafactorOptimizer.init
         AdafactorOptimizer._factored var_value shape len List.length
         Z.of_nat Pos.of_succ_nat Z.geb Z.compare Pos.compare
         Pos.compare_cont andb] in Hc, Ha.
  destruct Hc as (v & nv & Hv & Hnv & Hst).
  destruct Ha as (v2 & nv2 & Hv2 & Hnv2 & Hst2).
  cbn in Hv, Hv2. injection Hv as <-. injection Hv2 as <-.
  rewrite Hst2 in Hst. injection Hst as <-.
  rewrite <- Hnv2 in Hnv. clear - Hnv.
  set (x := (10 ^ 15)%R) in Hnv.
  assert (Hx : (0 < x)%R) by (apply pow_lt; lra).
  clearbody x.
  unfold AdafactorOptimizer.decay_rate_used in Hnv.
  set (s := AdafactorOptimizer._decay_rate default_optimizer 0) in Hnv.
  unfold tf.add, tf.map2, tf.scale, tf.map, AdafactorOptimizer.grad_squared,
    tf.add_scalar, tf.square, tf.reduce_mean, tf.map in Hnv.
  cbn [shape data List.map default_optimizer AdafactorOptimizer.init
         AdafactorOptimizer._epsilon1] in Hnv.
  cbv [tf.broadcast_shape tf.broadcast_rev rev app option_map Z.eqb
         tf.broadcast_to tf.pad_rank List.length Nat.sub repeat shape data
         tf.expand tf.num_elements fold_right Z.to_nat Pos.to_nat
         Pos.iter_op tf.groups firstn skipn List.map List.concat Z.mul
         Pos.mul Nat.add tf.zip_with Pos.eqb] in Hnv.
  injection Hnv as Hnv.
  cbn [t_add t_sub t_mul t_mean t_lit TensorOps_R fold_right List.length
         INR] in Hnv.
  set (g := (x * x + lit_R 1 (-30))%R) in Hnv.
  assert (He : (0 < lit_R 1 (-30))%R).
  { unfold lit_R. cbn [Z.ltb Z.compare Z.opp Z.to_nat].
    apply Rdiv_lt_0_compat; [lra | apply pow_lt; lra]. }
  assert (Hg : (0 < g)%R).
  { unfold g. assert (0 < x * x)%R
      by (apply Rmult_lt_0_compat; assumption). lra. }
  set (e := lit_R 1 (-30)) in *.
  assert (Hpos : (0 < g * g * e)%R).
  { apply Rmult_lt_0_compat; [apply Rmult_lt_0_compat |]; assumption. }
  assert (H1 : lit_R 1 0 = 1%R) by (unfold lit_R; cbn; lra).
  rewrite H1 in Hnv. lra.
Qed.

Section DecaySchedules.
Context {F : Type} {ops : TensorOps F}.

(** C3, amended.  Whatever the arithmetic of the carrier: at every step
    [t] that the carrier counts exactly ([(t + 1) - 1 = t]) the decay
    rate of the optimizer [train_main] builds is the Adam-equivalent
    [beta2 * (1 - beta2^t) / (1 - beta2^(t+1))], the decay rate of the
    default optimizer is the power law [1 - (t+1)^-0.8], and every
    successful update has averaged the second-moment accumulators it
    stores with mixing rate one minus the decay rate that the same
    average uses, which is the scheduled decay rate of the step plus
    [mean(grad^2 + epsilon1) * 1e-30]. *)
Theorem decay_schedules_and_mixing_rate
        (learning_rate beta1 beta2 : F) (self : AdafactorOptimizer.t F)
        (t : nat) (grad : Tensor F) (var var' : Variable_ F)
        (ss ss' : slots F) :
  t_sub (t_add (t_to_float t) (t_lit 1 0)) (t_lit 1 0) = t_to_float t ->
  AdafactorOptimizer._resource_apply_dense self t grad var ss
  = Ok (var', ss') ->
  AdafactorOptimizer._decay_rate
    (train_main_optimizer learning_rate beta1 beta2) t
  = t_div (t_mul beta2 (t_sub (t_lit 1 0) (t_pow beta2 (t_to_float t))))
          (t_sub (t_lit 1 0)
                 (t_pow beta2 (t_add (t_to_float t) (t_lit 1 0)))) /\
  AdafactorOptimizer._decay_rate default_optimizer t
  = t_sub (t_lit 1 0)
          (t_pow (t_add (t_to_float t) (t_lit 1 0)) (t_neg (t_lit 8 (-1)))) /\
  second_moment_averaged self
    (t_add (AdafactorOptimizer._decay_rate self t)
           (t_mul (tf.reduce_mean (AdafactorOptimizer.grad_squared self grad))
                  (t_lit 1 (-30))))
    grad var ss ss'.
Proof.
  intros Hexact Hrun. split; [| split].
  - cbn [train_main_optimizer AdafactorOptimizer.init
           AdafactorOptimizer._decay_rate].
    unfold AdafactorOptimizer.adafactor_decay_rate_adam. cbv zeta.
    rewrite Hexact. reflexivity.
  - reflexivity.
  - exact (update_second_moment self t grad var var' ss ss' Hrun).
Qed.

End DecaySchedules.

Lemma truthy_nonzero_R (x : R) :
  x <> 0%R -> AdafactorOptimizer.truthy x = true.
Proof.
  intros Hx. rewrite truthy_R. destruct (Req_dec_T x 0); congruence.
Qed.

Lemma decay_schedules_and_mixing_rate_witness :
  let self := train_main_optimizer (1 / 1000)%R (9 / 10)%R (999 / 1000)%R in
  let var := mkVariable "model/h0/attn/w" (tf.zeros [4; 3]) in
  let grad := mkTensor [4; 3] [1; 2; 3; 4; 5; 6; 7; 8; 9; 10; 11; 12]%R in
  let ss := AdafactorOptimizer._create_slots self [var] [] in
  exists var' ss',
    AdafactorOptimizer._resource_apply_dense self 2 grad var ss
    = Ok (var', ss') /\
    second_moment_averaged self
      (AdafactorOptimizer._decay_rate self 2
       + tf.reduce_mean (AdafactorOptimizer.grad_squared self grad)
         * t_lit 1 (-30))%R
      grad var ss ss'.
Proof.
  cbv zeta.
  destruct (apply_with_slots
              (train_main_optimizer (1 / 1000)%R (9 / 10)%R (999 / 1000)%R) 2
              (mkTensor [4; 3] [1; 2; 3; 4; 5; 6; 7; 8; 9; 10; 11; 12]%R)
              (mkVariable "model/h0/attn/w" (tf.zeros [4; 3]))
              (AdafactorOptimizer._create_slots
                 (train_main_optimizer (1 / 1000)%R (9 / 10)%R (999 / 1000)%R)
                 [mkVariable "model/h0/attn/w" (tf.zeros [4; 3])] []))
    as (var' & ss' & Hrun & _).
  - assert (Ht : AdafactorOptimizer.truthy (9 / 10)%R = true)
      by (apply truthy_nonzero_R; lra).
    unfold AdafactorOptimizer._create_slots,
      AdafactorOptimizer.create_slots_for.
    cbn [fold_left train_main_optimizer AdafactorOptimizer.init
           AdafactorOptimizer._beta1].
    rewrite Ht. split.
    + intros _. cbn. eexists. split; reflexivity.
    + cbn. split; eexists; split; reflexivity.
  - reflexivity.
  - exists var', ss'. split; [exact Hrun |].
    refine (proj2 (proj2 (decay_schedules_and_mixing_rate
             (1 / 1000)%R (9 / 10)%R (999 / 1000)%R
             (train_main_optimizer (1 / 1000)%R (9 / 10)%R (999 / 1000)%R) 2
             (mkTensor [4; 3] [1; 2; 3; 4; 5; 6; 7; 8; 9; 10; 11; 12]%R)
             (mkVariable "model/h0/attn/w" (tf.zeros [4; 3])) var' _ ss'
             _ Hrun))).
    cbn. lra.
Defined.
(* ===================================================================== *)
(** * Further properties                                                  *)
(* ===================================================================== *)

(** ** binary_search on arbitrary predicates and degenerate intervals *)

(** X1.  [binary_search] needs no monotonicity to find a boundary: for a
    predicate that is false at [lo] and true at [hi] it returns an index
    in (lo, hi] where the predicate flips from false to true, and it
    never calls the predicate outside [lo, hi]: the callable may raise
    anywhere else. *)
Theorem binary_search_finds_a_flip
        (f : Z -> result bool) (p : Z -> bool) (lo hi : Z) :
  (forall j, lo <= j <= hi -> f j = Ok (p j)) ->
  lo <= hi -> p lo = false -> p hi = true ->
  exists r, binary_search f lo hi = Ok (Some r) /\
            lo < r <= hi /\ p (r - 1) = false /\ p r = true.
Proof.
  intros Hf Hle Hlo Hhi.
  destruct (binary_search_spec f p lo hi Hf Hle) as [_ Hsome].
  exact (Hsome Hlo Hhi).
Qed.

Lemma binary_search_finds_a_flip_witness :
  exists r,
    binary_search
      (fun j => if (0 <=? j) && (j <=? 9)
                then Ok (Z.odd j || (j =? 9)) else Raise IndexError)
      0 9 = Ok (Some r) /\
    0 < r <= 9 /\ (Z.odd (r - 1) || (r - 1 =? 9)) = false /\
    (Z.odd r || (r =? 9)) = true.
Proof.
  apply (binary_search_finds_a_flip
           (fun j => if (0 <=? j) && (j <=? 9)
                     then Ok (Z.odd j || (j =? 9)) else Raise IndexError)
           (fun j => Z.odd j || (j =? 9)) 0 9).
  - intros j Hj.
    replace ((0 <=? j) && (j <=? 9)) with true; [reflexivity |].
    symmetry. apply andb_true_iff. split; apply Z.leb_le; lia.
  - lia.
  - reflexivity.
  - reflexivity.
Defined.

(** X2.  On an interval with no interior the loop body never runs: with
    [lo = hi] the search gives [None] whatever the predicate answers, and
    with [hi <= lo + 1], predicate false at [lo] and true at [hi], it
    gives [hi] itself, also when [hi] lies below [lo]. *)
Theorem binary_search_degenerate (f : Z -> result bool) (lo hi : Z) :
  (forall b, f lo = Ok b -> binary_search f lo lo = Ok None) /\
  (hi <= lo + 1 -> f lo = Ok false -> f hi = Ok true ->
   binary_search f lo hi = Ok (Some hi)).
Proof.
  split.
  - intros b Hb. unfold binary_search. rewrite Hb. cbn [bind].
    destruct b; reflexivity.
  - intros Hgap Hlo Hhi. unfold binary_search. rewrite Hlo, Hhi. cbn.
    rewrite binary_search_loop_equation_1.
    destruct (Z_gt_dec hi (lo + 1)); [lia | reflexivity].
Qed.

Lemma binary_search_degenerate_witness :
  binary_search (pure_pred (fun j => j <? 4)) 5 2 = Ok (Some 2).
Proof.
  apply (binary_search_degenerate (pure_pred (fun j => j <? 4)) 5 2).
  - lia.
  - reflexivity.
  - reflexivity.
Defined.

(** ** Sampler: the constructor's invariant *)

Lemma offsets_nth_concat (cs : list chunk) (b : Z) (i : nat) :
  (i <= List.length cs)%nat ->
  nth i (offsets_from b cs) 0 = b + len (List.concat (firstn i cs)).
Proof.
  revert b i. induction cs as [| c cs IH]; intros b i Hi.
  - assert (i = 0)%nat as -> by (cbn in Hi; lia). cbn. lia.
  - destruct i as [| i].
    + cbn. lia.
    + change (nth i (offsets_from (b + len c) cs) 0
              = b + len (c ++ List.concat (firstn i cs))).
      rewrite IH by (cbn in Hi; lia). unfold len. rewrite length_app. lia.
Qed.

Lemma last_nth_length (l : list Z) (d : Z) :
  last l d = nth (List.length l - 1) l d.
Proof.
  induction l as [| a l IH]; [reflexivity |].
  destruct l as [| a' l]; [reflexivity |].
  change (last (a' :: l) d = nth (List.length (a' :: l)) (a :: a' :: l) d).
  rewrite IH. cbn [List.length nth].
  replace (S (List.length l) - 1)%nat with (List.length l) by lia.
  reflexivity.
Qed.

(** X3.  The constructor leaves the sampler with one boundary more than
    it has chunks; the boundaries start at 0, never decrease, each step is
    the size of the chunk between the two boundaries, and the last one is
    [total_size], the number of tokens of all chunks together. *)
Theorem sampler_init_invariant (cs : list chunk) :
  let s := Sampler_init cs in
  let bs := boundaries s in
  chunks s = cs /\
  List.length bs = S (List.length cs) /\
  nth 0 bs 0 = 0 /\
  (forall i c, nth_error cs i = Some c ->
               nth (S i) bs 0 = nth i bs 0 + len c) /\
  (forall i k, (i <= k <= List.length cs)%nat -> nth i bs 0 <= nth k bs 0) /\
  last bs 0 = total_size s /\
  total_size s = len (List.concat cs).
Proof.
  intros s bs.
  assert (Hbs : bs = offsets_from 0 cs) by apply boundaries_init.
  assert (Htot : total_size s = nth (List.length cs) bs 0)
    by apply total_size_init.
  repeat split.
  - rewrite Hbs. apply offsets_length.
  - rewrite Hbs. apply offsets_head.
  - intros i c Hc. rewrite Hbs.
    rewrite offsets_step by (apply nth_error_Some; congruence).
    rewrite (nth_error_nth cs i [] Hc). reflexivity.
  - intros i k Hik. rewrite Hbs. apply offsets_mono. exact Hik.
  - rewrite Htot, last_nth_length, Hbs, offsets_length. f_equal. lia.
  - rewrite Htot, Hbs, offsets_nth_concat by lia.
    rewrite firstn_all. lia.
Qed.

(** ** Sampler.sample: the window, the tape and the errors *)

Lemma concat_split (cs : list chunk) (i : nat) (c : chunk) :
  nth_error cs i = Some c ->
  List.concat cs
  = List.concat (firstn i cs) ++ c ++ List.concat (skipn (S i) cs).
Proof.
  revert i. induction cs as [| c0 cs IH]; intros i Hc.
  - destruct i; discriminate.
  - destruct i as [| i].
    + injection Hc as ->. reflexivity.
    + cbn [firstn skipn List.concat]. rewrite (IH i Hc) at 1.
      rewrite <- app_assoc. reflexivity.
Qed.

(** An accepted index lies in the corpus, inside a chunk that extends
    strictly beyond the window. *)
Lemma sample_attempt_accepts (cs : list chunk) (length index : Z) (w : chunk) :
  sample_attempt (Sampler_init cs) length index = Ok (Some w) ->
  exists (i : nat) (c : chunk) (o : Z),
    nth_error cs i = Some c /\
    o = nth i (boundaries (Sampler_init cs)) 0 /\
    o <= index /\ index + length < o + len c /\
    o + len c <= total_size (Sampler_init cs) /\
    w = slice c (index - o) (index - o + length).
Proof.
  intros Hacc.
  destruct (Z_lt_dec index 0) as [Hneg | Hnn].
  { rewrite sample_attempt_outside in Hacc by lia. discriminate. }
  destruct (Z_le_dec (total_size (Sampler_init cs)) index) as [Hbig | Hin].
  { rewrite sample_attempt_outside in Hacc by lia. discriminate. }
  destruct (sample_attempt_inside cs length index ltac:(lia))
    as (i & c & o & Hc & Ho & Hnext & Hio & _ & Hatt).
  rewrite Hatt in Hacc.
  destruct (o + len c >? index + length) eqn:Hcmp; [| discriminate].
  rewrite Z.gtb_ltb in Hcmp. apply Z.ltb_lt in Hcmp.
  injection Hacc as <-.
  exists i, c, o. repeat split; try assumption; try lia; auto.
  rewrite <- Hnext, total_size_init, boundaries_init.
  apply offsets_mono.
  assert (i < List.length cs)%nat by (apply nth_error_Some; congruence). lia.
Qed.

(** X4.  An accepted window is the stretch [index, index + length) of the
    concatenation of all chunks, and it ends strictly before the end of
    the corpus: sampling reads the corpus as one concatenated chunk. *)
Theorem sample_attempt_is_corpus_slice
        (cs : list chunk) (length index : Z) (w : chunk) :
  0 <= length ->
  sample_attempt (Sampler_init cs) length index = Ok (Some w) ->
  0 <= index /\
  index + length < total_size (Sampler_init cs) /\
  w = slice (List.concat cs) index (index + length).
Proof.
  intros Hlen Hacc.
  destruct (sample_attempt_accepts cs length index w Hacc)
    as (i & c & o & Hc & Ho & Hlo & Hhi & Htot & ->).
  assert (Hi : (i < List.length cs)%nat)
    by (apply nth_error_Some; congruence).
  rewrite boundaries_init, offsets_nth_concat in Ho by lia.
  assert (Ho0 : 0 <= o) by (subst o; pose proof (len_nonneg (List.concat (firstn i cs))); lia).
  assert (Hall : total_size (Sampler_init cs) = len (List.concat cs)).
  { rewrite total_size_init, boundaries_init, offsets_nth_concat by lia.
    rewrite firstn_all. lia. }
  repeat split; try lia.
  destruct (slice_inside c (index - o) length) as [-> _]; try lia.
  destruct (slice_inside (List.concat cs) index length) as [-> _]; try lia.
  rewrite (concat_split cs i c Hc).
  set (P := List.concat (firstn i cs)) in *.
  set (S' := List.concat (skipn (S i) cs)).
  assert (HP : Z.of_nat (List.length P) = o) by (unfold len in Ho; lia).
  rewrite skipn_app.
  rewrite (skipn_all2 P) by lia. cbn [app].
  replace (Z.to_nat index - List.length P)%nat with (Z.to_nat (index - o))
    by lia.
  rewrite skipn_app, firstn_app.
  unfold len in Hhi.
  replace (Z.to_nat length - List.length (skipn (Z.to_nat (index - o)) c))%nat
    with 0%nat by (rewrite length_skipn; lia).
  cbn [firstn]. rewrite app_nil_r. reflexivity.
Qed.

Lemma sample_attempt_is_corpus_slice_witness :
  [13; 14; 15] = slice (List.concat three_chunks) 12 (12 + 3).
Proof.
  apply (sample_attempt_is_corpus_slice three_chunks 3 12 [13; 14; 15]).
  - lia.
  - reflexivity.
Defined.

(** X5.  A returned window never reaches the last token of its chunk:
    at least one token of the chunk follows it. *)
Theorem sample_leaves_last_token
        (cs : list chunk) (length : Z) (tape : list Z)
        (w : chunk) (rest : list Z) :
  sample (Sampler_init cs) length tape = (Returned w, rest) ->
  exists (i : nat) (c : chunk) (off : Z),
    nth_error cs i = Some c /\
    0 <= off /\ off + length < len c /\
    w = slice c off (off + length).
Proof.
  unfold sample. destruct (floordiv _ _) as [avg | e]; [| discriminate].
  destruct (length <? avg); [| discriminate].
  induction tape as [| index tape IH]; cbn [sample_loop].
  - destruct (0 >? _); discriminate.
  - destruct (0 >? _) eqn:Hrange; [discriminate |].
    destruct (sample_attempt (Sampler_init cs) length index)
      as [[w' |] | e] eqn:Hatt.
    + intros [= <- _].
      destruct (sample_attempt_accepts cs length index w' Hatt)
        as (i & c & o & Hc & _ & Hlo & Hhi & _ & Hw).
      exists i, c, (index - o). repeat split; try assumption; lia.
    + exact IH.
    + discriminate.
Qed.

Lemma sample_leaves_last_token_witness :
  exists (i : nat) (c : chunk) (off : Z),
    nth_error three_chunks i = Some c /\
    0 <= off /\ off + 3 < len c /\
    [13; 14; 15] = slice c off (off + 3).
Proof.
  apply (sample_leaves_last_token three_chunks 3 [7; 8; 12; 0]
           [13; 14; 15] [0]).
  reflexivity.
Defined.

Lemma sample_can_return_witness :
  exists (index : Z) (w : chunk),
    0 <= index <= total_size (Sampler_init three_chunks) - 9 - 1 /\
    window_of three_chunks 9 w /\
    forall tape,
      sample (Sampler_init three_chunks) 9 (index :: tape) = (Returned w, tape).
Proof.
  apply (sample_can_return three_chunks 9).
  - discriminate.
  - lia.
  - vm_compute. reflexivity.
Defined.

(** X6.  [sample] reads the tape of random draws up to the first accepted
    one and no further: the draws before it were all rejected, the
    returned window is that of the accepted draw, and the draws after it
    are left for the next call. *)
Theorem sample_consumes_up_to_accepted
        (cs : list chunk) (length : Z) (tape : list Z)
        (w : chunk) (rest : list Z) :
  sample (Sampler_init cs) length tape = (Returned w, rest) ->
  exists (rejected : list Z) (index : Z),
    tape = rejected ++ index :: rest /\
    Forall (fun d => sample_attempt (Sampler_init cs) length d = Ok None)
           rejected /\
    sample_attempt (Sampler_init cs) length index = Ok (Some w).
Proof.
  unfold sample. destruct (floordiv _ _) as [avg | e]; [| discriminate].
  destruct (length <? avg); [| discriminate].
  induction tape as [| d tape IH]; cbn [sample_loop].
  - destruct (0 >? _); discriminate.
  - destruct (0 >? _) eqn:Hrange; [discriminate |].
    destruct (sample_attempt (Sampler_init cs) length d)
      as [[w' |] | e] eqn:Hatt.
    + intros [= <- <-]. exists [], d. repeat split; auto.
    + intros Hloop. destruct (IH Hloop) as (rej & index & -> & Hrej & Hacc).
      exists (d :: rej), index. repeat split; auto.
    + discriminate.
Qed.

Lemma sample_consumes_up_to_accepted_witness :
  exists (rejected : list Z) (index : Z),
    [7; 8; 12; 0] = rejected ++ index :: [0] /\
    Forall (fun d => sample_attempt (Sampler_init three_chunks) 3 d = Ok None)
           rejected /\
    sample_attempt (Sampler_init three_chunks) 3 index
    = Ok (Some [13; 14; 15]).
Proof.
  apply (sample_consumes_up_to_accepted three_chunks 3 [7; 8; 12; 0]).
  reflexivity.
Defined.

Lemma total_size_nonneg (cs : list chunk) : 0 <= total_size (Sampler_init cs).
Proof.
  rewrite total_size_init, boundaries_init.
  pose proof (offsets_mono cs 0 0 (List.length cs) ltac:(lia)) as Hm.
  rewrite offsets_head in Hm. exact Hm.
Qed.

(** Once the assertion of [sample] has passed, the range handed to
    [random.randint] is not empty. *)
Lemma randint_range_nonempty (cs : list chunk) (length : Z) :
  cs <> [] ->
  length < total_size (Sampler_init cs) / len cs ->
  0 <= total_size (Sampler_init cs) - length - 1.
Proof.
  intros Hne Hpre.
  pose proof (total_size_nonneg cs) as Hnn.
  assert (Hn : 0 < len cs)
    by (unfold len; destruct cs; [congruence | cbn; lia]).
  pose proof (Z.mul_div_le (total_size (Sampler_init cs)) (len cs) Hn).
  nia.
Qed.

Lemma sample_loop_raises (cs : list chunk) (length : Z) (tape : list Z)
      (e : exn) (rest : list Z) :
  0 <= total_size (Sampler_init cs) - length - 1 ->
  sample_loop (Sampler_init cs) length tape = (Raised e, rest) ->
  e = TypeError /\
  exists pre d, tape = pre ++ d :: rest /\
                (d < 0 \/ total_size (Sampler_init cs) <= d).
Proof.
  intros Hrange.
  assert (Hr : (0 >? total_size (Sampler_init cs) - length - 1) = false)
    by (rewrite Z.gtb_ltb; apply Z.ltb_ge; lia).
  induction tape as [| d tape IH]; cbn [sample_loop]; rewrite Hr.
  - discriminate.
  - destruct (Z_lt_dec d 0) as [Hneg | Hnn].
    { rewrite sample_attempt_outside by lia. intros [= <- <-].
      split; [reflexivity |]. exists [], d. split; [reflexivity | lia]. }
    destruct (Z_le_dec (total_size (Sampler_init cs)) d) as [Hbig | Hin].
    { rewrite sample_attempt_outside by lia. intros [= <- <-].
      split; [reflexivity |]. exists [], d. split; [reflexivity | lia]. }
    destruct (sample_attempt_inside cs length d ltac:(lia))
      as (i & c & o & _ & _ & _ & _ & _ & ->).
    destruct (o + len c >? d + length); [discriminate |].
    intros Hloop. destruct (IH Hloop) as (He & pre & d' & -> & Hd').
    split; [exact He |]. exists (d :: pre), d'. split; [reflexivity | exact Hd'].
Qed.

(** X7.  The errors of [sample] are three and no more: ZeroDivisionError
    when the sampler has no chunk, the AssertionError naming [length]
    when the precondition fails, both before any draw is read, and
    TypeError when a draw outside [0, total_size) is read.  It never
    raises IndexError or ValueError: once the assertion has passed, the
    range given to [random.randint] is not empty and every index it uses
    is in bounds. *)
Theorem sample_errors
        (cs : list chunk) (length : Z) (tape : list Z)
        (e : exn) (rest : list Z) :
  let s := Sampler_init cs in
  sample s length tape = (Raised e, rest) ->
  (cs = [] /\ e = ZeroDivisionError /\ rest = tape) \/
  (cs <> [] /\ ~ length < total_size s / len cs /\
   e = AssertionError (too_small_msg length) /\ rest = tape) \/
  (cs <> [] /\ length < total_size s / len cs /\ e = TypeError /\
   exists pre d, tape = pre ++ d :: rest /\ (d < 0 \/ total_size s <= d)).
Proof.
  intros s. unfold sample, floordiv.
  change (len (chunks s)) with (len cs).
  destruct (len cs =? 0) eqn:Hn.
  - apply Z.eqb_eq in Hn.
    assert (cs = []) by (destruct cs; [reflexivity | unfold len in Hn; cbn in Hn; lia]).
    intros [= <- <-]. left. auto.
  - apply Z.eqb_neq in Hn.
    assert (Hne : cs <> []) by (intros ->; apply Hn; reflexivity).
    destruct (length <? total_size s / len cs) eqn:Hpre.
    + apply Z.ltb_lt in Hpre. intros Hloop. right; right.
      destruct (sample_loop_raises cs length tape e rest
                  (randint_range_nonempty cs length Hne Hpre) Hloop)
        as (He & Hd).
      repeat split; assumption.
    + apply Z.ltb_ge in Hpre. intros [= <- <-]. right; left.
      repeat split; auto. lia.
Qed.

Lemma sample_errors_witness :
  (three_chunks <> [] /\
   3 < total_size (Sampler_init three_chunks) / len three_chunks /\
   exists pre d, [7; 40; 1] = pre ++ d :: [1] /\
                 (d < 0 \/ total_size (Sampler_init three_chunks) <= d)).
Proof.
  destruct (sample_errors three_chunks 3 [7; 40; 1] TypeError [1])
    as [(H & _) | [(_ & _ & H & _) | (H1 & H2 & _ & H3)]].
  - reflexivity.
  - discriminate H.
  - discriminate H.
  - auto.
Defined.

(** ** The training loop as a whole *)

Lemma train_loop_eq {F : Type} `{FloatOps F}
      (cfg : Train.config) (m : Train.model) (every : Z) (s : Train.state) :
  Train.train_loop cfg m every s =
  if Train.counter s <? Train.stop_after cfg then
    match Train.iteration cfg m every s with
    | Ok s' => Train.train_loop cfg m every s'
    | Raise e => Raise e
    end
  else Ok s.
Proof. exact (train_loop_unfold cfg m every s). Qed.

Section TrainingRun.
Import Train.
Context {F : Type} `{FloatOps F}.

Lemma iteration_counter_up (cfg : config) (m : model) (every : Z)
      (s s' : state) :
  iteration cfg m every s = Ok s' ->
  counter s < stop_after cfg -> counter s < counter s'.
Proof.
  intros Hit Hrun.
  destruct (iteration_inv cfg m every s s' Hit) as (_ & _ & _ & _ & Hc).
  cbn zeta in Hc. destruct (_ && _) in Hc; lia.
Qed.

(** Whatever every iteration preserves holds when the loop returns, and
    the loop returns only with the counter at or past the budget. *)
Lemma train_loop_induct (cfg : config) (m : model) (every : Z)
      (P : state -> Prop) :
  (forall s s', counter s < stop_after cfg ->
                iteration cfg m every s = Ok s' -> P s -> P s') ->
  forall s s', train_loop cfg m every s = Ok s' -> P s ->
               P s' /\ stop_after cfg <= counter s'.
Proof.
  intros Hstep s.
  remember (Z.to_nat (stop_after cfg - counter s)) as n eqn:Hn.
  revert s Hn. induction n as [n IH] using lt_wf_ind.
  intros s Hn s' Hrun HP. rewrite train_loop_eq in Hrun.
  destruct (counter s <? stop_after cfg) eqn:Hlt.
  - apply Z.ltb_lt in Hlt.
    destruct (iteration cfg m every s) as [s1 |] eqn:Hit; [| discriminate].
    pose proof (iteration_counter_up cfg m every s s1 Hit Hlt) as Hup.
    apply (IH (Z.to_nat (stop_after cfg - counter s1)) ltac:(lia) s1 eq_refl);
      [exact Hrun |].
    exact (Hstep s s1 Hlt Hit HP).
  - apply Z.ltb_ge in Hlt. injection Hrun as <-. split; [exact HP | lia].
Qed.

Lemma iteration_ok (cfg : config) (m : model) (every : Z) (s : state) :
  sample_every cfg <> 0 -> every <> 0 ->
  exists s', iteration cfg m every s = Ok s'.
Proof.
  intros Hse Hev. unfold iteration, samples_step, mod_.
  apply Z.eqb_neq in Hse. apply Z.eqb_neq in Hev. rewrite Hse. cbn [bind].
  unfold validation_step, at_cadence, mod_. rewrite Hev.
  destruct (counter (train_step m _) mod 5 =? 0); cbn [bind].
  - destruct (_ >=? every); cbn [bind]; eexists; reflexivity.
  - eexists; reflexivity.
Qed.

(** X9.  Started at or below the budget with fewer than ten misses, the
    loop can end in two ways only, and the final counter tells them
    apart: [stop_after] itself when the budget is used up, and
    [stop_after + 2] with exactly ten misses on an early stop. *)
Theorem train_loop_final_counter (cfg : config) (m : model) (every : Z)
        (s s' : state) :
  counter s <= stop_after cfg ->
  missed_val_checkpoints s <= 9 ->
  train_loop cfg m every s = Ok s' ->
  (counter s' = stop_after cfg /\ missed_val_checkpoints s' <= 9) \/
  (counter s' = stop_after cfg + 2 /\ missed_val_checkpoints s' = 10).
Proof.
  intros Hc Hm Hrun.
  destruct (train_loop_induct cfg m every
              (fun s1 => (counter s1 <= stop_after cfg /\
                          missed_val_checkpoints s1 <= 9) \/
                         (counter s1 = stop_after cfg + 2 /\
                          missed_val_checkpoints s1 = 10)))
    with (s := s) (s' := s') as [[Hok | Hstop] Hge]; auto.
  - intros s1 s2 Hlt Hit [[_ Hm1] | [Hc1 _]]; [| lia].
    destruct (iteration_inv cfg m every s1 s2 Hit)
      as (Hmiss & _ & _ & _ & Hcnt).
    cbn zeta in *.
    destruct (counter s1 mod 5 =? 0) eqn:H5; cbn [andb] in Hcnt.
    + destruct (missed_val_checkpoints s2 >? 9) eqn:Hgt.
      * right. rewrite Z.gtb_ltb in Hgt. apply Z.ltb_lt in Hgt.
        split; [lia |].
        destruct (decision_due every (counter s1));
          [destruct (flt _ _) |]; lia.
      * left. rewrite Z.gtb_ltb in Hgt. apply Z.ltb_ge in Hgt. lia.
    + left. unfold decision_due in Hmiss. rewrite H5 in Hmiss.
      cbn [andb] in Hmiss. lia.
  - left. lia.
Qed.

Lemma iteration_actions (cfg : config) (m : model) (every : Z)
      (s s' : state) :
  iteration cfg m every s = Ok s' ->
  without_saves (trace s')
  = without_saves (trace s)
    ++ scheduled_actions (sample_every cfg) (counter s).
Proof.
  intros Hit.
  unfold iteration, samples_step, mod_ in Hit.
  destruct (sample_every cfg =? 0); [discriminate |].
  cbn [bind] in Hit. unfold scheduled_actions.
  unfold validation_step, at_cadence, mod_ in Hit.
  destruct (counter s mod sample_every cfg =? 0);
    cbn [counter emit train_step val_loss best_val_loss
         missed_val_checkpoints trace] in Hit;
    (destruct (counter s mod 5 =? 0);
     [ destruct (counter s >=? every);
       [ destruct (every =? 0); [discriminate |];
         cbn [bind] in Hit;
         destruct (counter s mod every =? 0) |];
       cbn [bind] in Hit;
       unfold checkpoint_decision, early_stop_check in Hit;
       cbn [counter emit train_step val_loss best_val_loss
            missed_val_checkpoints trace] in Hit;
       try destruct (flt _ (best_val_loss s));
       cbn [counter emit train_step val_loss best_val_loss
            missed_val_checkpoints trace] in Hit;
       match type of Hit with
       | context [if ?b then _ else _] => destruct b
       end
     | cbn [bind] in Hit ];
     injection Hit as <-;
     cbn [counter emit advance train_step val_loss best_val_loss
          missed_val_checkpoints trace];
     unfold without_saves;
     rewrite ?filter_app; cbn [filter is_save negb app];
     rewrite <- ?app_assoc; cbn [app]; rewrite ?app_nil_r; reflexivity).
Qed.

Lemma Zseq_snoc (start : Z) (n : nat) :
  Zseq start (S n) = Zseq start n ++ [start + Z.of_nat n].
Proof. unfold Zseq. rewrite seq_S, map_app. reflexivity. Qed.

(** X10.  The loop visits the counters one by one from its start value:
    without the checkpoints, the trace it adds is, for each visited
    counter in turn, a sample generation when the counter is a multiple
    of [sample_every], then one training step, then a validation pass
    when the counter is a multiple of 5.  It visits every counter below
    the budget unless it stops early. *)
Theorem train_loop_schedule (cfg : config) (m : model) (every : Z)
        (s s' : state) :
  counter s <= stop_after cfg ->
  missed_val_checkpoints s <= 9 ->
  train_loop cfg m every s = Ok s' ->
  exists n : nat,
    without_saves (trace s')
    = without_saves (trace s)
      ++ flat_map (scheduled_actions (sample_every cfg))
                  (Zseq (counter s) n) /\
    Z.of_nat n <= stop_after cfg - counter s /\
    (missed_val_checkpoints s' <= 9 ->
     Z.of_nat n = stop_after cfg - counter s).
Proof.
  intros Hc Hm Hrun.
  set (P := fun s1 : @state F =>
              exists n : nat,
                without_saves (trace s1)
                = without_saves (trace s)
                  ++ flat_map (scheduled_actions (sample_every cfg))
                              (Zseq (counter s) n) /\
                Z.of_nat n <= stop_after cfg - counter s /\
                ((counter s1 = counter s + Z.of_nat n /\
                  missed_val_checkpoints s1 <= 9) \/
                 (counter s1 = stop_after cfg + 2 /\
                  missed_val_checkpoints s1 = 10))).
  assert (Hstep : forall s1 s2, counter s1 < stop_after cfg ->
                    iteration cfg m every s1 = Ok s2 -> P s1 -> P s2).
  { intros s1 s2 Hlt Hit (n & Htr & Hn & [[Hc1 Hm1] | [Hc1 _]]); [| lia].
    exists (S n). rewrite Zseq_snoc, flat_map_app. cbn [flat_map].
    rewrite app_nil_r, app_assoc, <- Htr, <- Hc1.
    split; [exact (iteration_actions cfg m every s1 s2 Hit) |].
    split; [lia |].
    destruct (iteration_inv cfg m every s1 s2 Hit)
      as (Hmiss & _ & _ & _ & Hcnt).
    cbn zeta in *.
    destruct (counter s1 mod 5 =? 0) eqn:H5; cbn [andb] in Hcnt.
    + destruct (missed_val_checkpoints s2 >? 9) eqn:Hgt.
      * right. rewrite Z.gtb_ltb in Hgt. apply Z.ltb_lt in Hgt.
        split; [lia |].
        destruct (decision_due every (counter s1));
          [destruct (flt _ _) |]; lia.
      * left. rewrite Z.gtb_ltb in Hgt. apply Z.ltb_ge in Hgt. lia.
    + left. unfold decision_due in Hmiss. rewrite H5 in Hmiss.
      cbn [andb] in Hmiss. lia. }
  assert (H0 : P s).
  { exists 0%nat. cbn. rewrite app_nil_r. repeat split; lia. }
  destruct (train_loop_induct cfg m every P Hstep s s' Hrun H0)
    as [(n & Htr & Hn & Hend) Hge].
  exists n. repeat split; try assumption. intros Hle.
  destruct Hend as [[Hc1 _] | [_ H10]]; lia.
Qed.

(** X11.  Every checkpoint the loop writes is written at an iteration
    inside the run, on a validation iteration on which the cadence test
    holds; checkpoints are never written anywhere else. *)
Theorem train_loop_saves (cfg : config) (m : model) (every : Z)
        (s s' : state) :
  train_loop cfg m every s = Ok s' ->
  exists l : list Z,
    saves (trace s') = saves (trace s) ++ List.map Save l /\
    Forall (fun c => counter s <= c < stop_after cfg /\
                     c mod 5 = 0 /\ every <= c /\ c mod every = 0) l.
Proof.
  intros Hrun.
  destruct (train_loop_induct cfg m every
              (fun s1 =>
                 counter s <= counter s1 /\
                 exists l : list Z,
                   saves (trace s1) = saves (trace s) ++ List.map Save l /\
                   Forall (fun c => counter s <= c < stop_after cfg /\
                                    c mod 5 = 0 /\ every <= c /\
                                    c mod every = 0) l))
    with (s := s) (s' := s') as [[_ Hl] _]; auto.
  - intros s1 s2 Hlt Hit (Hc1 & l & Hsv & Hall).
    pose proof (iteration_counter_up cfg m every s1 s2 Hit Hlt) as Hup.
    split; [lia |].
    destruct (iteration_inv cfg m every s1 s2 Hit)
      as (_ & _ & Hsaves & _ & _).
    cbn zeta in Hsaves.
    destruct (decision_due every (counter s1) && _) eqn:Hdue.
    + exists (l ++ [counter s1]). rewrite map_app, app_assoc, <- Hsv.
      split; [exact Hsaves |].
      apply Forall_app. split; [exact Hall |]. constructor; [| constructor].
      apply andb_true_iff in Hdue as [Hdue _]. unfold decision_due in Hdue.
      rewrite !andb_true_iff, !Z.eqb_eq, Z.geb_le in Hdue. lia.
    + exists l. rewrite app_nil_r in Hsaves. rewrite Hsaves. auto.
  - split; [lia |]. exists []. cbn. rewrite app_nil_r. auto.
Qed.

(** With nonzero cadences every iteration succeeds, so the loop returns. *)
Lemma train_loop_runs (cfg : config) (m : model) (every : Z) (s : state) :
  sample_every cfg <> 0 -> every <> 0 ->
  exists s', train_loop cfg m every s = Ok s' /\
             stop_after cfg <= counter s'.
Proof.
  intros Hse Hev.
  remember (Z.to_nat (stop_after cfg - counter s)) as n eqn:Hn.
  revert s Hn. induction n as [n IH] using lt_wf_ind. intros s Hn.
  rewrite train_loop_eq.
  destruct (counter s <? stop_after cfg) eqn:Hlt.
  - apply Z.ltb_lt in Hlt.
    destruct (iteration_ok cfg m every s Hse Hev) as [s1 Hit]. rewrite Hit.
    pose proof (iteration_counter_up cfg m every s s1 Hit Hlt).
    apply (IH (Z.to_nat (stop_after cfg - counter s1))); lia.
  - apply Z.ltb_ge in Hlt. exists s. split; [reflexivity | lia].
Qed.

(** X12.  A zero cadence is a division by zero, not a disabled feature:
    with [sample_every = 0] the loop raises ZeroDivisionError at its first
    iteration, before any training step; with a nonzero [sample_every]
    and a nonzero checkpoint cadence its own arithmetic never fails and
    it runs to its end. *)
Theorem train_loop_zero_cadence (cfg : config) (m : model) (every : Z)
        (s : state) :
  (sample_every cfg = 0 -> counter s < stop_after cfg ->
   train_loop cfg m every s = Raise ZeroDivisionError) /\
  (sample_every cfg <> 0 -> every <> 0 ->
   exists s', train_loop cfg m every s = Ok s' /\
              stop_after cfg <= counter s').
Proof.
  split.
  - intros Hse Hlt. rewrite train_loop_eq.
    replace (counter s <? stop_after cfg) with true
      by (symmetry; apply Z.ltb_lt; lia).
    unfold iteration, samples_step, mod_. rewrite Hse. reflexivity.
  - intros Hse Hev. exact (train_loop_runs cfg m every s Hse Hev).
Qed.

Lemma loop_zero_checkpoint_cadence (cfg : config) (m : model) (k : nat) :
  sample_every cfg <> 0 ->
  forall s, 0 <= counter s ->
            (counter s + Z.of_nat k) mod 5 = 0 ->
            counter s + Z.of_nat k < stop_after cfg ->
            train_loop cfg m 0 s = Raise ZeroDivisionError.
Proof.
  intros Hse. apply Z.eqb_neq in Hse.
  induction k as [| k IH]; intros s Hnn H5 Hlt; rewrite train_loop_eq.
  - replace (counter s <? stop_after cfg) with true
      by (symmetry; apply Z.ltb_lt; lia).
    unfold iteration, samples_step, validation_step, at_cadence, mod_.
    rewrite Hse. cbn [bind].
    assert (Hc : forall b : bool,
               counter (train_step m
                 (if b then emit (GenerateSamples (counter s)) s else s))
               = counter s) by (intros []; reflexivity).
    rewrite !Hc.
    replace (counter s mod 5 =? 0) with true
      by (symmetry; apply Z.eqb_eq; rewrite Z.add_0_r in H5; exact H5).
    cbn [counter emit].
    rewrite !Hc.
    replace (counter s >=? 0) with true
      by (symmetry; rewrite Z.geb_leb; apply Z.leb_le; lia).
    reflexivity.
  - replace (counter s <? stop_after cfg) with true
      by (symmetry; apply Z.ltb_lt; lia).
    destruct (iteration cfg m 0 s) as [s1 | e] eqn:Hit.
    + destruct (iteration_inv cfg m 0 s s1 Hit) as (_ & _ & _ & _ & Hcnt).
      cbn zeta in Hcnt.
      destruct (counter s mod 5 =? 0) eqn:Hm5.
      * exfalso. revert Hit.
        unfold iteration, samples_step, validation_step, at_cadence, mod_.
        rewrite Hse. cbn [bind].
        assert (Hc : forall b : bool,
                   counter (train_step m
                     (if b then emit (GenerateSamples (counter s)) s else s))
                   = counter s) by (intros []; reflexivity).
        rewrite !Hc, Hm5. cbn [counter emit]. rewrite !Hc.
        replace (counter s >=? 0) with true
          by (symmetry; rewrite Z.geb_leb; apply Z.leb_le; lia).
        discriminate.
      * cbn [andb] in Hcnt. apply IH; rewrite ?Hcnt; try lia.
        rewrite <- H5. f_equal. lia.
    + revert Hit.
      unfold iteration, samples_step, validation_step, at_cadence, mod_.
      rewrite Hse. cbn [bind].
      destruct (_ mod 5 =? 0); cbn [bind]; [| discriminate].
      destruct (_ >=? 0); cbn [bind]; [| discriminate].
      intros [= <-]. reflexivity.
Qed.

(** X14.  When the comparison of losses is transitive, the best
    validation loss held at the end of the loop is the one held at the
    start or one that compares strictly below it: the loop never trades
    its best loss for a worse one. *)
Theorem train_loop_best_only_improves (cfg : config) (m : model) (every : Z)
        (s s' : state) :
  (forall a b c, flt a b = true -> flt b c = true -> flt a c = true) ->
  train_loop cfg m every s = Ok s' ->
  best_val_loss s' = best_val_loss s \/
  flt (best_val_loss s') (best_val_loss s) = true.
Proof.
  intros Htrans Hrun.
  set (P := fun s1 : @state F =>
              best_val_loss s1 = best_val_loss s \/
              flt (best_val_loss s1) (best_val_loss s) = true).
  assert (Hstep : forall s1 s2, counter s1 < stop_after cfg ->
                    iteration cfg m every s1 = Ok s2 -> P s1 -> P s2).
  { intros s1 s2 _ Hit HP.
    destruct (iteration_inv cfg m every s1 s2 Hit) as (_ & Hbest & _).
    cbn zeta in Hbest.
    destruct (decision_due every (counter s1)); cbn [andb] in Hbest;
      [| unfold P in *; rewrite Hbest; exact HP].
    destruct (flt (av_val_loss_of m s1) (best_val_loss s1)) eqn:Himp;
      [| unfold P in *; rewrite Hbest; exact HP].
    unfold P in *. rewrite Hbest. right.
    destruct HP as [<- | Hlt]; [exact Himp | exact (Htrans _ _ _ Himp Hlt)]. }
  exact (proj1 (train_loop_induct cfg m every P Hstep s s' Hrun
                  (or_introl eq_refl))).
Qed.

End TrainingRun.

(** X13.  With [save_every = 0] the two scripts part ways: the loop of
    [trainval_adafactor.py] raises ZeroDivisionError at the first
    validation iteration it reaches, while the loop of [trainval.py],
    which does not read [save_every], runs to its end. *)
Theorem save_every_zero {F : Type} `{FloatOps F}
        (cfg : Train.config) (m : Train.model) (counter0 : Z) :
  Train.sample_every cfg <> 0 ->
  Train.save_every cfg = 0 ->
  0 <= counter0 ->
  counter0 + 4 < Train.stop_after cfg ->
  TrainvalAdafactor.train_main cfg m counter0 = Raise ZeroDivisionError /\
  exists s', Trainval.train_main cfg m counter0 = Ok s'.
Proof.
  intros Hse Hsv Hnn Hlt. split.
  - unfold TrainvalAdafactor.train_main. rewrite Hsv.
    apply (loop_zero_checkpoint_cadence cfg m
             (Z.to_nat ((- counter0) mod 5)) Hse).
    + exact Hnn.
    + cbn [Train.counter Train.initial].
      pose proof (Z.mod_pos_bound (- counter0) 5 ltac:(lia)).
      rewrite Z2Nat.id by lia.
      rewrite Z.add_mod_idemp_r by lia.
      replace (counter0 + - counter0) with 0 by lia. reflexivity.
    + cbn [Train.counter Train.initial].
      pose proof (Z.mod_pos_bound (- counter0) 5 ltac:(lia)). lia.
  - unfold Trainval.train_main.
    destruct (train_loop_runs cfg m 100 (Train.initial counter0) Hse
                ltac:(lia)) as (s' & Hs' & _).
    exists s'. exact Hs'.
Qed.

(** *** Concrete runs for the statements above *)

Ltac with_run Hrun :=
  match goal with
  | |- exists s', ?run = Ok s' /\ _ =>
      destruct run as [s' |] eqn:Hrun;
      [ exists s'; split; [reflexivity |]
      | exfalso; vm_compute in Hrun; discriminate ]
  end.

Lemma train_loop_final_counter_witness :
  exists s',
    Train.train_loop (Train.mkConfig 100 5000 100) stalling_model 100
                     (Train.initial 1) = Ok s' /\
    ((Train.counter s' = 5000 /\ Train.missed_val_checkpoints s' <= 9) \/
     (Train.counter s' = 5000 + 2 /\ Train.missed_val_checkpoints s' = 10)).
Proof.
  with_run Hrun.
  apply (train_loop_final_counter (Train.mkConfig 100 5000 100)
           stalling_model 100 (Train.initial 1) s').
  - vm_compute. discriminate.
  - vm_compute. discriminate.
  - exact Hrun.
Defined.

Lemma train_loop_schedule_witness :
  exists s',
    Train.train_loop (Train.mkConfig 100 200 1000) steady_model 100
                     (Train.initial 1) = Ok s' /\
    exists n : nat,
      without_saves (Train.trace s')
      = without_saves (Train.trace (Train.initial (F := Z) 1))
        ++ flat_map (scheduled_actions 100) (Zseq 1 n) /\
      Z.of_nat n <= 200 - 1 /\
      (Train.missed_val_checkpoints s' <= 9 -> Z.of_nat n = 200 - 1).
Proof.
  with_run Hrun.
  apply (train_loop_schedule (Train.mkConfig 100 200 1000)
           steady_model 100 (Train.initial 1) s').
  - vm_compute. discriminate.
  - vm_compute. discriminate.
  - exact Hrun.
Defined.

Lemma train_loop_saves_witness :
  exists s',
    Train.train_loop (Train.mkConfig 100 5000 100) stalling_model 100
                     (Train.initial 1) = Ok s' /\
    exists l : list Z,
      saves (Train.trace s')
      = saves (Train.trace (Train.initial (F := Z) 1))
        ++ List.map Train.Save l /\
      Forall (fun c => 1 <= c < 5000 /\
                       c mod 5 = 0 /\ 100 <= c /\ c mod 100 = 0) l.
Proof.
  with_run Hrun.
  apply (train_loop_saves (Train.mkConfig 100 5000 100)
           stalling_model 100 (Train.initial 1) s').
  exact Hrun.
Defined.

Lemma train_loop_zero_cadence_witness :
  Train.train_loop (Train.mkConfig 0 200 1000) steady_model 100
                   (Train.initial 1) = Raise ZeroDivisionError.
Proof.
  apply (train_loop_zero_cadence (Train.mkConfig 0 200 1000)
           steady_model 100 (Train.initial 1)).
  - reflexivity.
  - vm_compute. reflexivity.
Defined.

Lemma save_every_zero_witness :
  TrainvalAdafactor.train_main (Train.mkConfig 100 200 0) steady_model 1
  = Raise ZeroDivisionError /\
  exists s', Trainval.train_main (Train.mkConfig 100 200 0) steady_model 1
             = Ok s'.
Proof.
  apply (save_every_zero (Train.mkConfig 100 200 0) steady_model 1).
  - discriminate.
  - reflexivity.
  - lia.
  - vm_compute. reflexivity.
Defined.

Lemma train_loop_best_only_improves_witness :
  exists s',
    Train.train_loop (Train.mkConfig 100 5000 100) stalling_model 100
                     (Train.initial 1) = Ok s' /\
    (Train.best_val_loss s' = Train.best_val_loss (Train.initial (F := Z) 1) \/
     flt (Train.best_val_loss s')
         (Train.best_val_loss (Train.initial (F := Z) 1)) = true).
Proof.
  with_run Hrun.
  apply (train_loop_best_only_improves (Train.mkConfig 100 5000 100)
           stalling_model 100 (Train.initial 1) s').
  - intros a b c Hab Hbc. cbn in *.
    apply Z.ltb_lt in Hab. apply Z.ltb_lt in Hbc. apply Z.ltb_lt. lia.
  - exact Hrun.
Defined.

(** ** AdafactorOptimizer: the default learning rate *)

Section Schedules.
Import AdafactorOptimizer.
Local Open Scope R_scope.

Lemma sqrt_10000 : sqrt 10000 = 100.
Proof. replace 10000 with (100 * 100) by lra. apply sqrt_square. lra. Qed.

Lemma lit_R_values :
  lit_R 1 0 = 1 /\ lit_R 1 (-2) = 1 / 100 /\ lit_R 5 (-2) = 5 / 100.
Proof.
  unfold lit_R.
  change (Z.to_nat (- -2)) with 2%nat. change (Z.to_nat 0) with 0%nat.
  cbn [Z.ltb Z.compare pow]. repeat split; lra.
Qed.

(** X17.  The default learning rate is the constant 0.01 for the first
    9999 steps and [1 / sqrt(step + 1)] from step 9999 on; with
    [multiply_by_parameter_scale] off it is that value times 0.05. *)
Theorem learning_rate_default_cases (multiply : bool) (global_step : nat) :
  let factor := if multiply then 1 else 5 / 100 in
  (INR global_step < 9999 ->
   _learning_rate_default multiply global_step = 1 / 100 * factor) /\
  (9999 <= INR global_step ->
   _learning_rate_default multiply global_step
   = / sqrt (INR global_step + 1) * factor).
Proof.
  intros factor.
  pose proof (pos_INR global_step) as Hpos.
  assert (Hsq : 0 < sqrt (INR global_step + 1)) by (apply sqrt_lt_R0; lra).
  destruct lit_R_values as (H1 & H001 & H005).
  unfold _learning_rate_default, step_num.
  cbn [t_minimum t_rsqrt t_add t_mul t_to_float t_lit TensorOps_R].
  rewrite H1, H001, H005. split.
  - intros Hlt.
    assert (Hs : sqrt (INR global_step + 1) < 100)
      by (rewrite <- sqrt_10000; apply sqrt_lt_1_alt; lra).
    assert (Hinv : 1 / 100 < / sqrt (INR global_step + 1)).
    { replace (1 / 100) with (/ 100) by lra.
      apply Rinv_lt_contravar; [| exact Hs].
      apply Rmult_lt_0_compat; lra. }
    rewrite Rmin_right by lra. subst factor. destruct multiply; cbn; lra.
  - intros Hge.
    assert (Hs : 100 <= sqrt (INR global_step + 1))
      by (rewrite <- sqrt_10000; apply sqrt_le_1_alt; lra).
    assert (Hinv : / sqrt (INR global_step + 1) <= 1 / 100).
    { replace (1 / 100) with (/ 100) by lra.
      apply Rinv_le_contravar; [lra | exact Hs]. }
    rewrite Rmin_left by lra. subst factor. destruct multiply; cbn; lra.
Qed.

Lemma learning_rate_default_cases_witness :
  _learning_rate_default true 3 = 1 / 100 * 1.
Proof.
  apply (learning_rate_default_cases true 3).
  cbn. lra.
Defined.

End Schedules.

(** ** AdafactorOptimizer: creating slots and then applying updates *)

Section SlotsAndUpdates.
Import AdafactorOptimizer.
Context {F : Type} {ops : TensorOps F}.

Lemma get_or_make_present (ss : slots F) (var : Variable_ F) (val : Tensor F)
      (name : string) :
  lookup_slot (_get_or_make_slot ss var val name) (name, var_name var)
  <> None.
Proof.
  unfold _get_or_make_slot.
  destruct (lookup_slot ss (name, var_name var)) eqn:Hl; [congruence |].
  rewrite lookup_slot_app, Hl. cbn [lookup_slot].
  rewrite slot_key_eqb_refl. discriminate.
Qed.

Lemma get_or_make_keeps (ss : slots F) (var : Variable_ F) (val : Tensor F)
      (name : string) (k : string * string) :
  lookup_slot ss k <> None ->
  lookup_slot (_get_or_make_slot ss var val name) k <> None.
Proof.
  intros Hk. unfold _get_or_make_slot.
  destruct (lookup_slot ss (name, var_name var)); [exact Hk |].
  rewrite lookup_slot_app. destruct (lookup_slot ss k); congruence.
Qed.

Lemma get_or_make_noop (ss : slots F) (var : Variable_ F) (val : Tensor F)
      (name : string) :
  lookup_slot ss (name, var_name var) <> None ->
  _get_or_make_slot ss var val name = ss.
Proof.
  intros Hk. unfold _get_or_make_slot.
  destruct (lookup_slot ss (name, var_name var)); congruence.
Qed.

Lemma create_slots_for_keeps (self : t F) (ss : slots F) (v : Variable_ F)
      (k : string * string) :
  lookup_slot ss k <> None ->
  lookup_slot (create_slots_for self ss v) k <> None.
Proof.
  intros Hk. unfold create_slots_for, _zeros_slot.
  destruct (truthy _); destruct (_should_use_factored_second_moment_estimate _ _);
    repeat apply get_or_make_keeps; exact Hk.
Qed.

Lemma create_slots_for_has (self : t F) (ss : slots F) (var : Variable_ F) :
  has_slots self (create_slots_for self ss var) var.
Proof.
  unfold has_slots, create_slots_for, _zeros_slot. split.
  - intros Ht. rewrite Ht.
    destruct (_should_use_factored_second_moment_estimate _ _).
    + do 2 apply get_or_make_keeps. apply get_or_make_present.
    + apply get_or_make_keeps. apply get_or_make_present.
  - destruct (_should_use_factored_second_moment_estimate _ _).
    + split.
      * apply get_or_make_keeps, get_or_make_present.
      * apply get_or_make_present.
    + apply get_or_make_present.
Qed.

Lemma has_slots_keeps (self : t F) (ss : slots F) (v var : Variable_ F) :
  has_slots self ss var -> has_slots self (create_slots_for self ss v) var.
Proof.
  unfold has_slots. intros [Hm Hv]. split.
  - intros Ht. apply create_slots_for_keeps, Hm, Ht.
  - destruct (_should_use_factored_second_moment_estimate _ _).
    + destruct Hv. split; apply create_slots_for_keeps; assumption.
    + apply create_slots_for_keeps; assumption.
Qed.

Lemma create_slots_for_noop (self : t F) (ss : slots F) (var : Variable_ F) :
  has_slots self ss var -> create_slots_for self ss var = ss.
Proof.
  unfold has_slots, create_slots_for, _zeros_slot. intros [Hm Hv].
  destruct (truthy (_beta1 self)).
  - rewrite (get_or_make_noop ss var _ "m") by (apply Hm; reflexivity).
    destruct (_should_use_factored_second_moment_estimate _ _).
    + destruct Hv as [Hr Hc].
      rewrite (get_or_make_noop ss var _ "vr") by exact Hr.
      apply get_or_make_noop. exact Hc.
    + apply get_or_make_noop. exact Hv.
  - destruct (_should_use_factored_second_moment_estimate _ _).
    + destruct Hv as [Hr Hc].
      rewrite (get_or_make_noop ss var _ "vr") by exact Hr.
      apply get_or_make_noop. exact Hc.
    + apply get_or_make_noop. exact Hv.
Qed.

Lemma create_slots_has (self : t F) (var_list : list (Variable_ F)) (ss : slots F)
      (var : Variable_ F) :
  In var var_list \/ has_slots self ss var ->
  has_slots self (_create_slots self var_list ss) var.
Proof.
  revert ss. induction var_list as [| v vs IH]; intros ss Hin.
  - destruct Hin as [[] | Hs]. exact Hs.
  - change (has_slots self (_create_slots self vs (create_slots_for self ss v))
                      var).
    apply IH. destruct Hin as [[-> | Hin] | Hs].
    + right. apply create_slots_for_has.
    + left. exact Hin.
    + right. apply has_slots_keeps. exact Hs.
Qed.

Lemma create_slots_noop (self : t F) (var_list : list (Variable_ F)) (ss : slots F) :
  (forall var, In var var_list -> has_slots self ss var) ->
  _create_slots self var_list ss = ss.
Proof.
  induction var_list as [| v vs IH]; intros Hall; [reflexivity |].
  change (_create_slots self vs (create_slots_for self ss v) = ss).
  rewrite create_slots_for_noop by (apply Hall; left; reflexivity).
  apply IH. intros var Hin. apply Hall. right. exact Hin.
Qed.

(** X20.  [_create_slots] is idempotent: run again on the variables it
    has already seen, whatever slots the store held before, it creates
    nothing and changes nothing. *)
Theorem create_slots_idempotent (self : t F) (var_list : list (Variable_ F))
        (ss : slots F) :
  _create_slots self var_list (_create_slots self var_list ss)
  = _create_slots self var_list ss.
Proof.
  apply create_slots_noop. intros var Hin.
  apply create_slots_has. left. exact Hin.
Qed.

(** A slot of a variable, found among the variable's own slots. *)
Lemma lookup_slots_of (ss : slots F) (var : Variable_ F) (name : string) :
  lookup_slot ss (name, var_name var)
  = option_map snd
      (find (fun nt => String.eqb (fst nt) name) (slots_of ss var)).
Proof.
  induction ss as [| [[n w] tn] ss IH]; [reflexivity |].
  unfold slots_of in *. cbn [lookup_slot filter fst snd].
  unfold slot_key_eqb. cbn [fst snd].
  destruct (String.eqb w (var_name var)).
  - cbn [List.map find fst snd]. rewrite andb_true_r.
    destruct (String.eqb n name); [reflexivity | exact IH].
  - rewrite andb_false_r. exact IH.
Qed.

(** On a fresh optimizer [_create_slots] leaves every variable of its
    list ready for the update. *)
Lemma create_slots_ready (self : t F) (var_list : list (Variable_ F))
      (var : Variable_ F) :
  NoDup (List.map var_name var_list) -> In var var_list ->
  slots_ready self (_create_slots self var_list []) var.
Proof.
  intros Hnodup Hin.
  pose proof (create_slots_each self var_list [] var Hnodup
                (fun _ _ => eq_refl) Hin) as Hss.
  unfold slots_ready, slot_shaped. cbv zeta.
  unfold _should_use_factored_second_moment_estimate.
  rewrite len_ge_2. unfold expected_slots in Hss.
  split.
  - intros Ht. rewrite lookup_slots_of, Hss, Ht. cbn.
    eexists. split; reflexivity.
  - destruct (_factored self && (2 <=? _)%nat) eqn:Hfact.
    + apply andb_true_iff in Hfact as [_ Hrank]. apply Nat.leb_le in Hrank.
      rewrite slice_to_minus_1, slice_to_minus_2, slice_from_minus_1 by lia.
      split; rewrite lookup_slots_of, Hss;
        destruct (truthy (_beta1 self)); cbn; eexists; split; reflexivity.
    + rewrite lookup_slots_of, Hss.
      destruct (truthy (_beta1 self)); cbn; eexists; split; reflexivity.
Qed.

(** An update leaves ready whatever variable was ready. *)
Lemma slots_ready_keeps (self : t F) (ss ss' : slots F) (v : Variable_ F) :
  slot_shapes ss' = slot_shapes ss ->
  slots_ready self ss v -> slots_ready self ss' v.
Proof.
  intros Heq.
  assert (Hkeep : forall name sh,
             slot_shaped ss name v sh -> slot_shaped ss' name v sh).
  { intros name sh (tn & Hl & Hs).
    destruct (slot_shapes_lookup ss ss' _ tn Heq Hl) as (tn' & Hl' & Hs').
    exists tn'. split; [exact Hl' | congruence]. }
  unfold slots_ready. cbv zeta. intros [Hm Hv]. split.
  - intros Ht. apply Hkeep, Hm, Ht.
  - destruct (_should_use_factored_second_moment_estimate _ _).
    + destruct Hv. split; apply Hkeep; assumption.
    + apply Hkeep; assumption.
Qed.

(** X21.  After [_create_slots] on a fresh optimizer and variables of
    distinct names, the update of any variable of the list by a gradient
    of the variable's shape succeeds, with or without momentum and on
    either second-moment path; it keeps the variable's name and shape
    and leaves every variable of the list with its slots, of the right
    shapes, so the next update succeeds as well.  On an empty store the
    update is refused with ValueError. *)
Theorem create_then_apply (self : t F) (var_list : list (Variable_ F))
        (global_step : nat) (grad : Tensor F) (var : Variable_ F) :
  NoDup (List.map var_name var_list) ->
  In var var_list ->
  shape grad = shape (var_value var) ->
  (exists var' ss',
     _resource_apply_dense self global_step grad var
       (_create_slots self var_list []) = Ok (var', ss') /\
     var_name var' = var_name var /\
     shape (var_value var') = shape (var_value var) /\
     forall v, In v var_list -> slots_ready self ss' v) /\
  _resource_apply_dense self global_step grad var [] = Raise ValueError.
Proof.
  intros Hnodup Hin Hshape. split.
  - destruct (apply_with_slots self global_step grad var
                (_create_slots self var_list [])
                (create_slots_ready self var_list var Hnodup Hin) Hshape)
      as (var' & ss' & Hrun & Hname & Hsh & Hslots).
    exists var', ss'. split; [exact Hrun |]. split; [exact Hname |].
    split; [exact Hsh |]. intros v Hv. apply (slots_ready_keeps self _ ss' v Hslots).
    apply create_slots_ready; assumption.
  - apply apply_without_slots.
Qed.

End SlotsAndUpdates.

Lemma create_then_apply_witness :
  let self := train_main_optimizer (1 / 1000)%R (9 / 10)%R (999 / 1000)%R in
  let var := mkVariable "w" (tf.zeros [4; 3]) in
  exists var' ss',
    AdafactorOptimizer._resource_apply_dense self 0
      (mkTensor [4; 3] [1; 2; 3; 4; 5; 6; 7; 8; 9; 10; 11; 12]%R) var
      (AdafactorOptimizer._create_slots self [var] [])
    = Ok (var', ss') /\
    var_name var' = "w"%string /\
    slots_ready self ss' var.
Proof.
  cbv zeta.
  destruct (create_then_apply
              (train_main_optimizer (1 / 1000)%R (9 / 10)%R (999 / 1000)%R)
              [mkVariable "w" (tf.zeros [4; 3])] 0
              (mkTensor [4; 3] [1; 2; 3; 4; 5; 6; 7; 8; 9; 10; 11; 12]%R)
              (mkVariable "w" (tf.zeros [4; 3])))
    as [(var' & ss' & Happ & Hname & _ & Hready) _].
  - repeat constructor. simpl. tauto.
  - left. reflexivity.
  - reflexivity.
  - exists var', ss'. split; [exact Happ |]. split; [exact Hname |].
    apply Hready. left. reflexivity.
Defined.

Section FactoredMemory.
Context {F : Type} {ops : TensorOps F}.

(** X22.  With factoring enabled a matrix variable of shape (a, b) has
    [a + b] second-moment scalars after [_create_slots]; with factoring
    disabled it has [a * b]. *)
Theorem factored_memory (self : AdafactorOptimizer.t F)
        (var_list : list (Variable_ F)) (var : Variable_ F) (a b : Z) :
  NoDup (List.map var_name var_list) ->
  In var var_list ->
  shape (var_value var) = [a; b] ->
  0 <= a -> 0 <= b ->
  let ss := AdafactorOptimizer._create_slots self var_list [] in
  (AdafactorOptimizer._factored self = true ->
   scalars (second_moment_slots ss var) = (Z.to_nat a + Z.to_nat b)%nat) /\
  (AdafactorOptimizer._factored self = false ->
   scalars (second_moment_slots ss var) = (Z.to_nat a * Z.to_nat b)%nat).
Proof.
  intros Hnodup Hin Hsh Ha Hb ss.
  assert (Hss : slots_of ss var = expected_slots self [a; b]).
  { rewrite <- Hsh. apply create_slots_each;
      [exact Hnodup | reflexivity | exact Hin]. }
  unfold second_moment_slots. rewrite Hss. unfold expected_slots.
  cbn [List.length Nat.leb andb removelast firstn skipn Nat.sub app].
  split; intros Hf; rewrite Hf; cbn [andb];
    destruct (AdafactorOptimizer.truthy _);
    cbn [app filter fst String.eqb Ascii.eqb Bool.eqb negb];
    unfold scalars, tf.size, tf.zeros, tf.num_elements;
    cbn [List.map snd data list_sum fold_right];
    rewrite ?repeat_length, ?Z.mul_1_r; try lia.
  all: rewrite Z2Nat.inj_mul by lia; lia.
Qed.

End FactoredMemory.

Lemma factored_memory_witness :
  let self := train_main_optimizer (1 / 1000)%R (9 / 10)%R (999 / 1000)%R in
  let var := mkVariable "model/wte" (tf.zeros [50257; 768]) in
  scalars (second_moment_slots
             (AdafactorOptimizer._create_slots self [var] []) var)
  = (Z.to_nat 50257 + Z.to_nat 768)%nat.
Proof.
  cbn zeta.
  apply (factored_memory
           (train_main_optimizer (1 / 1000)%R (9 / 10)%R (999 / 1000)%R)
           [mkVariable "model/wte" (tf.zeros [50257; 768])]
           (mkVariable "model/wte" (tf.zeros [50257; 768])) 50257 768).
  - repeat constructor. simpl. tauto.
  - left. reflexivity.
  - reflexivity.
  - lia.
  - lia.
  - reflexivity.
Defined.

(** ** AdafactorOptimizer: what an update leaves alone *)

Section UpdateFrame.
Import AdafactorOptimizer.
Context {F : Type} {ops : TensorOps F}.

Lemma assign_slot_keys (ss : slots F) (k : string * string) (tn : Tensor F) :
  List.map fst (assign_slot ss k tn) = List.map fst ss.
Proof.
  induction ss as [| [k' t'] ss IH]; [reflexivity |].
  cbn [assign_slot]. destruct (slot_key_eqb k' k); cbn [List.map fst].
  - reflexivity.
  - rewrite IH. reflexivity.
Qed.

(** Assigning to a slot of [var] keeps the keys of the store and the
    slots of every variable of another name. *)
Lemma assign_slot_frame (ss0 ss : slots F) (var : Variable_ F)
      (name : string) (tn : Tensor F) :
  (List.map fst ss = List.map fst ss0 /\
   forall k, snd k <> var_name var -> lookup_slot ss k = lookup_slot ss0 k) ->
  List.map fst (assign_slot ss (name, var_name var) tn) = List.map fst ss0 /\
  forall k, snd k <> var_name var ->
            lookup_slot (assign_slot ss (name, var_name var) tn) k
            = lookup_slot ss0 k.
Proof.
  intros [Hkeys Hother]. split.
  - rewrite assign_slot_keys. exact Hkeys.
  - intros k Hk. rewrite lookup_assign_other.
    + apply Hother, Hk.
    + intros Heq. apply Hk. rewrite <- Heq. reflexivity.
Qed.

(** X28.  A successful update of a variable writes only to slots of that
    variable: it creates and deletes no slot, and every slot of a
    variable of another name is left exactly as it was; the variable
    keeps its name. *)
Theorem update_frame (self : t F) (global_step : nat) (grad : Tensor F)
        (var var' : Variable_ F) (ss ss' : slots F) :
  _resource_apply_dense self global_step grad var ss = Ok (var', ss') ->
  var_name var' = var_name var /\
  List.map fst ss' = List.map fst ss /\
  forall (name : string) (other : Variable_ F),
    var_name other <> var_name var ->
    lookup_slot ss' (name, var_name other)
    = lookup_slot ss (name, var_name other).
Proof.
  intros H. unfold _resource_apply_dense in H. cbv zeta in H.
  apply bind_ok in H as (xu & Hxu & H).
  apply bind_ok in H as (su & Hsu & H).
  apply bind_ok in H as (new_val & Hval & H).
  apply bind_ok in H as (var_update & Hvar & H).
  injection H as Hvar' Hss'. subst var' ss'.
  split; [reflexivity |].
  assert (Hxu' : List.map fst (snd xu) = List.map fst ss /\
                 forall k, snd k <> var_name var ->
                           lookup_slot (snd xu) k = lookup_slot ss k).
  { destruct (_should_use_factored_second_moment_estimate self
                (shape (var_value var))).
    - apply bind_ok in Hxu as (row_mean & _ & Hxu).
      apply bind_ok in Hxu as (col_mean & _ & Hxu).
      apply bind_ok in Hxu as (vr & _ & Hxu).
      apply bind_ok in Hxu as (new_vr & _ & Hxu).
      apply bind_ok in Hxu as (vc & _ & Hxu).
      apply bind_ok in Hxu as (new_vc & _ & Hxu).
      apply bind_ok in Hxu as (vr_update & _ & Hxu).
      apply bind_ok in Hxu as (vc_update & _ & Hxu).
      apply bind_ok in Hxu as (ltm & _ & Hxu).
      apply bind_ok in Hxu as (ratio & _ & Hxu).
      apply bind_ok in Hxu as (r_column & _ & Hxu).
      apply bind_ok in Hxu as (x_rows & _ & Hxu).
      apply bind_ok in Hxu as (c_row & _ & Hxu).
      apply bind_ok in Hxu as (x & _ & Hxu).
      injection Hxu as <-. cbn [snd].
      do 2 apply assign_slot_frame. auto.
    - apply bind_ok in Hxu as (v & _ & Hxu).
      apply bind_ok in Hxu as (new_v & _ & Hxu).
      apply bind_ok in Hxu as (v_update & _ & Hxu).
      apply bind_ok in Hxu as (x & _ & Hxu).
      injection Hxu as <-. cbn [snd].
      apply assign_slot_frame. auto. }
  assert (Hsu' : List.map fst (snd su) = List.map fst ss /\
                 forall k, snd k <> var_name var ->
                           lookup_slot (snd su) k = lookup_slot ss k).
  { destruct (truthy (_beta1 self)).
    - apply bind_ok in Hsu as (m & _ & Hsu).
      apply bind_ok in Hsu as (new_m & _ & Hsu).
      apply bind_ok in Hsu as (m_update & _ & Hsu).
      injection Hsu as <-. cbn [snd].
      apply assign_slot_frame. exact Hxu'.
    - injection Hsu as <-. exact Hxu'. }
  destruct Hsu' as [Hkeys Hother]. split; [exact Hkeys |].
  intros name other Hne. apply Hother. exact Hne.
Qed.

End UpdateFrame.

Lemma update_frame_witness :
  let self := train_main_optimizer (1 / 1000)%R (9 / 10)%R (999 / 1000)%R in
  let w := mkVariable "w" (tf.zeros [4; 3]) in
  let b := mkVariable "b" (tf.zeros [3]) in
  let ss := AdafactorOptimizer._create_slots self [w; b] [] in
  exists var' ss',
    AdafactorOptimizer._resource_apply_dense self 0
      (mkTensor [4; 3] [1; 2; 3; 4; 5; 6; 7; 8; 9; 10; 11; 12]%R) w ss
    = Ok (var', ss') /\
    lookup_slot ss' ("v"%string, "b"%string)
    = lookup_slot ss ("v"%string, "b"%string).
Proof.
  cbv zeta.
  destruct (apply_with_slots
              (train_main_optimizer (1 / 1000)%R (9 / 10)%R (999 / 1000)%R) 0
              (mkTensor [4; 3] [1; 2; 3; 4; 5; 6; 7; 8; 9; 10; 11; 12]%R)
              (mkVariable "w" (tf.zeros [4; 3]))
              (AdafactorOptimizer._create_slots
                 (train_main_optimizer (1 / 1000)%R (9 / 10)%R (999 / 1000)%R)
                 [mkVariable "w" (tf.zeros [4; 3]);
                  mkVariable "b" (tf.zeros [3])] []))
    as (var' & ss' & Hrun & _).
  - apply create_slots_ready.
    + repeat constructor; simpl; intuition discriminate.
    + left. reflexivity.
  - reflexivity.
  - exists var', ss'. split; [exact Hrun |].
    apply (proj2 (proj2 (update_frame _ _ _ _ _ _ _ Hrun)) "v"%string
             (mkVariable "b" (tf.zeros [3]))).
    discriminate.
Defined.

(** ** train_main: the variables to train *)

(** X23.  [all_vars[-layers_to_train:]] selects the last [layers_to_train]
    variables only while [1 <= layers_to_train <= len(all_vars)].  With
    [layers_to_train = 0] it selects every variable, not none, as it does
    when [layers_to_train] exceeds the number of variables; a negative
    value drops that many variables from the front. *)
Theorem select_train_vars_cases {A : Type} (all_vars : list A) (k : Z) :
  (1 <= k <= len all_vars ->
   select_train_vars all_vars k
   = skipn (Z.to_nat (len all_vars - k)) all_vars /\
   len (select_train_vars all_vars k) = k) /\
  (k = 0 \/ len all_vars <= k -> select_train_vars all_vars k = all_vars) /\
  (k < 0 -> select_train_vars all_vars k = skipn (Z.to_nat (- k)) all_vars).
Proof.
  unfold select_train_vars, slice_from, slice, clamp.
  pose proof (len_nonneg all_vars) as Hn.
  replace (len all_vars <? 0) with false by (symmetry; apply Z.ltb_ge; lia).
  rewrite Z.min_id.
  assert (Hfull : forall n : nat,
             firstn (Z.to_nat (len all_vars - Z.of_nat n)) (skipn n all_vars)
             = skipn n all_vars).
  { intros n. apply firstn_all2. rewrite length_skipn. unfold len. lia. }
  split; [| split].
  - intros Hk.
    replace (- k <? 0) with true by (symmetry; apply Z.ltb_lt; lia).
    rewrite Z.max_l by lia.
    replace (len all_vars - (- k + len all_vars)) with k by lia.
    assert (Heq : firstn (Z.to_nat k)
                    (skipn (Z.to_nat (- k + len all_vars)) all_vars)
                  = skipn (Z.to_nat (len all_vars - k)) all_vars).
    { replace (- k + len all_vars) with (len all_vars - k) by lia.
      apply firstn_all2. rewrite length_skipn. unfold len in *. lia. }
    rewrite Heq. split; [reflexivity |].
    unfold len in *. rewrite length_skipn. lia.
  - intros [-> | Hbig].
    + cbn [Z.opp Z.ltb Z.compare]. rewrite Z.min_l by lia.
      rewrite Z.sub_0_r. cbn [Z.to_nat skipn].
      apply firstn_all2. unfold len. lia.
    + destruct (- k <? 0) eqn:Hneg.
      * rewrite Z.max_r by lia. rewrite Z.sub_0_r. cbn [Z.to_nat skipn].
        apply firstn_all2. unfold len. lia.
      * apply Z.ltb_ge in Hneg. assert (k = 0) as -> by lia.
        cbn [Z.opp]. rewrite Z.min_l by lia.
        rewrite Z.sub_0_r. cbn [Z.to_nat skipn].
        apply firstn_all2. unfold len. lia.
  - intros Hk.
    replace (- k <? 0) with false by (symmetry; apply Z.ltb_ge; lia).
    destruct (Z_le_dec (- k) (len all_vars)) as [Hle | Hgt].
    + rewrite Z.min_l by lia.
      specialize (Hfull (Z.to_nat (- k))). rewrite Z2Nat.id in Hfull by lia.
      exact Hfull.
    + rewrite Z.min_r by lia. rewrite Z.sub_diag. cbn [Z.to_nat firstn].
      symmetry. apply skipn_all2. unfold len in *. lia.
Qed.

Lemma select_train_vars_cases_witness :
  select_train_vars [1; 2; 3; 4; 5] 2 = skipn (Z.to_nat (5 - 2)) [1; 2; 3; 4; 5]
  /\ len (select_train_vars [1; 2; 3; 4; 5] 2) = 2.
Proof.
  apply (select_train_vars_cases [1; 2; 3; 4; 5] 2).
  vm_compute. split; discriminate.
Defined.

(** ** train_main: resuming from the counter file *)

Lemma digit_not_space (a : Ascii.ascii) : is_digit a = true -> is_space a = false.
Proof.
  destruct a as [[|] [|] [|] [|] [|] [|] [|] [|]];
    vm_compute; congruence.
Qed.

Lemma digit_not_sign (a : Ascii.ascii) :
  is_digit a = true ->
  Ascii.eqb a "-"%char = false /\ Ascii.eqb a "+"%char = false.
Proof.
  destruct a as [[|] [|] [|] [|] [|] [|] [|] [|]];
    vm_compute; split; congruence.
Qed.

Lemma uint_digits (d : Decimal.uint) :
  all_digits (NilEmpty.string_of_uint d) = true.
Proof. induction d; cbn; auto. Qed.

Lemma rstrip_newline (r : string) :
  all_digits r = true ->
  rstrip (r ++ String (Ascii.ascii_of_nat 10) EmptyString) = r.
Proof.
  induction r as [| a r IH]; intros Hd.
  - reflexivity.
  - cbn [all_digits] in Hd. apply andb_true_iff in Hd as [Ha Hr].
    cbn [String.append rstrip]. rewrite (IH Hr).
    rewrite (digit_not_space a Ha). destruct r; reflexivity.
Qed.

Lemma literal_digits_plain (r : string) (prev : bool) :
  all_digits r = true -> r <> EmptyString \/ prev = true ->
  literal_digits prev r = Some r.
Proof.
  revert prev. induction r as [| a r IH]; intros prev Hd Hne.
  - destruct Hne as [Hne | ->]; [congruence | reflexivity].
  - cbn [all_digits] in Hd. apply andb_true_iff in Hd as [Ha Hr].
    cbn [literal_digits]. rewrite Ha, (IH true Hr) by (right; reflexivity).
    reflexivity.
Qed.

(** [int()] reads back the digits of a natural number. *)
Lemma py_int_digits (ds : string) (d : Decimal.uint) (negative : bool) :
  all_digits ds = true -> ds <> EmptyString ->
  NilEmpty.uint_of_string ds = Some d ->
  py_int ((if negative then String "-"%char ds else ds)
          ++ String (Ascii.ascii_of_nat 10) EmptyString)
  = Ok (if negative then - Z.of_uint d else Z.of_uint d).
Proof.
  intros Hd Hne Hparse. unfold py_int, strip.
  destruct ds as [| a r]; [congruence |].
  pose proof Hd as Hd'. cbn [all_digits] in Hd'.
  apply andb_true_iff in Hd' as [Ha Hr].
  destruct (digit_not_sign a Ha) as [Hminus Hplus].
  destruct negative.
  - cbn [String.append lstrip].
    replace (is_space "-"%char) with false by reflexivity.
    change (String "-"%char
              (String a (r ++ String (Ascii.ascii_of_nat 10) EmptyString)%string))
      with (String "-"%char
              (String a r ++ String (Ascii.ascii_of_nat 10) EmptyString)%string).
    cbn [rstrip]. rewrite (rstrip_newline (String a r) Hd).
    cbn [Ascii.eqb Bool.eqb fst snd].
    rewrite (literal_digits_plain (String a r) false Hd)
      by (left; discriminate).
    rewrite Hparse. reflexivity.
  - cbn [String.append lstrip]. rewrite (digit_not_space a Ha).
    change (String a (r ++ String (Ascii.ascii_of_nat 10) EmptyString)%string)
      with (String a r ++ String (Ascii.ascii_of_nat 10) EmptyString)%string.
    rewrite (rstrip_newline (String a r) Hd).
    rewrite Hminus, Hplus. cbn [fst snd].
    rewrite (literal_digits_plain (String a r) false Hd)
      by (left; discriminate).
    rewrite Hparse. reflexivity.
Qed.

Lemma nilzero_digits (d : Decimal.uint) :
  all_digits (NilZero.string_of_uint d) = true /\
  NilZero.string_of_uint d <> EmptyString /\
  exists d', NilEmpty.uint_of_string (NilZero.string_of_uint d) = Some d' /\
             Z.of_uint d' = Z.of_uint d.
Proof.
  destruct d;
    try (repeat split;
         [ apply (uint_digits (_ _)) | discriminate
         | eexists; split; [apply (NilEmpty.usu (_ _)) | reflexivity] ]).
  repeat split; [discriminate |]. exists (Decimal.D0 Decimal.Nil).
  split; reflexivity.
Qed.

(** X25.  The counter file round-trips: what [save()] writes for step
    [counter] is read back at startup as [counter + 1], so a resumed run
    starts one step after the saved one; without a counter file the run
    starts at 1, and a file that is empty or holds only whitespace makes
    startup fail with ValueError. *)
Theorem resume_after_save (counter : Z) (blank : string) :
  initial_counter (Some (counter_file_text counter)) = Ok (counter + 1) /\
  initial_counter None = Ok 1 /\
  (strip blank = EmptyString ->
   initial_counter (Some blank) = Raise ValueError).
Proof.
  split; [| split].
  - unfold initial_counter, counter_file_text, str_of_Z,
      NilZero.string_of_int.
    pose proof (DecimalZ.of_to counter) as Hz.
    destruct (Z.to_int counter) as [d | d];
      destruct (nilzero_digits d) as (Hd & Hne & d' & Hparse & Hval).
    + rewrite (py_int_digits _ d' false Hd Hne Hparse). cbn [bind].
      cbn [Z.of_int] in Hz. rewrite Hval, Hz. reflexivity.
    + rewrite (py_int_digits _ d' true Hd Hne Hparse). cbn [bind].
      cbn [Z.of_int] in Hz. rewrite Hval, Hz. reflexivity.
  - reflexivity.
  - intros Hblank. unfold initial_counter, py_int. rewrite Hblank.
    reflexivity.
Qed.

Lemma resume_after_save_witness :
  initial_counter (Some (String " "%char (String (Ascii.ascii_of_nat 10) EmptyString)))
  = Raise ValueError.
Proof.
  apply (resume_after_save 500
           (String " "%char (String (Ascii.ascii_of_nat 10) EmptyString))).
  reflexivity.
Defined.

Example resume_500 :
  counter_file_text 500 = String "5"%char (String "0"%char (String "0"%char
                            (String (Ascii.ascii_of_nat 10) EmptyString))) /\
  initial_counter (Some (counter_file_text 500)) = Ok 501 /\
  py_int " +1_000 "%string = Ok 1000 /\
  py_int "1__0"%string = Raise ValueError /\
  py_int "- 5"%string = Raise ValueError.
Proof. repeat split. Qed.

(** ** train_main: generate_samples *)

Lemma py_range_nat (n : nat) :
  py_range (Z.of_nat n) = List.map Z.of_nat (seq 0 n).
Proof. unfold py_range. rewrite Nat2Z.id. reflexivity. Qed.

Lemma py_range_snoc (n : nat) :
  py_range (Z.of_nat (S n)) = py_range (Z.of_nat n) ++ [Z.of_nat n].
Proof.
  rewrite !py_range_nat, seq_S, map_app. reflexivity.
Qed.

Lemma py_range_in (n i : Z) : In i (py_range n) -> 0 <= i < n.
Proof.
  unfold py_range. rewrite in_map_iff. intros (k & <- & Hk).
  apply in_seq in Hk. lia.
Qed.

Lemma py_range_add (A : Type) (f : Z -> A) (a n : nat) :
  List.map f (py_range (Z.of_nat a + Z.of_nat n)) =
  List.map f (py_range (Z.of_nat a)) ++
  List.map (fun i => f (Z.of_nat a + i)) (py_range (Z.of_nat n)).
Proof.
  induction n as [| n IH].
  - rewrite Z.add_0_r. cbn. rewrite app_nil_r. reflexivity.
  - replace (Z.of_nat a + Z.of_nat (S n)) with (Z.of_nat (S (a + n))) by lia.
    rewrite !py_range_snoc, !map_app, app_assoc.
    replace (Z.of_nat (a + n)) with (Z.of_nat a + Z.of_nat n) by lia.
    rewrite IH. reflexivity.
Qed.

Lemma py_range_add_Z (A : Type) (f : Z -> A) (a n : Z) :
  0 <= a -> 0 <= n ->
  List.map f (py_range (a + n)) =
  List.map f (py_range a) ++ List.map (fun i => f (a + i)) (py_range n).
Proof.
  intros Ha Hn.
  rewrite <- (Z2Nat.id a Ha), <- (Z2Nat.id n Hn). apply py_range_add.
Qed.

Section GenerateSamplesRun.

Import GenerateSamples.

Variables sample_num batch_size : Z.
Variable decoded : chunk -> Z -> Z -> string.

(** The [for] loop over [n] rows of one call of the sampling graph. *)
Lemma for_loop_result (ctx : chunk) (run : Z) (l : locals) (n : nat) :
  let l' := fold_left (for_body decoded ctx run) (py_range (Z.of_nat n)) l in
  index l' = index l + Z.of_nat n /\
  all_text l' =
    all_text l ++
    List.map (fun i => sample_block (index l + i + 1) (decoded ctx run i))
      (py_range (Z.of_nat n)) /\
  text l' =
    match n with
    | O => text l
    | S k => Some (sample_block (index l + Z.of_nat n)
                     (decoded ctx run (Z.of_nat k)))
    end.
Proof.
  induction n as [| n IH].
  - cbn. rewrite Z.add_0_r, app_nil_r. auto.
  - rewrite py_range_snoc, fold_left_app. cbn zeta in IH.
    destruct IH as (Hi & Ha & _). cbn [fold_left].
    set (l1 := fold_left _ _ l) in *. cbn zeta.
    unfold for_body at 1 2 3. cbn [index all_text text].
    rewrite Hi, Ha, map_app, <- app_assoc. cbn [List.map].
    repeat split; try lia.
    replace (index l + Z.of_nat n + 1) with (index l + Z.of_nat (S n)) by lia.
    reflexivity.
Qed.

Lemma expected_block_row (ctx : chunk) (run i : Z) :
  0 <= i < batch_size ->
  expected_block batch_size decoded ctx (run * batch_size + i) =
  sample_block (run * batch_size + i + 1) (decoded ctx run i).
Proof.
  intros Hi. unfold expected_block.
  replace ((run * batch_size + i) / batch_size) with run.
  2:{ rewrite (Z.add_comm (run * batch_size) i), Z.div_add by lia.
      rewrite Z.div_small by lia. lia. }
  replace ((run * batch_size + i) mod batch_size) with i.
  2:{ rewrite (Z.add_comm (run * batch_size) i), Z.mod_add by lia.
      rewrite Z.mod_small by lia. reflexivity. }
  reflexivity.
Qed.

(** The [while] loop from a state in which [run] full batches have been
    turned into blocks. *)
Lemma while_loop_result (ctx : chunk) (fuel : nat) :
  1 <= batch_size ->
  forall (run : Z) (l : locals),
    0 <= run ->
    index l = Z.min (run * batch_size) sample_num ->
    sample_num - index l <= Z.of_nat fuel ->
    all_text l =
      List.map (expected_block batch_size decoded ctx) (py_range (index l)) ->
    text l = (if index l =? 0 then None
              else Some (expected_block batch_size decoded ctx (index l - 1))) ->
    exists l',
      while_loop sample_num batch_size decoded fuel ctx run l = Some l' /\
      index l' = index l + Z.max 0 (sample_num - index l) /\
      all_text l' =
        List.map (expected_block batch_size decoded ctx) (py_range (index l')) /\
      text l' = (if index l' =? 0 then None
                 else Some (expected_block batch_size decoded ctx
                              (index l' - 1))).
Proof.
  intros Hb. induction fuel as [| fuel IH]; intros run l Hrun Hidx Hfuel Hall Htext.
  - cbn [while_loop]. destruct (index l <? sample_num) eqn:Hlt; [lia |].
    exists l. apply Z.ltb_ge in Hlt. repeat split; auto. lia.
  - cbn [while_loop]. destruct (index l <? sample_num) eqn:Hlt.
    2:{ exists l. apply Z.ltb_ge in Hlt. repeat split; auto. lia. }
    apply Z.ltb_lt in Hlt.
    assert (Hfull : index l = run * batch_size) by lia.
    set (n := Z.min (sample_num - index l) batch_size).
    assert (Hn : 1 <= n <= batch_size) by (unfold n; lia).
    destruct (for_loop_result ctx run l (Z.to_nat n)) as (Hi & Ha & Ht).
    rewrite Z2Nat.id in Hi, Ha, Ht by lia.
    set (l1 := fold_left (for_body decoded ctx run) (py_range n) l) in *.
    assert (Hall1 : all_text l1 =
              List.map (expected_block batch_size decoded ctx)
                (py_range (index l1))).
    { rewrite Ha, Hall, Hi.
      rewrite py_range_add_Z by nia. f_equal.
      apply map_ext_in. intros i Hin. apply py_range_in in Hin.
      rewrite Hfull, expected_block_row by lia. reflexivity. }
    assert (Htext1 : text l1 =
              (if index l1 =? 0 then None
               else Some (expected_block batch_size decoded ctx
                            (index l1 - 1)))).
    { rewrite Ht. destruct (Z.to_nat n) as [| k] eqn:Hk; [lia |].
      destruct (index l1 =? 0) eqn:H0; [apply Z.eqb_eq in H0; nia |].
      f_equal. rewrite Hi, Hfull.
      replace (run * batch_size + n - 1)
        with (run * batch_size + Z.of_nat k) by lia.
      rewrite expected_block_row by lia. f_equal. lia. }
    destruct (IH (run + 1) l1) as (l' & Hrun' & Hi' & Ha' & Ht'); auto;
      try lia.
    exists l'. split; [exact Hrun' |]. repeat split; auto. lia.
Qed.

(** X26.  With a batch size of at least one and at least one sample
    asked for, [generate_samples] ends normally once its context window
    is drawn: the file of step [counter] holds exactly [sample_num]
    blocks joined by newlines, block [k] (from 0) numbered [k + 1] and
    decoded from row [k mod batch_size] of call [k / batch_size] of the
    sampling graph, and what is printed is the last block only. *)
Theorem generate_samples_blocks (data_sampler : Sampler) (counter : Z)
        (tape tape' : list Z) (ctx : chunk) :
  1 <= batch_size -> 1 <= sample_num ->
  sample data_sampler 1 tape = (Returned ctx, tape') ->
  generate_samples sample_num batch_size decoded data_sampler counter tape =
  (Generated
     (expected_block batch_size decoded ctx (sample_num - 1))
     ("samples-" ++ str_of_Z counter)%string
     (String.concat newline
        (List.map (expected_block batch_size decoded ctx)
           (py_range sample_num))),
   tape').
Proof.
  intros Hb Hn Hs. unfold generate_samples. rewrite Hs.
  destruct (while_loop_result ctx (Z.to_nat sample_num) Hb 0
              {| index := 0; all_text := []; text := None |})
    as (l' & Hrun & Hi & Ha & Ht); cbn [index all_text text]; try lia;
    try reflexivity.
  rewrite Hrun. cbn [index] in Hi.
  replace (index l') with sample_num in * by lia.
  rewrite Ht, Ha. destruct (sample_num =? 0) eqn:H0; [lia |]. reflexivity.
Qed.

(** X27.  With [sample_num] zero or negative the loop of
    [generate_samples] never runs, the local [text] is never assigned,
    and the call fails at [print(text)] with UnboundLocalError, after
    the context window has been drawn and before any file is written. *)
Theorem generate_samples_none (data_sampler : Sampler) (counter : Z)
        (tape tape' : list Z) (ctx : chunk) :
  sample_num <= 0 ->
  sample data_sampler 1 tape = (Returned ctx, tape') ->
  generate_samples sample_num batch_size decoded data_sampler counter tape =
  (UnboundLocalError, tape').
Proof.
  intros Hn Hs. unfold generate_samples. rewrite Hs.
  destruct (Z.to_nat sample_num); cbn [while_loop index];
    destruct (0 <? sample_num) eqn:Hlt; try lia; reflexivity.
Qed.

End GenerateSamplesRun.

Lemma generate_samples_blocks_witness :
  GenerateSamples.generate_samples 3 2
    (fun _ run i => str_of_Z (10 * run + i))
    (Sampler_init three_chunks) 100 [7] =
  (GenerateSamples.Generated
     (expected_block 2 (fun _ run i => str_of_Z (10 * run + i)) [8] (3 - 1))
     ("samples-" ++ str_of_Z 100)%string
     (String.concat newline
        (List.map
           (expected_block 2 (fun _ run i => str_of_Z (10 * run + i)) [8])
           (py_range 3))),
   []).
Proof.
  apply (generate_samples_blocks 3 2 (fun _ run i => str_of_Z (10 * run + i))
           (Sampler_init three_chunks) 100 [7] [] [8]);
    [lia | lia | reflexivity].
Defined.

Lemma generate_samples_none_witness :
  GenerateSamples.generate_samples 0 2
    (fun _ run i => str_of_Z (10 * run + i))
    (Sampler_init three_chunks) 100 [7] =
  (GenerateSamples.UnboundLocalError, []).
Proof.
  apply (generate_samples_none 0 2 (fun _ run i => str_of_Z (10 * run + i))
           (Sampler_init three_chunks) 100 [7] [] [8]);
    [lia | reflexivity].
Defined.

Example generate_samples_three :
  fst (GenerateSamples.generate_samples 3 2
         (fun _ run i => str_of_Z (10 * run + i))
         (Sampler_init three_chunks) 100 [7]) =
  GenerateSamples.Generated
    ("======== SAMPLE 3 ========" ++ newline ++ "10" ++ newline)%string
    "samples-100"%string
    ("======== SAMPLE 1 ========" ++ newline ++ "0" ++ newline ++ newline ++
     "======== SAMPLE 2 ========" ++ newline ++ "1" ++ newline ++ newline ++
     "======== SAMPLE 3 ========" ++ newline ++ "10" ++ newline)%string.
Proof. vm_compute. reflexivity. Qed.
